(** * ZeroCode prompt generator: assembler, transformer and truncator

    A shallow embedding of [src/generator.ts] and [src/platform-optimizer.ts]
    and the properties of the budget-constrained assembler, the
    profile-driven rewrite pipeline and the header/footer-preserving
    truncation, followed by the command-line parser
    ([src/simple-commander.ts]) and the command [generate] of [src/cli.ts].

    Conventions.
    - A JavaScript string is the list of its UTF-16 code units ([list N]);
      [length], [substring], [indexOf] count code units, as in the source.
    - The numbers the code computes with are lengths, indices and the
      integer ceilings of the profile table, so they are modelled in [Z].
      The fractional thresholds ([* 0.7], [* 0.9], [* 0.3], [* 0.8]) are
      modelled in exact rational arithmetic ([Q]); for integer operands
      below 2^50 the comparison of an integer with the rounded double
      product has the same outcome as the exact comparison.
    - A class is a record of its fields, a method a function of [this].
    - The [Command] objects of the parser are shared between the caller
      and the map of their parent, so they live in a heap and are passed
      by reference. *)

From Stdlib Require Import ZArith NArith List Lia Bool QArith Qround.
From Stdlib Require Import Ascii String DecimalString.
From stdpp Require Import gmap.
Import ListNotations.

Local Open Scope nat_scope.
Local Open Scope list_scope.

(* ===================================================================== *)
(** * JavaScript strings *)
(* ===================================================================== *)

Module JS.

Abbreviation jsstring := (list N).

(** ** Source literals

    The source files are UTF-8; a literal denotes the UTF-16 code units of
    its text after escape processing.  [js] does both, so that a literal is
    written here with the text it has in the source ([\n], [\`] included).
    A double quote is written with its escape [\x22], which denotes the same
    code unit in a JavaScript literal. *)

Fixpoint bytes (s : string) : list N :=
  match s with
  | EmptyString => []
  | String a t => N_of_ascii a :: bytes t
  end.

Definition cont (b : N) : N := N.land b 63.

Fixpoint utf8_decode (bs : list N) : list N :=
  match bs with
  | [] => []
  | b :: r =>
    if (b <? 128)%N then b :: utf8_decode r
    else if (b <? 224)%N then
      match r with
      | b1 :: r1 => N.lor (N.shiftl (N.land b 31) 6) (cont b1) :: utf8_decode r1
      | _ => []
      end
    else if (b <? 240)%N then
      match r with
      | b1 :: b2 :: r2 =>
        N.lor (N.shiftl (N.land b 15) 12) (N.lor (N.shiftl (cont b1) 6) (cont b2))
          :: utf8_decode r2
      | _ => []
      end
    else
      match r with
      | b1 :: b2 :: b3 :: r3 =>
        N.lor (N.shiftl (N.land b 7) 18)
          (N.lor (N.shiftl (cont b1) 12) (N.lor (N.shiftl (cont b2) 6) (cont b3)))
          :: utf8_decode r3
      | _ => []
      end
  end.

Definition utf16_units (cp : N) : list N :=
  if (cp <? 65536)%N then [cp]
  else let c := (cp - 65536)%N in
       [(55296 + N.shiftr c 10)%N; (56320 + N.land c 1023)%N].

Definition hexval (c : N) : N :=
  if (48 <=? c)%N && (c <=? 57)%N then (c - 48)%N
  else if (97 <=? c)%N && (c <=? 102)%N then (c - 87)%N
  else if (65 <=? c)%N && (c <=? 70)%N then (c - 55)%N
  else 0%N.

(** Escape sequences of string and template literals: [\n], [\xHH] and the
    identity escapes ([\`], [\\], ...). *)
Fixpoint cook (s : jsstring) : jsstring :=
  match s with
  | [] => []
  | c :: t =>
    if (c =? 92)%N then
      match t with
      | [] => []
      | e :: t' =>
        if (e =? 110)%N then 10%N :: cook t'
        else if (e =? 120)%N then
          match t' with
          | h1 :: h2 :: t'' => (16 * hexval h1 + hexval h2)%N :: cook t''
          | _ => []
          end
        else e :: cook t'
      end
    else c :: cook t
  end.

Definition js (s : string) : jsstring :=
  cook (flat_map utf16_units (utf8_decode (bytes s))).
Arguments js s%_string.

(** ** Primitive operations *)

Definition strlen (s : jsstring) : Z := Z.of_nat (length s).

Definition eqb (a b : jsstring) : bool := bool_decide (a = b).

Fixpoint startsWith (s pat : jsstring) : bool :=
  match pat, s with
  | [], _ => true
  | p :: pat', c :: s' => (c =? p)%N && startsWith s' pat'
  | _ :: _, [] => false
  end.

(** [String.prototype.indexOf]: index of the first occurrence, or [-1]. *)
Fixpoint indexOf_from (s pat : jsstring) (i : Z) : Z :=
  if startsWith s pat then i
  else match s with
       | [] => (-1)%Z
       | _ :: t => indexOf_from t pat (i + 1)%Z
       end.

Definition indexOf (s pat : jsstring) : Z := indexOf_from s pat 0.

(** [String.prototype.lastIndexOf]: index of the last occurrence, or [-1]. *)
Fixpoint lastIndexOf_from (s pat : jsstring) (i : Z) : Z :=
  match s with
  | [] => if startsWith s pat then i else (-1)%Z
  | _ :: t =>
    let later := lastIndexOf_from t pat (i + 1)%Z in
    if (0 <=? later)%Z then later
    else if startsWith s pat then i else (-1)%Z
  end.

Definition lastIndexOf (s pat : jsstring) : Z := lastIndexOf_from s pat 0.

Definition includes (s pat : jsstring) : bool := (0 <=? indexOf s pat)%Z.

(** [String.prototype.substring(start, end)]: both arguments are clamped to
    [0 .. length] and swapped when [start > end]. *)
Definition clamp (s : jsstring) (i : Z) : nat :=
  Nat.min (Z.to_nat i) (length s).

Definition substring (s : jsstring) (a b : Z) : jsstring :=
  let a' := clamp s a in
  let b' := clamp s b in
  let lo := Nat.min a' b' in
  let hi := Nat.max a' b' in
  take (hi - lo) (drop lo s).

(** [String.prototype.split('\n')]. *)
Fixpoint split_nl (s : jsstring) : list jsstring :=
  match s with
  | [] => [[]]
  | c :: t =>
    match split_nl t with
    | [] => [[c]]
    | l :: ls => if (c =? 10)%N then [] :: l :: ls else (c :: l) :: ls
    end
  end.

(** [Array.prototype.join]. *)
Fixpoint join (sep : jsstring) (parts : list jsstring) : jsstring :=
  match parts with
  | [] => []
  | [p] => p
  | p :: ps => p ++ sep ++ join sep ps
  end.

(** [Array.prototype.slice(0, end)]: a negative [end] counts from the end. *)
Definition slice0 {A} (l : list A) (e : Z) : list A :=
  if (e <? 0)%Z then take (Z.to_nat (Z.of_nat (length l) + e)) l
  else take (Z.to_nat e) l.

(** Decimal rendering of a non-negative integer, as [String(n)] in a
    template literal. *)
Definition toString (n : Z) : jsstring :=
  bytes (NilEmpty.string_of_uint (N.to_uint (Z.to_N n))).

(** ** GetSubstitution

    [String.prototype.replace] expands its replacement text: [$$] is a
    dollar sign, [$&] the matched text, [$`] the text before the match,
    [$'] the text after it and [$n], [$nn] the n-th capture when there is
    one; everything else stands for itself.  This also holds when the
    pattern is a string. *)

Definition is_digit (c : N) : bool := (48 <=? c)%N && (c <=? 57)%N.

Definition capture (captures : list (option jsstring)) (index : N)
  : option jsstring :=
  if (1 <=? index)%N && (index <=? N.of_nat (length captures))%N
  then Some (default [] (mjoin (captures !! (N.to_nat index - 1))))
  else None.

Fixpoint getSubstitution (matched before after : jsstring)
    (captures : list (option jsstring)) (template : jsstring) : jsstring :=
  match template with
  | [] => []
  | c :: t =>
    if negb (c =? 36)%N then c :: getSubstitution matched before after captures t
    else
      match t with
      | [] => [c]
      | d :: t' =>
        if (d =? 36)%N then 36%N :: getSubstitution matched before after captures t'
        else if (d =? 96)%N then before ++ getSubstitution matched before after captures t'
        else if (d =? 38)%N then matched ++ getSubstitution matched before after captures t'
        else if (d =? 39)%N then after ++ getSubstitution matched before after captures t'
        else if is_digit d then
          let one :=
            match capture captures (d - 48) with
            | Some r => r ++ getSubstitution matched before after captures t'
            | None => c :: d :: getSubstitution matched before after captures t'
            end in
          match t' with
          | d2 :: t'' =>
            if is_digit d2 then
              match capture captures (10 * (d - 48) + (d2 - 48)) with
              | Some r => r ++ getSubstitution matched before after captures t''
              | None =>
                if (N.of_nat (length captures) <? 10 * (d - 48) + (d2 - 48))%N
                then one
                else c :: d :: d2 :: getSubstitution matched before after captures t''
              end
            else one
          | [] => one
          end
        else c :: getSubstitution matched before after captures t
      end
  end.

(** [str.replace(pattern, replacement)] with a string pattern: the first
    occurrence is replaced by the expansion of [replacement]. *)
Definition replace_str (str pattern replacement : jsstring) : jsstring :=
  let pos := indexOf str pattern in
  if (pos <? 0)%Z then str
  else
    let before := take (Z.to_nat pos) str in
    let after := drop (Z.to_nat pos + length pattern) str in
    before ++ getSubstitution pattern before after [] replacement ++ after.

(** [str.replace(/re/g, replacement)].  [rx] is one match attempt of the
    regular expression at the head of its argument; it returns the matched
    text and its captures.  Matches are found from left to right and do not
    overlap; none of the expressions of this program matches the empty
    string.  [skip] counts the code units of the current match that are
    still to be consumed, [consumed] holds the text before the current
    position, last code unit first. *)
Definition matcher := jsstring -> option (jsstring * list (option jsstring)).

Fixpoint replace_all_from (rx : matcher) (template : jsstring)
    (consumed : jsstring) (skip : nat) (s : jsstring) : jsstring :=
  match s with
  | [] => []
  | c :: t =>
    match skip with
    | S k => replace_all_from rx template (c :: consumed) k t
    | O =>
      match rx s with
      | Some (m, caps) =>
        getSubstitution m (rev consumed) (drop (length m) s) caps template
          ++ replace_all_from rx template (c :: consumed) (length m - 1) t
      | None => c :: replace_all_from rx template (c :: consumed) 0 t
      end
    end
  end.

Definition replace_all (rx : matcher) (template : jsstring) (s : jsstring)
  : jsstring :=
  replace_all_from rx template [] 0 s.

(** The regular expression of a literal text: [/### /], [/- \[ \]/], ... *)
Definition rx_lit (pat : jsstring) : matcher :=
  fun s => if startsWith s pat then Some (pat, []) else None.

End JS.

Import JS.

(* ===================================================================== *)
(** * Shared types ([types.ts]) *)
(* ===================================================================== *)

(** [platform] is declared as a union of four literals, but the command
    line passes any text; it is a free-form string here. *)
Record PromptGeneratorConfig := {
  platform : jsstring;
  complexity : jsstring;
  language : jsstring;
  customRules : option (list jsstring)
}.

Record GeneratedPrompt := {
  systemPrompt : jsstring;
  instructions : jsstring;
  examples_list : list jsstring;
  prompt_platform : jsstring
}.

(** The numbers of the program in exact arithmetic. *)
Definition num_lt (a b : Q) : bool := negb (Qle_bool b a).
Definition num_gt (a b : Q) : bool := num_lt b a.
Definition num (z : Z) : Q := inject_Z z.

(** A string is truthy when it is not empty. *)
Definition truthy (s : jsstring) : bool :=
  match s with [] => false | _ => true end.

(** [a || b] on a possibly undefined string. *)
Definition or_else (a : option jsstring) (b : jsstring) : jsstring :=
  match a with
  | Some s => if truthy s then s else b
  | None => b
  end.

(* ===================================================================== *)
(** * The platform optimizer ([platform-optimizer.ts]) *)
(* ===================================================================== *)

Module Optimizer.

(** The template literals of [platform-optimizer.ts]. *)

Definition cursorPrefix : jsstring := Eval vm_compute in js "
## Cursor IDE Optimization

You are specifically optimized for code generation in Cursor IDE. Focus on:
- Providing complete, runnable code examples
- Using TypeScript when possible
- Including proper imports and exports
- Suggesting file structures and organization
- Optimizing for developer productivity

".

Definition claudePrefix : jsstring := Eval vm_compute in js "
## Claude Optimization

You are optimized for Claude's structured reasoning capabilities. Emphasize:
- Detailed step-by-step explanations
- Multiple perspectives on complex problems
- Comprehensive analysis with pros/cons
- Clear reasoning chains
- Thorough documentation of thought processes

".

Definition ollamaPrefix : jsstring := Eval vm_compute in js "
## Ollama Local Model Optimization

You are optimized for local model efficiency. Focus on:
- Concise, direct responses
- Essential information only
- Minimal context switching
- Clear, simple language
- Efficient token usage

".

Definition universalPrefix : jsstring := Eval vm_compute in js "
## Universal Compatibility

This prompt is optimized for compatibility across multiple AI platforms:
- Works with Cursor, Claude, Ollama, and other AI tools
- Balanced approach between detail and conciseness
- Standard markdown formatting
- Clear structure for easy parsing

".

Definition exampleSection : jsstring := Eval vm_compute in js "

## Detailed Examples for Claude

### Example 1: Code Review Request
**Request:** \x22Review this React component\x22
**Response Structure:**
ğŸ¯ **OBJECTIVE:** Analyze component for Hickey/Linus/Zeus principles
ğŸ”§ **IMPLEMENTATION:** Specific improvements with code examples
âš ï¸ **CONSIDERATIONS:** Potential issues and trade-offs
ğŸ“ˆ **VALIDATION:** Testing strategies and success metrics

### Example 2: Architecture Decision
**Request:** \x22Should I use Redux or Context API?\x22
**Response Structure:**
ğŸ¯ **OBJECTIVE:** Choose state management based on real needs (Linus)
ğŸ”§ **IMPLEMENTATION:** Simple solution first (Hickey), structured comparison (Zeus)
âš ï¸ **CONSIDERATIONS:** Complexity trade-offs and team familiarity
ğŸ“ˆ **VALIDATION:** Measurable criteria for success
".

(** The texts of [enhanceStructuredSections] and [removeEmojis], as the
    source file spells them. *)

Definition objective_colon : jsstring := Eval vm_compute in js "ğŸ¯ OBJECTIVE:".

Definition objective_colon_note : jsstring := Eval vm_compute in js "ğŸ¯ OBJECTIVE:\n*Claude users: Provide comprehensive analysis with multiple perspectives*\n".

Definition objective_heading : jsstring := Eval vm_compute in js "### ğŸ¯ OBJECTIVE".

Definition objective_heading_note : jsstring := Eval vm_compute in js "### ğŸ¯ OBJECTIVE\n*Claude users: Provide comprehensive analysis with multiple perspectives*".

Definition glyph_objective : jsstring := Eval vm_compute in js "ğŸ¯".

Definition glyph_implementation : jsstring := Eval vm_compute in js "ğŸ”§".

Definition glyph_considerations : jsstring := Eval vm_compute in js "âš ï¸".

Definition glyph_validation : jsstring := Eval vm_compute in js "ğŸ“ˆ".

Inductive Format := markdown | plain | structured.

Record PlatformLimits := {
  maxCharacters : option Z;
  maxLines : option Z;
  preferredFormat : Format;
  supportsEmojis : bool;
  requiresSpecialFormatting : option (list jsstring)
}.

Record OptimizationResult := {
  optimizedPrompt : jsstring;
  warnings : list jsstring;
  appliedOptimizations : list jsstring
}.

Record PlatformOptimizer := {
  platformLimits : gmap jsstring PlatformLimits
}.

(** [limits?.maxCharacters || 10000]: an unknown platform, a profile
    without ceiling and a ceiling of zero all give the default. *)
Definition getPlatformLimit (this : PlatformOptimizer) (platform : jsstring) : Z :=
  match platformLimits this !! platform with
  | Some limits =>
    match maxCharacters limits with
    | Some n => if (n =? 0)%Z then 10000%Z else n
    | None => 10000%Z
    end
  | None => 10000%Z
  end.

Definition initializePlatformLimits : gmap jsstring PlatformLimits :=
  <[ js "universal" :=
       {| maxCharacters := Some 12000%Z; maxLines := None;
          preferredFormat := markdown; supportsEmojis := true;
          requiresSpecialFormatting := Some [js "clear-sections"] |} ]>
  (<[ js "ollama" :=
       {| maxCharacters := Some 8000%Z; maxLines := Some 300%Z;
          preferredFormat := plain; supportsEmojis := false;
          requiresSpecialFormatting := Some [js "simple-structure"] |} ]>
  (<[ js "claude" :=
       {| maxCharacters := Some 20000%Z; maxLines := None;
          preferredFormat := structured; supportsEmojis := true;
          requiresSpecialFormatting :=
            Some [js "headers"; js "sections"; js "examples"] |} ]>
  (<[ js "cursor" :=
       {| maxCharacters := Some 15000%Z; maxLines := None;
          preferredFormat := markdown; supportsEmojis := true;
          requiresSpecialFormatting :=
            Some [js "code-blocks"; js "bullet-points"] |} ]> ∅))).

(** The constructor. *)
Definition new_PlatformOptimizer : PlatformOptimizer :=
  {| platformLimits := initializePlatformLimits |}.

(** ** Helpers *)

(** The match of [/^(# .*?\n\n.*?\n\n)/s].  With the [s] flag the dot
    matches every code unit, so the lazy quantifiers stop at the first blank
    line after the [# ] and at the first blank line after that one; when the
    second is missing, no longer first part can supply it. *)
Definition header_match (prompt : jsstring) : option jsstring :=
  if startsWith prompt (js "# ") then
    let r := drop 2 prompt in
    let i := indexOf r (js "\n\n") in
    if (i <? 0)%Z then None
    else
      let r2 := drop (Z.to_nat i + 2) r in
      let j := indexOf r2 (js "\n\n") in
      if (j <? 0)%Z then None
      else Some (take (2 + Z.to_nat i + 2 + Z.to_nat j + 2) prompt)
  else None.

Definition insertAfterHeader (prompt content : jsstring) : jsstring :=
  match header_match prompt with
  | Some h => replace_str prompt h (h ++ content)
  | None => content ++ prompt
  end.

Definition enhanceCodeSections (prompt : jsstring) : jsstring :=
  replace_all (rx_lit (js "## Implementation Guidelines"))
    (js "## Code Implementation Guidelines\n\n**For Cursor IDE users:**\n- Always provide complete, runnable code\n- Include proper TypeScript types\n- Suggest file organization\n- Consider IDE integration\n\n## Implementation Guidelines")
    prompt.

Definition enhanceStructuredSections (prompt : jsstring) : jsstring :=
  let enhanced := replace_all (rx_lit objective_colon) objective_colon_note prompt in
  if eqb enhanced prompt
  then replace_all (rx_lit objective_heading) objective_heading_note prompt
  else enhanced.

Definition addDetailedExamples (prompt : jsstring) : jsstring :=
  prompt ++ exampleSection.

(** The code points of the character class of [removeEmojis]. *)
Definition symbol_code_point (cp : N) : bool :=
  ((128512 <=? cp) && (cp <=? 128591)
   || (127744 <=? cp) && (cp <=? 128511)
   || (128640 <=? cp) && (cp <=? 128767)
   || (127456 <=? cp) && (cp <=? 127487)
   || (9728 <=? cp) && (cp <=? 9983)
   || (9984 <=? cp) && (cp <=? 10175))%N.

Definition is_high_surrogate (c : N) : bool := ((55296 <=? c) && (c <=? 56319))%N.
Definition is_low_surrogate (c : N) : bool := ((56320 <=? c) && (c <=? 57343))%N.

(** One match attempt of the class under the [u] flag: a surrogate pair is
    one code point.  A low surrogate starts no match, so that advancing by
    one code unit after a failed attempt finds the same matches as
    advancing by one code point. *)
Definition rx_symbol : matcher :=
  fun s =>
    match s with
    | [] => None
    | c :: t =>
      match t with
      | d :: _ =>
        if is_high_surrogate c && is_low_surrogate d then
          if symbol_code_point (65536 + N.shiftl (c - 55296) 10 + (d - 56320))%N
          then Some ([c; d], []) else None
        else if symbol_code_point c then Some ([c], []) else None
      | [] => if symbol_code_point c then Some ([c], []) else None
      end
    end.

Definition removeEmojis (prompt : jsstring) : jsstring :=
  replace_all rx_symbol []
    (replace_all (rx_lit glyph_validation) (js "[VALIDATION]")
      (replace_all (rx_lit glyph_considerations) (js "[CONSIDERATIONS]")
        (replace_all (rx_lit glyph_implementation) (js "[IMPLEMENTATION]")
          (replace_all (rx_lit glyph_objective) (js "[OBJECTIVE]") prompt)))).

(** One match attempt of [/\*\*([^*]+)\*\*/]: two asterisks, the longest
    run of other code units, which must not be empty, and two asterisks.
    A shorter run is followed by a code unit that is no asterisk, so that
    backtracking finds nothing else. *)
Definition star : N := 42%N.

Fixpoint run_no_star (s : jsstring) : jsstring :=
  match s with
  | [] => []
  | c :: t => if (c =? star)%N then [] else c :: run_no_star t
  end.

Definition rx_bold : matcher :=
  fun s =>
    if startsWith s [star; star] then
      let phrase := run_no_star (drop 2 s) in
      if truthy phrase && startsWith (drop (2 + length phrase) s) [star; star]
      then Some ([star; star] ++ phrase ++ [star; star], [Some phrase])
      else None
    else None.

Definition simplifyStructure (prompt : jsstring) : jsstring :=
  replace_all (rx_lit (js "- [ ]")) (js "-")
    (replace_all rx_bold (js "$1:")
      (replace_all (rx_lit (js "#### ")) (js "### ")
        (replace_all (rx_lit (js "### ")) (js "## ") prompt))).

(** ** Truncation *)

Definition truncationMessage : jsstring :=
  Eval vm_compute in js "\n\n[Truncated for platform compatibility]".

(** The match of [/\n\n## Usage Instructions[\s\S]*$/]: from the first
    occurrence of the heading to the end of the text. *)
Definition footer_match (prompt : jsstring) : option jsstring :=
  let i := indexOf prompt (js "\n\n## Usage Instructions") in
  if (i <? 0)%Z then None else Some (drop (Z.to_nat i) prompt).

Definition is_line_terminator (c : N) : bool :=
  ((c =? 10) || (c =? 13) || (c =? 8232) || (c =? 8233))%N.

(** [.*?] followed by a text that starts with a line feed, without the [s]
    flag: the dot stops before the first line terminator, where the text
    has to start.  The result is the number of code units the dots take. *)
Fixpoint dots_then (lit s : jsstring) : option nat :=
  if startsWith s lit then Some 0
  else match s with
       | [] => None
       | c :: t => if is_line_terminator c then None else S <$> dots_then lit t
       end.

(** The length of the match of
    [/^(# .*?\n\n.*?\n\n## Core Principles[\s\S]*?\n\n)/]. *)
Definition core_header_length (prompt : jsstring) : option nat :=
  if startsWith prompt (js "# ") then
    i ← dots_then (js "\n\n") (drop 2 prompt);
    let p1 := 2 + i + 2 in
    j ← dots_then (js "\n\n## Core Principles") (drop p1 prompt);
    let p2 := p1 + j + length (js "\n\n## Core Principles") in
    let k := indexOf (drop p2 prompt) (js "\n\n") in
    if (k <? 0)%Z then None else Some (p2 + Z.to_nat k + 2)
  else None.

Definition truncatePrompt (prompt : jsstring) (maxChars : Z) : jsstring :=
  if (strlen prompt <=? maxChars)%Z then prompt
  else
    let footerMatch := footer_match prompt in
    let footerLength := match footerMatch with Some f => strlen f | None => 0%Z end in
    let availableChars := (maxChars - strlen truncationMessage - footerLength)%Z in
    if num_lt (num availableChars) (num (strlen prompt) * 0.3) then
      let simpleAvailable := (maxChars - strlen truncationMessage)%Z in
      let truncated := substring prompt 0 simpleAvailable in
      let lastParagraph := lastIndexOf truncated (js "\n\n") in
      if num_gt (num lastParagraph) (num simpleAvailable * 0.8)
      then substring truncated 0 lastParagraph ++ truncationMessage
      else truncated ++ truncationMessage
    else
      let headerLength :=
        match core_header_length prompt with Some n => Z.of_nat n | None => 0%Z end in
      let mainContentStart := headerLength in
      let mainContentAvailable := (availableChars - headerLength)%Z in
      if (mainContentAvailable >? 0)%Z then
        let header := substring prompt 0 headerLength in
        let mainContent :=
          substring prompt mainContentStart (mainContentStart + mainContentAvailable) in
        let footer := match footerMatch with Some f => f | None => [] end in
        let lastParagraph := lastIndexOf mainContent (js "\n\n") in
        let finalMainContent :=
          if num_gt (num lastParagraph) (num mainContentAvailable * 0.8)
          then substring mainContent 0 lastParagraph
          else mainContent in
        header ++ finalMainContent ++ truncationMessage ++ footer
      else
        let truncated := substring prompt 0 (maxChars - strlen truncationMessage) in
        truncated ++ truncationMessage.

Definition truncateByLines (prompt : jsstring) (maxLines : Z) : jsstring :=
  let lines := split_nl prompt in
  if (Z.of_nat (length lines) <=? maxLines)%Z then prompt
  else
    let truncationLines := [[]; js "[Truncated for platform compatibility]"] in
    let availableLines := (maxLines - Z.of_nat (length truncationLines))%Z in
    join (js "\n") (slice0 lines availableLines) ++ js "\n"
      ++ join (js "\n") truncationLines.

(** ** The optimization procedures

    [this.platformLimits.get(k)!] is undefined for a key that is not in the
    table, and reading a property of it throws: [None] stands for that
    TypeError.  [x > limits.maxCharacters!] is false when the profile has
    no ceiling. *)

Definition exceeds (prompt : jsstring) (limit : option Z) : option Z :=
  match limit with
  | Some m => if (strlen prompt >? m)%Z then Some m else None
  | None => None
  end.

(** The document of [optimizeForCursor] before its ceiling check. *)
Definition cursorTransform (prompt : jsstring) : jsstring :=
  enhanceCodeSections (insertAfterHeader prompt cursorPrefix).

Definition optimizeForCursor (this : PlatformOptimizer) (prompt : jsstring)
    (config : PromptGeneratorConfig) : option OptimizationResult :=
  limits ← platformLimits this !! js "cursor";
  let optimizedPrompt := cursorTransform prompt in
  let appliedOptimizations :=
    [js "Added Cursor-specific code generation focus";
     js "Enhanced code-related sections"] in
  match exceeds optimizedPrompt (maxCharacters limits) with
  | Some m =>
    Some {| optimizedPrompt := truncatePrompt optimizedPrompt m;
            warnings := [js "Prompt truncated to " ++ toString m
                           ++ js " characters for Cursor compatibility"];
            appliedOptimizations := appliedOptimizations |}
  | None =>
    Some {| optimizedPrompt := optimizedPrompt;
            warnings := [];
            appliedOptimizations := appliedOptimizations |}
  end.

(** The document of [optimizeForClaude] before its ceiling check. *)
Definition claudeTransform (prompt : jsstring) : jsstring :=
  addDetailedExamples
    (enhanceStructuredSections (insertAfterHeader prompt claudePrefix)).

Definition optimizeForClaude (this : PlatformOptimizer) (prompt : jsstring)
    (config : PromptGeneratorConfig) : option OptimizationResult :=
  limits ← platformLimits this !! js "claude";
  let optimizedPrompt := claudeTransform prompt in
  let appliedOptimizations :=
    [js "Added Claude-specific structured thinking";
     js "Enhanced structured sections";
     js "Added detailed examples"] in
  match exceeds optimizedPrompt (maxCharacters limits) with
  | Some m =>
    Some {| optimizedPrompt := optimizedPrompt;
            warnings := [js "Prompt is " ++ toString (strlen optimizedPrompt)
                           ++ js " characters (within Claude's "
                           ++ toString m ++ js " limit)"];
            appliedOptimizations := appliedOptimizations |}
  | None =>
    Some {| optimizedPrompt := optimizedPrompt;
            warnings := [];
            appliedOptimizations := appliedOptimizations |}
  end.

(** The document of [optimizeForOllama] before its ceiling check. *)
Definition ollamaTransform (limits : PlatformLimits) (prompt : jsstring) : jsstring :=
  let optimizedPrompt := insertAfterHeader prompt ollamaPrefix in
  let optimizedPrompt :=
    if negb (supportsEmojis limits) then removeEmojis optimizedPrompt
    else optimizedPrompt in
  simplifyStructure optimizedPrompt.

(** The character pass of [optimizeForOllama]: document and warnings. *)
Definition ollamaCharPass (limits : PlatformLimits) (doc : jsstring)
  : jsstring * list jsstring :=
  match exceeds doc (maxCharacters limits) with
  | Some m =>
    (truncatePrompt doc m,
     [js "Prompt truncated to " ++ toString m
        ++ js " characters for Ollama compatibility"])
  | None => (doc, [])
  end.

(** [limits.maxLines && lineCount > limits.maxLines]. *)
Definition over_lines (limits : PlatformLimits) (doc : jsstring) : option Z :=
  let lineCount := Z.of_nat (length (split_nl doc)) in
  match maxLines limits with
  | Some n => if negb (n =? 0)%Z && (lineCount >? n)%Z then Some n else None
  | None => None
  end.

Definition optimizeForOllama (this : PlatformOptimizer) (prompt : jsstring)
    (config : PromptGeneratorConfig) : option OptimizationResult :=
  limits ← platformLimits this !! js "ollama";
  let optimizedPrompt := ollamaTransform limits prompt in
  let appliedOptimizations :=
    [js "Added Ollama-specific local model optimization"]
      ++ (if negb (supportsEmojis limits)
          then [js "Removed emojis for local model compatibility"] else [])
      ++ [js "Simplified structure for local models"] in
  let '(optimizedPrompt, warnings) := ollamaCharPass limits optimizedPrompt in
  match over_lines limits optimizedPrompt with
  | Some n =>
    Some {| optimizedPrompt := truncateByLines optimizedPrompt n;
            warnings := warnings ++ [js "Prompt truncated to " ++ toString n
                                       ++ js " lines for Ollama compatibility"];
            appliedOptimizations := appliedOptimizations |}
  | None =>
    Some {| optimizedPrompt := optimizedPrompt;
            warnings := warnings;
            appliedOptimizations := appliedOptimizations |}
  end.

(** The document of [optimizeForUniversal] before its ceiling check. *)
Definition universalTransform (prompt : jsstring) : jsstring :=
  insertAfterHeader prompt universalPrefix.

Definition optimizeForUniversal (this : PlatformOptimizer) (prompt : jsstring)
    (config : PromptGeneratorConfig) : option OptimizationResult :=
  limits ← platformLimits this !! js "universal";
  let optimizedPrompt := universalTransform prompt in
  let appliedOptimizations := [js "Added universal compatibility optimization"] in
  match exceeds optimizedPrompt (maxCharacters limits) with
  | Some m =>
    Some {| optimizedPrompt := truncatePrompt optimizedPrompt m;
            warnings := [js "Prompt truncated to " ++ toString m
                           ++ js " characters for universal compatibility"];
            appliedOptimizations := appliedOptimizations |}
  | None =>
    Some {| optimizedPrompt := optimizedPrompt;
            warnings := [];
            appliedOptimizations := appliedOptimizations |}
  end.

(** The [switch] of [optimize]: [universal] and [default] share a branch. *)
Definition optimize (this : PlatformOptimizer) (prompt : jsstring)
    (config : PromptGeneratorConfig) : option OptimizationResult :=
  if eqb (platform config) (js "cursor") then optimizeForCursor this prompt config
  else if eqb (platform config) (js "claude") then optimizeForClaude this prompt config
  else if eqb (platform config) (js "ollama") then optimizeForOllama this prompt config
  else optimizeForUniversal this prompt config.

Definition getPlatformLimits (this : PlatformOptimizer) (platform : jsstring)
  : option PlatformLimits :=
  platformLimits this !! platform.

(** ** Detection of the destination

    [detectPlatform] lower-cases the prompt with the host's
    [String.prototype.toLowerCase], which is a parameter of the model. *)

Section Host.

Variable toLowerCase : jsstring -> jsstring.

Definition detectPlatform (prompt : jsstring) (config : PromptGeneratorConfig)
  : jsstring :=
  if negb (eqb (platform config) (js "universal")) then platform config
  else
    let promptLower := toLowerCase prompt in
    if includes promptLower (js "cursor") || includes promptLower (js "vscode")
       || includes promptLower (js "ide")
    then js "cursor"
    else if includes promptLower (js "claude") || includes promptLower (js "anthropic")
    then js "claude"
    else if includes promptLower (js "ollama") || includes promptLower (js "local")
            || includes promptLower (js "llama")
    then js "ollama"
    else js "universal".

End Host.

End Optimizer.

(* ===================================================================== *)
(** * The adaptive prompt generator ([generator.ts]) *)
(* ===================================================================== *)

Module Generator.

Import Optimizer.

(** The template literals of [generator.ts]. *)

Definition corePromptText : jsstring := Eval vm_compute in js "# ZeroCode Framework - Core Rules

## TRIGGER PATTERNS - When you see these, apply rules:

### Code Architecture Decisions
TRIGGERS: \x22how should I structure\x22, \x22best practice\x22, \x22design pattern\x22
→ APPLY: Hickey Simple Rule - One concept per component

### Problem Solving  
TRIGGERS: \x22how to implement\x22, \x22need to build\x22, \x22want to create\x22
→ APPLY: Linus Real Problem Rule - Is this actually needed?

### Code Review
TRIGGERS: \x22is this good\x22, \x22review my code\x22, \x22feedback on\x22
→ APPLY: Zeus Structure - Analyze systematically

## CONCRETE RULES WITH EXAMPLES

### HICKEY RULE: Detect Complexity
BAD PATTERN (avoid this):
\`\`\`javascript
class UserServiceManagerFactory {  // Multiple concepts
  validateAndSaveAndEmail() {}     // Mixed responsibilities
}
\`\`\`

GOOD PATTERN (do this):
\`\`\`javascript
validateUser(user)    // One concept
saveUser(user)        // One concept
emailUser(user)       // One concept
\`\`\`

### LINUS RULE: Real vs Imaginary
IMAGINARY PROBLEMS (don't solve):
- \x22What if we have 1 million users\x22 (you have 10)
- \x22This needs to be infinitely scalable\x22 (it doesn't)
- \x22We might need this flexibility\x22 (you won't)

REAL PROBLEMS (solve these):
- \x22This takes 5 seconds to load\x22 (measurable)
- \x22Users can't reset passwords\x22 (actual issue)
- \x22Database queries fail randomly\x22 (happening now)

### ZEUS STRUCTURE: Every response must have:
🎯 OBJECTIVE: What we're solving (one sentence)
🔧 IMPLEMENTATION: Simple, working code
⚠️ TRADEOFFS: What we're sacrificing for simplicity
📈 VALIDATION: How to verify it works

CRITICAL: Prefer boring solutions that work over clever solutions that might work.".

Definition extendedCursor : jsstring := Eval vm_compute in js "
## Cursor-Specific Code Generation Rules

When generating code in Cursor:
1. Always provide complete, runnable files
2. Include all imports at the top
3. Use TypeScript when possible for better IntelliSense
4. Add clear comments for complex logic

Example of Cursor-optimized response:
\`\`\`typescript
// Complete file: userService.ts
import { db } from './database';
import { User } from './types';

// Simple function - one responsibility
export async function getUser(id: string): Promise<User | null> {
  const result = await db.query('SELECT * FROM users WHERE id = $1', [id]);
  return result.rows[0] || null;
}
\`\`\`
".

Definition extendedClaude : jsstring := Eval vm_compute in js "
## Claude-Specific Interaction Rules

When working with Claude:
1. Break complex tasks into clear steps
2. Ask for clarification before making assumptions
3. Provide reasoning before code
4. Use markdown for better readability

Claude Response Pattern:
1. Understand the problem
2. Propose simple solution
3. Implement with clear code
4. Explain tradeoffs
".

Definition extendedCopilot : jsstring := Eval vm_compute in js "
## GitHub Copilot Optimization Rules

For better Copilot suggestions:
1. Write descriptive function names
2. Add clear comments before functions
3. Use consistent naming patterns
4. Start with test cases when possible

Example:
\`\`\`javascript
// Get user by email address from database
// Returns null if user not found
function getUserByEmail(email) {
  // Copilot will complete this better with clear intent
}
\`\`\`
".

Definition examplesReact : jsstring := Eval vm_compute in js "
## React-Specific Examples

HICKEY PRINCIPLE in React:
BAD: Component doing everything
\`\`\`jsx
function UserDashboard() {
  // Fetching, validation, display, state - all mixed
  const [user, setUser] = useState();
  useEffect(() => { /* fetch */ }, []);
  if (!user.email.includes('@')) { /* validation */ }
  return <div>...</div>;
}
\`\`\`

GOOD: Separated concerns
\`\`\`jsx
// Custom hook for data
function useUser(id) { /* fetching logic */ }

// Pure component for display
function UserDisplay({ user }) { /* only display */ }

// Composition
function UserDashboard() {
  const user = useUser(id);
  return <UserDisplay user={user} />;
}
\`\`\`
".

Definition examplesNode : jsstring := Eval vm_compute in js "
## Node.js-Specific Examples

LINUS PRINCIPLE in Node.js:
BAD: Overengineered API
\`\`\`javascript
class AbstractRepositoryFactory {
  createRepository(type) {
    return new RepositoryBuilder()
      .withType(type)
      .withCache()
      .withValidation()
      .build();
  }
}
\`\`\`

GOOD: Simple and direct
\`\`\`javascript
const users = require('./users.json');

function getUser(id) {
  return users.find(u => u.id === id);
}
\`\`\`
".


Record AdaptivePromptGenerator := {
  corePrompt : jsstring;
  extendedPrompts : gmap jsstring jsstring;
  examples : gmap jsstring jsstring;
  platformOptimizer : PlatformOptimizer
}.

Definition getCorePrompt : jsstring := corePromptText.

Definition loadExtendedPrompts : gmap jsstring jsstring :=
  <[ js "copilot" := extendedCopilot ]>
  (<[ js "claude" := extendedClaude ]>
  (<[ js "cursor" := extendedCursor ]> ∅)).

Definition loadExamples : gmap jsstring jsstring :=
  <[ js "node" := examplesNode ]> (<[ js "react" := examplesReact ]> ∅).

(** The constructor: [loadPrompts] and a new optimizer. *)
Definition new_AdaptivePromptGenerator : AdaptivePromptGenerator :=
  {| corePrompt := getCorePrompt;
     extendedPrompts := loadExtendedPrompts;
     examples := loadExamples;
     platformOptimizer := new_PlatformOptimizer |}.

(** [Math.ceil(text.length / 4)]. *)
Definition estimateTokens (text : jsstring) : Z :=
  Qceiling (num (strlen text) / 4).

(** [detectProjectType] reads [package.json] of the working directory;
    its content is an input here, [None] when the file cannot be read. *)
Definition detectProjectType (packageJson : option jsstring) : jsstring :=
  match packageJson with
  | Some text =>
    if includes text (js "react") then js "react"
    else if includes text (js "vue") then js "vue"
    else if includes text (js "angular") then js "angular"
    else if includes text (js "express") then js "node"
    else if includes text (js "fastify") then js "node"
    else js "node"
  | None => js "node"
  end.

Definition getExamplesList : list jsstring :=
  [js "Use simple functions over complex classes";
   js "Solve real problems, not imaginary ones";
   js "Provide working code with clear validation"].

(** [this.extendedPrompts.get(config.platform) ||
     this.extendedPrompts.get('cursor') || ''] *)
Definition extendedFragment (this : AdaptivePromptGenerator) (platform : jsstring)
  : jsstring :=
  or_else (extendedPrompts this !! platform)
    (or_else (extendedPrompts this !! js "cursor") []).

(** [this.examples.get(projectType) || ''] *)
Definition exampleFragment (this : AdaptivePromptGenerator) (projectType : jsstring)
  : jsstring :=
  or_else (examples this !! projectType) [].

(** The state of the local variables of [assembleAdaptivePrompt]. *)
Record Assembly := {
  finalPrompt : jsstring;
  applied : list jsstring;
  estimatedTokens : Z
}.

(** One [if (fragment && estimatedTokens + estimate < platformLimit * r)]
    block: append the fragment, push the label, add the estimate. *)
Definition include_if_fits (platformLimit : Z) (ratio : Q) (label fragment : jsstring)
    (a : Assembly) : Assembly :=
  if truthy fragment
     && num_lt (num (estimatedTokens a + estimateTokens fragment))
               (num platformLimit * ratio)
  then {| finalPrompt := finalPrompt a ++ js "\n\n" ++ fragment;
          applied := applied a ++ [label];
          estimatedTokens := (estimatedTokens a + estimateTokens fragment)%Z |}
  else a.

Definition assembleAdaptivePrompt (this : AdaptivePromptGenerator)
    (packageJson : option jsstring) (config : PromptGeneratorConfig)
  : OptimizationResult :=
  let platformLimit := getPlatformLimit (platformOptimizer this) (platform config) in
  let a := {| finalPrompt := corePrompt this;
              applied := [js "core"];
              estimatedTokens := estimateTokens (corePrompt this) |} in
  let extendedPrompt := extendedFragment this (platform config) in
  let a := include_if_fits platformLimit 0.7 (js "extended") extendedPrompt a in
  let projectType := detectProjectType packageJson in
  let examples := exampleFragment this projectType in
  let a := include_if_fits platformLimit 0.9 (js "examples") examples a in
  {| optimizedPrompt := finalPrompt a;
     warnings := [];
     appliedOptimizations := applied a |}.

Definition generate (this : AdaptivePromptGenerator)
    (packageJson : option jsstring) (config : PromptGeneratorConfig)
  : GeneratedPrompt :=
  let optimization := assembleAdaptivePrompt this packageJson config in
  {| systemPrompt := optimizedPrompt optimization;
     instructions := js "Apply ZeroCode principles to all code generation";
     examples_list := getExamplesList;
     prompt_platform := platform config |}.

(** [generatePrompt]: a fresh generator for every call. *)
Definition generatePrompt (packageJson : option jsstring)
    (config : PromptGeneratorConfig) : GeneratedPrompt :=
  generate new_AdaptivePromptGenerator packageJson config.

End Generator.

Import Optimizer Generator.

(** A request for a destination, with the defaults of the command line. *)
Definition request (destination : jsstring) : PromptGeneratorConfig :=
  {| platform := destination;
     complexity := js "basic";
     language := js "english";
     customRules := Some [] |}.

(* ===================================================================== *)
(** * The command-line parser ([simple-commander.ts]) *)
(* ===================================================================== *)

Module Commander.

(** ** More string operations *)

(** [String.prototype.split(',')]. *)
Fixpoint split_comma (s : jsstring) : list jsstring :=
  match s with
  | [] => [[]]
  | c :: t =>
    match split_comma t with
    | [] => [[c]]
    | l :: ls => if (c =? 44)%N then [] :: l :: ls else (c :: l) :: ls
    end
  end.

(** White space and line terminators, as [String.prototype.trim] strips
    them. *)
Definition is_white_space (c : N) : bool :=
  ((c =? 9) || (c =? 10) || (c =? 11) || (c =? 12) || (c =? 13) || (c =? 32)
   || (c =? 160) || (c =? 5760) || ((8192 <=? c) && (c <=? 8202))
   || (c =? 8232) || (c =? 8233) || (c =? 8239) || (c =? 8287)
   || (c =? 12288) || (c =? 65279))%N.

Fixpoint trimStart (s : jsstring) : jsstring :=
  match s with
  | c :: t => if is_white_space c then trimStart t else s
  | [] => []
  end.

Definition trim (s : jsstring) : jsstring := rev (trimStart (rev (trimStart s))).

(** [String.prototype.padEnd(n)]: spaces up to the length [n]. *)
Definition padEnd (s : jsstring) (n : nat) : jsstring :=
  s ++ repeat 32%N (n - length s).

(** [\w] *)
Definition is_word (c : N) : bool :=
  ((48 <=? c) && (c <=? 57) || (65 <=? c) && (c <=? 90)
   || (97 <=? c) && (c <=? 122) || (c =? 95))%N.

Fixpoint take_while (p : N -> bool) (s : jsstring) : jsstring :=
  match s with
  | c :: t => if p c then c :: take_while p t else []
  | [] => []
  end.

(** [.*] without the [s] flag: up to the next line terminator. *)
Definition dots (s : jsstring) : jsstring :=
  take_while (fun c => negb (is_line_terminator c)) s.

(** One match attempt of [/--(\w+).*/]. *)
Definition rx_long_flag : matcher :=
  fun s =>
    if startsWith s (js "--") then
      let word := take_while is_word (drop 2 s) in
      if truthy word
      then Some (js "--" ++ word ++ dots (drop (2 + length word) s), [Some word])
      else None
    else None.

(** One match attempt of [/-(\w).*/]. *)
Definition rx_short_flag : matcher :=
  fun s =>
    match s with
    | c :: d :: t =>
      if (c =? 45)%N && is_word d then Some (c :: d :: dots t, [Some [d]]) else None
    | _ => None
    end.

(** [str.replace(/re/, replacement)] without the [g] flag: the leftmost
    match is replaced by the expansion of [replacement]. *)
Fixpoint replace_first_from (rx : matcher) (template : jsstring)
    (consumed : jsstring) (s : jsstring) : jsstring :=
  match rx s with
  | Some (m, caps) =>
    getSubstitution m (rev consumed) (drop (length m) s) caps template
      ++ drop (length m) s
  | None =>
    match s with
    | [] => []
    | c :: t => c :: replace_first_from rx template (c :: consumed) t
    end
  end.

Definition replace_first (rx : matcher) (template s : jsstring) : jsstring :=
  replace_first_from rx template [] s.

(** ** Values and options *)

(** A default value is a boolean or a string; an option of the parsed
    command line is one of these or an array of strings. *)
Inductive scalar := SBool (b : bool) | SStr (s : jsstring).

Inductive value := VScalar (x : scalar) | VArr (items : list jsstring).

Definition truthy_scalar (x : scalar) : bool :=
  match x with SBool b => b | SStr s => truthy s end.

(** [`${x}`] *)
Definition scalar_text (x : scalar) : jsstring :=
  match x with
  | SBool true => js "true"
  | SBool false => js "false"
  | SStr s => s
  end.

Record CommandOption := {
  flags : jsstring;
  description : jsstring;
  defaultValue : option scalar
}.

(** ** Commands

    A command is an object; [command] returns the new sub-command, which
    the map of its parent holds as well, and the calls chained on it change
    that object.  The objects live in a heap, a reference is an index of
    it.  [A] is the type of the actions. *)

Definition ref := nat.

Record Command (A : Type) := {
  _name : jsstring;
  _description : jsstring;
  _version : jsstring;
  commands : list (jsstring * ref);
  options : list CommandOption;
  _action : option A
}.
Arguments _name {A} _.
Arguments _description {A} _.
Arguments _version {A} _.
Arguments commands {A} _.
Arguments options {A} _.
Arguments _action {A} _.

Definition heap (A : Type) := list (Command A).

(** [Map.prototype.set] and [get] on a map that keeps the order of
    insertion. *)
Fixpoint map_set {V} (k : jsstring) (v : V) (m : list (jsstring * V))
  : list (jsstring * V) :=
  match m with
  | [] => [(k, v)]
  | (k', v') :: m' =>
    if eqb k' k then (k', v) :: m' else (k', v') :: map_set k v m'
  end.

Fixpoint map_get {V} (k : jsstring) (m : list (jsstring * V)) : option V :=
  match m with
  | [] => None
  | (k', v') :: m' => if eqb k' k then Some v' else map_get k m'
  end.

Section Methods.

Context {A : Type}.

Definition new_Command : heap A -> ref * heap A :=
  fun h =>
    (length h,
     h ++ [{| _name := []; _description := []; _version := [];
              commands := []; options := []; _action := None |}]).

Definition Command_name (this : ref) (name : jsstring) (h : heap A)
  : ref * heap A :=
  (this,
   alter (fun c => {| _name := name; _description := _description c;
                      _version := _version c; commands := commands c;
                      options := options c; _action := _action c |}) this h).

Definition Command_description (this : ref) (desc : jsstring) (h : heap A)
  : ref * heap A :=
  (this,
   alter (fun c => {| _name := _name c; _description := desc;
                      _version := _version c; commands := commands c;
                      options := options c; _action := _action c |}) this h).

Definition Command_version (this : ref) (ver : jsstring) (h : heap A)
  : ref * heap A :=
  (this,
   alter (fun c => {| _name := _name c; _description := _description c;
                      _version := ver; commands := commands c;
                      options := options c; _action := _action c |}) this h).

Definition Command_command (this : ref) (name : jsstring) (h : heap A)
  : ref * heap A :=
  let '(cmd, h) := new_Command h in
  let '(_, h) := Command_name cmd name h in
  (cmd,
   alter (fun c => {| _name := _name c; _description := _description c;
                      _version := _version c;
                      commands := map_set name cmd (commands c);
                      options := options c; _action := _action c |}) this h).

Definition Command_option (this : ref) (flags description : jsstring)
    (defaultValue : option scalar) (h : heap A) : ref * heap A :=
  (this,
   alter (fun c => {| _name := _name c; _description := _description c;
                      _version := _version c; commands := commands c;
                      options := options c
                        ++ [{| flags := flags; description := description;
                               defaultValue := defaultValue |}];
                      _action := _action c |}) this h).

Definition Command_action (this : ref) (fn : A) (h : heap A) : ref * heap A :=
  (this,
   alter (fun c => {| _name := _name c; _description := _description c;
                      _version := _version c; commands := commands c;
                      options := options c; _action := Some fn |}) this h).

End Methods.

(** ** Reading the command line *)

(** [flags.split(',').find(f => f.includes('--'))], and so on. *)
Definition getOptionKey (flags : jsstring) : jsstring :=
  match List.find (fun f => includes f (js "--")) (split_comma flags) with
  | Some longFlag => replace_first rx_long_flag (js "$1") (trim longFlag)
  | None =>
    match List.find (fun f => includes f (js "-") && negb (includes f (js "--")))
            (split_comma flags) with
    | Some shortFlag => replace_first rx_short_flag (js "$1") (trim shortFlag)
    | None => trim flags
    end
  end.

(** ** The options object

    [options] starts as [{}] and is the map of its own properties.  Every
    object inherits the names of [Object.prototype]: for them
    [options[key]] is a function (an object for [__proto__]) and
    [key in options] holds without an own property. *)
Definition object_prototype_names : list jsstring :=
  [js "constructor"; js "__defineGetter__"; js "__defineSetter__";
   js "hasOwnProperty"; js "__lookupGetter__"; js "__lookupSetter__";
   js "isPrototypeOf"; js "propertyIsEnumerable"; js "toString"; js "valueOf";
   js "__proto__"; js "toLocaleString"].

Definition inherited (key : jsstring) : bool :=
  existsb (fun name => eqb name key) object_prototype_names.

(** [options[key] = v] for a boolean or a string: an own property, except
    that the setter of [__proto__] ignores a value that is not an object. *)
Definition set_prop (key : jsstring) (v : scalar) (opts : gmap jsstring value)
  : gmap jsstring value :=
  if eqb key (js "__proto__") then opts else <[key := VScalar v]> opts.

Section Parse.

Context {A : Type}.

Inductive event :=
| Log (text : jsstring)
| Call (fn : A) (options : gmap jsstring value).

(** What [parse] does: the lines it prints and the action it calls, a
    TypeError, or nothing that this model describes. *)
Inductive outcome :=
| Returns (events : list event)
| Throws
| OutOfModel.

Definition findOption (command : Command A) (flag : jsstring)
  : option CommandOption :=
  List.find
    (fun opt =>
       existsb
         (fun f =>
            if startsWith flag (js "--") then startsWith f flag
            else if startsWith flag (js "-") then startsWith f flag
            else false)
         (map trim (split_comma (flags opt))))
    (options command).

Definition description_of (h : heap A) (r : ref) : jsstring :=
  match h !! r with Some c => _description c | None => [] end.

Definition showHelp (h : heap A) (this : Command A) : list event :=
  [Log (_name this ++ js " - " ++ _description this);
   Log (js "Version: " ++ _version this ++ js "\n");
   Log (js "Usage:");
   Log (js "  " ++ _name this ++ js " <command> [options]\n")]
  ++ (if (0 <? length (commands this))%nat
      then [Log (js "Commands:")]
           ++ map (fun '(name, cmd) =>
                     Log (js "  " ++ padEnd name 12 ++ js " " ++ description_of h cmd))
                  (commands this)
           ++ [Log (js "")]
      else [])
  ++ [Log (js "Global Options:");
      Log (js "  -h, --help     Show help information");
      Log (js "  -v, --version  Show version number\n");
      Log (js "Examples:");
      Log (js "  " ++ _name this ++ js " generate                    # Generate with defaults");
      Log (js "  " ++ _name this ++ js " generate -p cursor          # Generate for Cursor");
      Log (js "  " ++ _name this ++ js " generate -i                 # Interactive mode");
      Log (js "  " ++ _name this ++ js " examples                    # Show more examples\n");
      Log (js "For more information on a command:");
      Log (js "  " ++ _name this ++ js " <command> --help")].

Definition showCommandHelp (this command : Command A) : list event :=
  [Log (_name this ++ js " " ++ _name command ++ js " - " ++ _description command
          ++ js "\n");
   Log (js "Usage:");
   Log (js "  " ++ _name this ++ js " " ++ _name command ++ js " [options]\n")]
  ++ (if (0 <? length (options command))%nat
      then [Log (js "Options:")]
           ++ map (fun opt =>
                     let defaultVal :=
                       match defaultValue opt with
                       | Some d =>
                         if truthy_scalar d
                         then js " (default: " ++ scalar_text d ++ js ")"
                         else []
                       | None => []
                       end in
                     Log (js "  " ++ padEnd (flags opt) 25 ++ js " " ++ description opt
                            ++ defaultVal))
                  (options command)
      else []).

(** [if (!options[key]) options[key] = []]; [None] when what follows,
    [options[key].push(...)], is not a function: [options[key]] is a
    truthy boolean or string, or inherited. *)
Definition start_array (key : jsstring) (opts : gmap jsstring value)
  : option (gmap jsstring value) :=
  match opts !! key with
  | None => if inherited key then None else Some (<[key := VArr []]> opts)
  | Some (VArr _) => Some opts
  | Some (VScalar x) =>
    if truthy_scalar x then None else Some (<[key := VArr []]> opts)
  end.

(** [options[key].push(item)] on the array. *)
Definition push (key item : jsstring) (opts : gmap jsstring value)
  : gmap jsstring value :=
  match opts !! key with
  | Some (VArr items) => <[key := VArr (items ++ [item])]> opts
  | _ => opts
  end.

Definition set_default (key : jsstring) (opt : CommandOption)
    (opts : gmap jsstring value) : gmap jsstring value :=
  match defaultValue opt with
  | Some d => set_prop key d opts
  | None => opts
  end.

Inductive parsed :=
| Parsed (opts : gmap jsstring value)
| UnknownOption (arg : jsstring)
| NotAFunction.

(** The [for] loop over [args[1..]]: [args] is what is left of the
    command line.  [collecting] holds the key of an array option while the
    inner [while] loop takes its values: the arguments up to the next one
    that starts with a dash. *)
Fixpoint parse_args (command : Command A) (opts : gmap jsstring value)
    (collecting : option jsstring) (args : list jsstring) : parsed :=
  match args with
  | [] => Parsed opts
  | arg :: rest =>
    match (if startsWith arg (js "-") then None else collecting) with
    | Some key => parse_args command (push key arg opts) collecting rest
    | None =>
      if startsWith arg (js "-") then
        if eqb arg (js "-h") || eqb arg (js "--help")
        then parse_args command opts None rest
        else
          match findOption command arg with
          | Some option_ =>
            let key := getOptionKey (flags option_) in
            if negb (includes (flags option_) (js "<"))
               && negb (includes (flags option_) (js "["))
            then parse_args command (set_prop key (SBool true) opts) None rest
            else
              match rest with
              | nextArg :: rest' =>
                if truthy nextArg && negb (startsWith nextArg (js "-")) then
                  if includes (flags option_) (js "...") then
                    match start_array key opts with
                    | Some opts =>
                      parse_args command (push key nextArg opts) (Some key) rest'
                    | None => NotAFunction
                    end
                  else
                    parse_args command (set_prop key (SStr nextArg) opts) None rest'
                else parse_args command (set_default key option_ opts) None rest
              | [] => Parsed (set_default key option_ opts)
              end
          | None => UnknownOption arg
          end
      else parse_args command opts None rest
    end
  end.

(** [command.options.forEach(opt => ...)]: the defaults of the options
    that the command line did not set. *)
Definition apply_defaults (command : Command A) (opts : gmap jsstring value)
  : gmap jsstring value :=
  fold_left
    (fun opts opt =>
       let key := getOptionKey (flags opt) in
       match opts !! key with
       | Some _ => opts
       | None => if inherited key then opts else set_default key opt opts
       end)
    (options command) opts.

Definition array_includes (args : list jsstring) (x : jsstring) : bool :=
  existsb (fun a => eqb a x) args.

(** [parse(argv)]: [args] is [argv], or [process.argv.slice(2)] when the
    call passes none. *)
Definition parse (h : heap A) (this : ref) (args : list jsstring) : outcome :=
  match h !! this with
  | None => OutOfModel
  | Some self =>
    match args with
    | [] => Returns (showHelp h self)
    | commandName :: rest =>
      if (array_includes args (js "-h") || array_includes args (js "--help"))
         && (length args =? 1)%nat
      then Returns (showHelp h self)
      else if array_includes args (js "-v") || array_includes args (js "--version")
      then Returns [Log (_version self)]
      else
        match map_get commandName (commands self) with
        | Some r =>
          match h !! r with
          | None => OutOfModel
          | Some command =>
            if array_includes rest (js "-h") || array_includes rest (js "--help")
            then Returns (showCommandHelp self command)
            else
              match parse_args command ∅ None rest with
              | Parsed opts =>
                let opts := apply_defaults command opts in
                Returns (match _action command with
                         | Some fn => [Call fn opts]
                         | None => []
                         end)
              | UnknownOption arg =>
                Returns (Log (js "Unknown option: " ++ arg)
                           :: showCommandHelp self command)
              | NotAFunction => Throws
              end
          end
        | None =>
          Returns [Log (js "❌ Unknown command: " ++ commandName);
                   Log (js "Run \x22ai-prompt --help\x22 for available commands.\n")]
        end
    end
  end.

End Parse.

End Commander.

(* ===================================================================== *)
(** * The command line ([cli.ts]) *)
(* ===================================================================== *)

Module Cli.

Import Commander.

(** The four closures that [cli.ts] passes to [action]. *)
Inductive action := generateAction | demoAction | activateAction | zinitAction.

(** The statements of [cli.ts] up to [program.parse()]: the heap they
    build and the reference of [program]. *)
Definition program : ref * heap action :=
  let '(program, h) := new_Command [] in
  let '(r, h) := Command_name program (js "zerocode") h in
  let '(r, h) := Command_description r (js "ZeroCode - AI development framework") h in
  let '(_, h) := Command_version r (js "1.0.1") h in
  let '(r, h) := Command_command program (js "generate") h in
  let '(r, h) := Command_description r (js "Generate AI prompt") h in
  let '(r, h) := Command_option r (js "-p, --platform <platform>") (js "AI platform")
                   (Some (SStr (js "universal"))) h in
  let '(r, h) := Command_option r (js "-c, --complexity <level>") (js "Complexity level")
                   (Some (SStr (js "basic"))) h in
  let '(r, h) := Command_option r (js "-l, --language <lang>") (js "Language")
                   (Some (SStr (js "english"))) h in
  let '(r, h) := Command_option r (js "-o, --output <file>") (js "Save to file") None h in
  let '(_, h) := Command_action r generateAction h in
  let '(r, h) := Command_command program (js "demo") h in
  let '(r, h) := Command_description r (js "👀 See the difference ZeroCode makes") h in
  let '(_, h) := Command_action r demoAction h in
  let '(r, h) := Command_command program (js "activate") h in
  let '(r, h) := Command_description r (js "🚀 Activate ZeroCode for this project") h in
  let '(_, h) := Command_action r activateAction h in
  let '(r, h) := Command_command program (js "zinit") h in
  let '(r, h) := Command_description r (js "🔍 Analyze project") h in
  let '(_, h) := Command_action r zinitAction h in
  (program, h).

(** What the actions do to the world. *)
Inductive effect :=
| console_log (text : jsstring)
| writeFileSync (path data : jsstring).

Definition string_of (v : option value) : option jsstring :=
  match v with
  | Some (VScalar (SStr s)) => Some s
  | _ => None
  end.

(** The action of [generate].  The three options that make the
    configuration are strings here; [options.output] is a string, or
    undefined. *)
Definition run_generate (packageJson : option jsstring)
    (options : gmap jsstring value) : option (list effect) :=
  platform ← string_of (options !! js "platform");
  complexity ← string_of (options !! js "complexity");
  language ← string_of (options !! js "language");
  let config := {| platform := platform; complexity := complexity;
                   language := language; customRules := Some [] |} in
  let result := generatePrompt packageJson config in
  match options !! js "output" with
  | None => Some [console_log (systemPrompt result)]
  | Some (VScalar (SStr output)) =>
    if truthy output
    then Some [writeFileSync output (systemPrompt result);
               console_log (js "✅ Saved to: " ++ output)]
    else Some [console_log (systemPrompt result)]
  | Some _ => None
  end.

(** [program.parse()] with the arguments of the process: the lines
    printed and the files written.  [None]: a TypeError, an action that is
    not modelled ([demo], [activate], [zinit]) or options outside the types
    above. *)
Definition main (packageJson : option jsstring) (argv : list jsstring)
  : option (list effect) :=
  match parse program.2 program.1 argv with
  | Returns events =>
    foldr
      (fun e acc =>
         acc ← acc;
         match e with
         | Log text => Some (console_log text :: acc)
         | Call generateAction options =>
           here ← run_generate packageJson options; Some (here ++ acc)
         | Call _ _ => None
         end)
      (Some []) events
  | _ => None
  end.

End Cli.

Import Commander Cli.

(* ===================================================================== *)
(** * Vocabulary of the properties *)
(* ===================================================================== *)

(** The inclusion check of a fragment at a cumulative cost, in integers:
    the fragment is not empty and
    [cost + estimate(fragment) < tenths/10 * ceiling]. *)
Definition fits (ceiling tenths cost : Z) (fragment : jsstring) : Prop :=
  fragment <> [] /\ (10 * (cost + estimateTokens fragment) < tenths * ceiling)%Z.

(** The same request for another destination. *)
Definition with_destination (config : PromptGeneratorConfig)
    (destination : jsstring) : PromptGeneratorConfig :=
  {| platform := destination;
     complexity := complexity config;
     language := language config;
     customRules := customRules config |}.

(** A destination is known when the profile table has an entry for it. *)
Definition known_destination (this : PlatformOptimizer) (destination : jsstring)
  : Prop :=
  is_Some (platformLimits this !! destination).

(** Some warning contains the word [truncated]. *)
Definition word_truncated : jsstring := Eval vm_compute in js "truncated".

Definition mentions_truncated (ws : list jsstring) : Prop :=
  exists w, In w ws /\ includes w word_truncated = true.

(** The document of the ollama procedure after its character pass. *)
Definition after_character_pass (ceiling : Z) (doc : jsstring) : jsstring :=
  if (strlen doc >? ceiling)%Z then truncatePrompt doc ceiling else doc.

Definition lineCount (doc : jsstring) : Z := Z.of_nat (length (split_nl doc)).

(** The document of [optimize] before the truncation step of the
    procedure that the request selects. *)
Definition transformed (this : PlatformOptimizer) (prompt : jsstring)
    (config : PromptGeneratorConfig) : jsstring :=
  if eqb (platform config) (js "cursor") then cursorTransform prompt
  else if eqb (platform config) (js "claude") then claudeTransform prompt
  else if eqb (platform config) (js "ollama") then
    match platformLimits this !! js "ollama" with
    | Some limits => ollamaTransform limits prompt
    | None => prompt
    end
  else universalTransform prompt.

(** Two results have the same steps, the same warnings and the same
    document. *)
Definition same_result (a b : OptimizationResult) : Prop :=
  appliedOptimizations a = appliedOptimizations b
  /\ warnings a = warnings b
  /\ optimizedPrompt a = optimizedPrompt b.

(** Inputs of the examples below. *)

(** Eleven letters, for a ceiling of ten. *)
Definition eleven_letters : jsstring := repeat 97%N 11.

(** 290 line feeds and 37 letters: after the prefix of the ollama procedure
    the document has 301 lines, and what follows line 298 is as long as the
    truncation lines. *)
Definition many_short_lines : jsstring := repeat 10%N 290 ++ repeat 97%N 37.

(** A header whose title is two dollar signs. *)
Definition dollar_title : jsstring := js "# $$\n\nx\n\n".

(** A document of 20001 letters. *)
Definition long_letters : jsstring := repeat 97%N (Z.to_nat 20001).

(** A generator whose library holds a core fragment of 10001 letters and
    nothing else. *)
Definition oversized_library : AdaptivePromptGenerator :=
  {| corePrompt := repeat 97%N (Z.to_nat 10001);
     extendedPrompts := ∅;
     examples := ∅;
     platformOptimizer := new_PlatformOptimizer |}.

(** A generator with one profile, [target], of the given ceiling, an
    extended fragment stored for the default destination and an examples
    fragment for the category [node]. *)
Definition scenario_library (ceiling : Z) (core extended examples_ : jsstring)
  : AdaptivePromptGenerator :=
  {| corePrompt := core;
     extendedPrompts := {[ js "cursor" := extended ]};
     examples := {[ js "node" := examples_ ]};
     platformOptimizer :=
       {| platformLimits :=
            {[ js "target" :=
                 {| maxCharacters := Some ceiling; maxLines := None;
                    preferredFormat := markdown; supportsEmojis := true;
                    requiresSpecialFormatting := None |} ]} |} |}.

(** Scenario A: ceiling 100, estimates 20, 10 and 50. *)
Definition scenario_A : AdaptivePromptGenerator :=
  scenario_library 100 (repeat 97%N 80) (repeat 98%N 40) (repeat 99%N 200).

(** Scenario B: ceiling 50, estimates 40, 20 and 50. *)
Definition scenario_B : AdaptivePromptGenerator :=
  scenario_library 50 (repeat 97%N 160) (repeat 98%N 80) (repeat 99%N 200).

(** The pipeline of the overview: the assembly, rewritten and truncated by
    the platform optimizer. *)
Definition assemble_then_optimize (this : AdaptivePromptGenerator)
    (packageJson : option jsstring) (config : PromptGeneratorConfig)
  : option OptimizationResult :=
  optimize (platformOptimizer this)
    (optimizedPrompt (assembleAdaptivePrompt this packageJson config)) config.

(** The four rewrites of [simplifyStructure], in the order of the source. *)
Definition demote3 : jsstring -> jsstring :=
  replace_all (rx_lit (js "### ")) (js "## ").
Definition demote4 : jsstring -> jsstring :=
  replace_all (rx_lit (js "#### ")) (js "### ").
Definition unbold : jsstring -> jsstring := replace_all rx_bold (js "$1:").
Definition uncheck : jsstring -> jsstring :=
  replace_all (rx_lit (js "- [ ]")) (js "-").

(** A text without asterisk. *)
Definition star_free (x : jsstring) : Prop := Forall (fun c => c <> star) x.



(** The text ends a line: what follows it starts a line. *)
Definition line_start (x : jsstring) : Prop :=
  x = [] \/ exists x0, x = x0 ++ [10%N].

(** The number of line feeds of a text, which is the number of the line
    that starts after it. *)
Definition newlines (x : jsstring) : nat :=
  length (filter (fun c => c = 10%N) x).

(** No occurrence of the pattern lies across the end of [x] when [y]
    follows. *)
Definition no_straddle (pat x y : jsstring) : Prop :=
  forall k, 0 < k < length pat ->
    startsWith (rev x) (rev (take k pat)) && startsWith y (drop k pat) = false.

(** ** Lines, headers and plain texts *)

(** The last line of a document cut by lines. *)
Definition marker_line : jsstring :=
  Eval vm_compute in js "[Truncated for platform compatibility]".

(** A document of 291 lines that has 8000 code units with the ollama
    preamble: a long line of letters and 290 empty lines. *)
Definition tight_lines : jsstring :=
  repeat 97%N (Z.to_nat (8000 - strlen ollamaPrefix - 290)) ++ repeat 10%N 290.

(** The length of the core header ([coreHeaderMatch]), 0 without one. *)
Definition core_header (prompt : jsstring) : Z :=
  match core_header_length prompt with Some n => Z.of_nat n | None => 0%Z end.

(** The header of a prompt: the match of [/^(# .*?\n\n.*?\n\n)/s], empty
    without one. *)
Definition header_of (prompt : jsstring) : jsstring :=
  default [] (header_match prompt).

(** No dollar sign: nothing that [GetSubstitution] expands. *)
Definition dollar_free (s : jsstring) : Prop := Forall (fun c => c <> 36%N) s.

(** The heading that [enhanceCodeSections] looks for. *)
Definition guidelines_heading : jsstring :=
  Eval vm_compute in js "## Implementation Guidelines".

(** The block that [enhanceCodeSections] puts before the heading. *)
Definition cursor_block : jsstring :=
  Eval vm_compute in js "## Code Implementation Guidelines\n\n**For Cursor IDE users:**\n- Always provide complete, runnable code\n- Include proper TypeScript types\n- Suggest file organization\n- Consider IDE integration\n\n".

(** A text of ASCII code units. *)
Definition ascii_text (s : jsstring) : Prop := Forall (fun c => (c < 128)%N) s.

(** No [#], no [*] and no [[]: nothing that a rewrite of
    [simplifyStructure] can match. *)
Definition markup_free (s : jsstring) : Prop :=
  Forall (fun c => c <> 35%N /\ c <> star /\ c <> 91%N) s.

(** The key of the profile that the procedure selected by [optimize]
    reads. *)
Definition procedure_key (destination : jsstring) : jsstring :=
  if eqb destination (js "cursor") then js "cursor"
  else if eqb destination (js "claude") then js "claude"
  else if eqb destination (js "ollama") then js "ollama"
  else js "universal".

(** Lower case of an ASCII code unit. *)
Definition ascii_lower (c : N) : N :=
  if (65 <=? c)%N && (c <=? 90)%N then (c + 32)%N else c.

(** What is used of the host's [toLowerCase]: on ASCII text it maps
    [A]-[Z] to [a]-[z] and nothing else. *)
Definition lowers_ascii (toLowerCase : jsstring -> jsstring) : Prop :=
  forall s, ascii_text s -> toLowerCase s = map ascii_lower s.

(** ** The command line *)

(** The flags of an option as [findOption] compares them. *)
Definition flag_parts (opt : CommandOption) : list jsstring :=
  map trim (split_comma (flags opt)).

(** An option that takes one value: [<] or [[] but no [...] in its
    flags. *)
Definition takes_value (opt : CommandOption) : bool :=
  (includes (flags opt) (js "<") || includes (flags opt) (js "["))
  && negb (includes (flags opt) (js "...")).

(** An argument that is taken as the value of an option. *)
Definition is_value (x : jsstring) : bool :=
  truthy x && negb (startsWith x (js "-")).

(** The assignment that a flag and its value make. *)
Definition assign {A} (command : Command A) (opts : gmap jsstring value)
    (pair : jsstring * jsstring) : gmap jsstring value :=
  match findOption command pair.1 with
  | Some opt => set_prop (getOptionKey (flags opt)) (SStr pair.2) opts
  | None => opts
  end.

(** A flag and value pair: the flag is not a help flag and selects an
    option with one value, and the value is not empty and has no leading
    dash. *)
Definition assignable {A} (command : Command A) (pair : jsstring * jsstring) : Prop :=
  pair.1 <> js "-h" /\ pair.1 <> js "--help"
  /\ (exists opt, findOption command pair.1 = Some opt /\ takes_value opt = true)
  /\ is_value pair.2 = true.

(** The default of a key: none for an inherited name, otherwise that of
    the first option with this key that declares one. *)
Definition default_for {A} (command : Command A) (key : jsstring) : option scalar :=
  if inherited key then None
  else head (omap (fun opt =>
                     if eqb (getOptionKey (flags opt)) key then defaultValue opt
                     else None)
                  (options command)).

(** An empty command. *)
Definition no_command : Command action :=
  {| _name := []; _description := []; _version := [];
     commands := []; options := []; _action := None |}.

(** The root command of [cli.ts], as the heap holds it. *)
Definition zerocode_command : Command action :=
  Eval vm_compute in default no_command (program.2 !! program.1).

(** The command [generate] of [cli.ts], as the heap holds it. *)
Definition generate_command : Command action :=
  Eval vm_compute in default no_command (program.2 !! (1 : ref)).

(** No comma. *)
Definition comma_free (s : jsstring) : Prop := Forall (fun c => c <> 44%N) s.

(** What follows the long name in the flags of an option: nothing, or a
    text on the same line that starts with a code unit outside [\w] and
    does not end with white space. *)
Definition flag_hint (rest : jsstring) : Prop :=
  rest = []
  \/ (exists c t, rest = c :: t /\ is_word c = false)
     /\ (exists t c, rest = t ++ [c] /\ is_white_space c = false)
     /\ Forall (fun c => is_line_terminator c = false) rest.

(** The end of the arguments or an argument with a leading dash. *)
Definition next_is_flag (rest : list jsstring) : Prop :=
  rest = [] \/ exists arg rest', rest = arg :: rest' /\ startsWith arg (js "-") = true.

(** A command with a variadic option and a switch. *)
Definition rules_command : Command action :=
  {| _name := js "lint"; _description := []; _version := [];
     commands := [];
     options := [{| flags := js "-r, --rules <rules...>";
                    description := js "Custom rules"; defaultValue := None |};
                 {| flags := js "-q, --quiet"; description := js "No output";
                    defaultValue := None |}];
     _action := None |}.

(* ===================================================================== *)
(** * Properties *)
(* ===================================================================== *)

(** ** Literals and numbers *)

Example js_escape : js "a\n\x22\`" = [97; 10; 34; 96]%N.
Proof. reflexivity. Qed.

Example js_utf16 : js "→🎯" = [8594; 55356; 57263]%N.
Proof. reflexivity. Qed.

Lemma num_lt_spec (k n a : Z) (b : positive) :
  num_lt (num k) (num n * (a # b)) = true <-> (k * Z.pos b < n * a)%Z.
Proof.
  unfold num_lt, num. rewrite negb_true_iff.
  rewrite <- not_true_iff_false, Qle_bool_iff.
  unfold Qle, Qmult, inject_Z; simpl. lia.
Qed.

Lemma num_gt_spec (k n a : Z) (b : positive) :
  num_gt (num k) (num n * (a # b)) = true <-> (n * a < k * Z.pos b)%Z.
Proof.
  unfold num_gt, num_lt, num. rewrite negb_true_iff.
  rewrite <- not_true_iff_false, Qle_bool_iff.
  unfold Qle, Qmult, inject_Z; simpl. lia.
Qed.

(** The estimate is the length divided by four, rounded up. *)
Lemma estimateTokens_spec (text : jsstring) :
  estimateTokens text = ((strlen text + 3) / 4)%Z.
Proof.
  unfold estimateTokens, num, Qceiling, Qfloor, Qdiv, Qopp, Qmult, Qinv, inject_Z.
  simpl. rewrite ?Z.mul_1_r. change (Z.pos (1 * 4)) with 4%Z.
  set (n := strlen text).
  pose proof (Z.div_mod (- n) 4 ltac:(lia)).
  pose proof (Z.mod_pos_bound (- n) 4 ltac:(lia)).
  pose proof (Z.div_mod (n + 3) 4 ltac:(lia)).
  pose proof (Z.mod_pos_bound (n + 3) 4 ltac:(lia)).
  lia.
Qed.

Lemma truthy_spec (s : jsstring) : truthy s = true <-> s <> [].
Proof. destruct s; simpl; split; congruence. Qed.

(** ** Lengths *)

Lemma strlen_app (a b : jsstring) : strlen (a ++ b) = (strlen a + strlen b)%Z.
Proof. unfold strlen. rewrite length_app. lia. Qed.

Lemma strlen_nonneg (s : jsstring) : (0 <= strlen s)%Z.
Proof. unfold strlen. lia. Qed.

Lemma substring_length_src (s : jsstring) (a b : Z) :
  (strlen (substring s a b) <= strlen s)%Z.
Proof. unfold strlen, substring, clamp. rewrite length_take, length_drop. lia. Qed.

Lemma substring_length_span (s : jsstring) (a d : Z) :
  (0 <= a)%Z -> (0 <= d)%Z -> (strlen (substring s a (a + d)) <= d)%Z.
Proof.
  intros. unfold strlen, substring, clamp. rewrite length_take, length_drop. lia.
Qed.

Lemma substring_length_prefix (s : jsstring) (b : Z) :
  (0 <= b)%Z -> (strlen (substring s 0 b) <= b)%Z.
Proof. intros. apply (substring_length_span s 0 b); lia. Qed.

(** ** The assembler *)

Section Assembler.

Variable this : AdaptivePromptGenerator.
Variable packageJson : option jsstring.
Variable config : PromptGeneratorConfig.

Let C := getPlatformLimit (platformOptimizer this) (platform config).
Let core := corePrompt this.
Let extended := extendedFragment this (platform config).
Let examples_ := exampleFragment this (detectProjectType packageJson).
Let result := assembleAdaptivePrompt this packageJson config.

Lemma include_if_fits_yes limit tenths label fragment a :
  fits limit tenths (estimatedTokens a) fragment ->
  include_if_fits limit (tenths # 10) label fragment a =
  {| finalPrompt := finalPrompt a ++ js "\n\n" ++ fragment;
     applied := applied a ++ [label];
     estimatedTokens := (estimatedTokens a + estimateTokens fragment)%Z |}.
Proof.
  intros [Hne Hlt]. unfold include_if_fits.
  apply truthy_spec in Hne. rewrite Hne. simpl.
  assert (num_lt (num (estimatedTokens a + estimateTokens fragment))
            (num limit * (tenths # 10)) = true) as ->; [|reflexivity].
  apply num_lt_spec. lia.
Qed.

Lemma include_if_fits_no limit tenths label fragment a :
  ~ fits limit tenths (estimatedTokens a) fragment ->
  include_if_fits limit (tenths # 10) label fragment a = a.
Proof.
  intros Hno. unfold include_if_fits.
  destruct (truthy fragment) eqn:Ht; [|reflexivity]. simpl.
  destruct (num_lt _ _) eqn:Hlt; [|reflexivity].
  exfalso. apply Hno. split; [by apply truthy_spec|].
  apply num_lt_spec in Hlt. lia.
Qed.

Lemma fits_dec limit tenths cost fragment :
  fits limit tenths cost fragment \/ ~ fits limit tenths cost fragment.
Proof.
  unfold fits. destruct fragment as [|c t].
  - right. intros [H _]. congruence.
  - destruct (Z_lt_dec (10 * (cost + estimateTokens (c :: t))) (tenths * limit)).
    + left. split; [congruence | assumption].
    + right. intros [_ H]. contradiction.
Qed.

(** The four outcomes of an assembly. *)
Lemma assemble_cases :
  let c0 := estimateTokens core in
  let c1 := (c0 + estimateTokens extended)%Z in
  (fits C 7 c0 extended /\ fits C 9 c1 examples_ /\
   result = {| optimizedPrompt := core ++ js "\n\n" ++ extended ++ js "\n\n" ++ examples_;
               warnings := [];
               appliedOptimizations := [js "core"; js "extended"; js "examples"] |})
  \/ (fits C 7 c0 extended /\ ~ fits C 9 c1 examples_ /\
   result = {| optimizedPrompt := core ++ js "\n\n" ++ extended;
               warnings := [];
               appliedOptimizations := [js "core"; js "extended"] |})
  \/ (~ fits C 7 c0 extended /\ fits C 9 c0 examples_ /\
   result = {| optimizedPrompt := core ++ js "\n\n" ++ examples_;
               warnings := [];
               appliedOptimizations := [js "core"; js "examples"] |})
  \/ (~ fits C 7 c0 extended /\ ~ fits C 9 c0 examples_ /\
   result = {| optimizedPrompt := core;
               warnings := [];
               appliedOptimizations := [js "core"] |}).
Proof.
  intros c0 c1. subst result. unfold assembleAdaptivePrompt.
  fold C core extended examples_.
  change (0.7)%Q with (7 # 10). change (0.9)%Q with (9 # 10).
  set (a0 := {| finalPrompt := core; applied := [js "core"];
                estimatedTokens := estimateTokens core |}).
  destruct (fits_dec C 7 c0 extended) as [He | He].
  - rewrite (include_if_fits_yes C 7 (js "extended") extended a0 He).
    set (a1 := Build_Assembly _ _ _).
    destruct (fits_dec C 9 c1 examples_) as [Hx | Hx].
    + left. rewrite (include_if_fits_yes C 9 (js "examples") examples_ a1 Hx).
      simpl. rewrite <- !app_assoc. auto.
    + right; left.
      rewrite (include_if_fits_no C 9 (js "examples") examples_ a1 Hx). auto.
  - rewrite (include_if_fits_no C 7 (js "extended") extended a0 He).
    destruct (fits_dec C 9 c0 examples_) as [Hx | Hx].
    + right; right; left.
      rewrite (include_if_fits_yes C 9 (js "examples") examples_ a0 Hx). auto.
    + right; right; right.
      rewrite (include_if_fits_no C 9 (js "examples") examples_ a0 Hx). auto.
Qed.

End Assembler.

Ltac label_clash :=
  match goal with
  | H : In _ _ |- _ =>
    vm_compute in H;
    repeat (destruct H as [H | H]; [discriminate H |]); destruct H
  end.

(** C3.  The inclusion algorithm of the assembler.  With [C] the ceiling of
    the request's destination and the estimate [ceil(length / 4)]: the
    assembly starts from the core fragment with the steps [core]; the
    extended fragment is appended after a blank-line separator, and
    [extended] is pushed, exactly when it is not empty and
    [estimate(core) + estimate(extended) < 0.7 C]; then the examples
    fragment is appended, and [examples] is pushed, exactly when it is not
    empty and the cumulative cost so far plus its estimate is below
    [0.9 C].  The cost of the second check contains the extended fragment
    exactly when that one was included, and a fragment that failed its
    check is absent from the result. *)
Theorem assembler_inclusion_algorithm
    (this : AdaptivePromptGenerator) (packageJson : option jsstring)
    (config : PromptGeneratorConfig) :
  let C := getPlatformLimit (platformOptimizer this) (platform config) in
  let core := corePrompt this in
  let extended := extendedFragment this (platform config) in
  let examples_ := exampleFragment this (detectProjectType packageJson) in
  let result := assembleAdaptivePrompt this packageJson config in
  let c0 := estimateTokens core in
  let c1 := (c0 + estimateTokens extended)%Z in
  (forall text, estimateTokens text = ((strlen text + 3) / 4)%Z)
  /\ (In (js "extended") (appliedOptimizations result) <-> fits C 7 c0 extended)
  /\ (fits C 7 c0 extended ->
      (In (js "examples") (appliedOptimizations result) <-> fits C 9 c1 examples_))
  /\ (~ fits C 7 c0 extended ->
      (In (js "examples") (appliedOptimizations result) <-> fits C 9 c0 examples_))
  /\ (fits C 7 c0 extended -> fits C 9 c1 examples_ ->
      optimizedPrompt result = core ++ js "\n\n" ++ extended ++ js "\n\n" ++ examples_
      /\ appliedOptimizations result = [js "core"; js "extended"; js "examples"])
  /\ (fits C 7 c0 extended -> ~ fits C 9 c1 examples_ ->
      optimizedPrompt result = core ++ js "\n\n" ++ extended
      /\ appliedOptimizations result = [js "core"; js "extended"])
  /\ (~ fits C 7 c0 extended -> fits C 9 c0 examples_ ->
      optimizedPrompt result = core ++ js "\n\n" ++ examples_
      /\ appliedOptimizations result = [js "core"; js "examples"])
  /\ (~ fits C 7 c0 extended -> ~ fits C 9 c0 examples_ ->
      optimizedPrompt result = core
      /\ appliedOptimizations result = [js "core"]).
Proof.
  intros C core extended examples_ result c0 c1.
  split; [exact estimateTokens_spec |].
  destruct (assemble_cases this packageJson config)
    as [(He & Hx & R) | [(He & Hx & R) | [(He & Hx & R) | (He & Hx & R)]]];
    fold C core extended examples_ c0 c1 result in He, Hx, R; rewrite R;
    cbn [optimizedPrompt appliedOptimizations];
    repeat (intros;
            match goal with
            | |- _ /\ _ => split
            | |- _ <-> _ => split
            end);
    intros; try tauto; try label_clash; simpl; auto 10.
Qed.

(** Scenario A: 20 + 10 = 30 is below 70 and 30 + 50 = 80 is below 90, so
    all three steps are applied. *)
Lemma assembler_inclusion_witness :
  appliedOptimizations
    (assembleAdaptivePrompt scenario_A None (request (js "target")))
  = [js "core"; js "extended"; js "examples"].
Proof.
  pose proof (assembler_inclusion_algorithm scenario_A None (request (js "target")))
    as H.
  cbv zeta in H. destruct H as (_ & _ & _ & _ & H & _).
  refine (proj2 (H _ _)).
  - split; [vm_compute; discriminate | vm_compute; reflexivity].
  - split; [vm_compute; discriminate | vm_compute; reflexivity].
Defined.

(** Scenario B: 40 + 20 = 60 is not below 35, and 40 + 50 is not below 45:
    the core fragment is all there is. *)
Example scenario_B_steps :
  appliedOptimizations
    (assembleAdaptivePrompt scenario_B None (request (js "target")))
  = [js "core"].
Proof. vm_compute. reflexivity. Qed.

(** C6.  Core inclusion.  The first applied step is [core]; the assembled
    document contains the text of the core fragment; [extended] is among
    the steps only if the extended fragment passed its check, and
    [examples] only if the examples fragment passed its check at the cost
    accumulated so far. *)
Theorem core_first_labels_justified
    (this : AdaptivePromptGenerator) (packageJson : option jsstring)
    (config : PromptGeneratorConfig) :
  let C := getPlatformLimit (platformOptimizer this) (platform config) in
  let extended := extendedFragment this (platform config) in
  let examples_ := exampleFragment this (detectProjectType packageJson) in
  let result := assembleAdaptivePrompt this packageJson config in
  let steps := appliedOptimizations result in
  let c0 := estimateTokens (corePrompt this) in
  let c1 := (c0 + estimateTokens extended)%Z in
  head steps = Some (js "core")
  /\ (exists before after,
        optimizedPrompt result = before ++ corePrompt this ++ after)
  /\ (In (js "extended") steps -> fits C 7 c0 extended)
  /\ (In (js "examples") steps ->
        (In (js "extended") steps /\ fits C 9 c1 examples_)
        \/ (~ In (js "extended") steps /\ fits C 9 c0 examples_)).
Proof.
  intros C extended examples_ result steps c0 c1. subst steps.
  destruct (assemble_cases this packageJson config)
    as [(He & Hx & R) | [(He & Hx & R) | [(He & Hx & R) | (He & Hx & R)]]];
    fold C extended examples_ c0 c1 result in He, Hx, R; rewrite R;
    cbn [optimizedPrompt appliedOptimizations];
    (split; [reflexivity |]);
    (split; [exists []; eexists; cbn [app]; try reflexivity;
             symmetry; apply app_nil_r |]);
    (split; [intros; try assumption; label_clash |]);
    intros Hin.
  - left. split; [simpl; auto | assumption].
  - label_clash.
  - right. split; [intros H; clear Hin; label_clash | assumption].
  - label_clash.
Qed.

(** In scenario A the step [extended] is applied, so its check held. *)
Lemma core_first_labels_justified_witness :
  fits (getPlatformLimit (platformOptimizer scenario_A) (js "target")) 7
    (estimateTokens (corePrompt scenario_A))
    (extendedFragment scenario_A (js "target")).
Proof.
  pose proof (core_first_labels_justified scenario_A None (request (js "target")))
    as H.
  cbv zeta in H. destruct H as (_ & _ & H & _).
  apply H. vm_compute. right. left. reflexivity.
Defined.

(** C4.  The document returned by [generate] is the assembly itself: the
    core fragment, then possibly a blank line and the extended fragment,
    then possibly a blank line and the examples fragment, with the steps
    that name exactly the parts present.  Nothing of the platform optimizer
    is applied to it, and the warnings of the assembly are empty. *)
Theorem generate_returns_assembly
    (this : AdaptivePromptGenerator) (packageJson : option jsstring)
    (config : PromptGeneratorConfig) :
  let core := corePrompt this in
  let extended := extendedFragment this (platform config) in
  let examples_ := exampleFragment this (detectProjectType packageJson) in
  let result := assembleAdaptivePrompt this packageJson config in
  systemPrompt (generate this packageJson config) = optimizedPrompt result
  /\ warnings result = []
  /\ exists with_extended with_examples : bool,
       systemPrompt (generate this packageJson config) =
         core ++ (if with_extended then js "\n\n" ++ extended else [])
              ++ (if with_examples then js "\n\n" ++ examples_ else [])
       /\ appliedOptimizations result =
         [js "core"] ++ (if with_extended then [js "extended"] else [])
                     ++ (if with_examples then [js "examples"] else []).
Proof.
  intros core extended examples_ result.
  split; [reflexivity |]. split; [reflexivity |].
  change (systemPrompt (generate this packageJson config))
    with (optimizedPrompt result).
  destruct (assemble_cases this packageJson config)
    as [(_ & _ & R) | [(_ & _ & R) | [(_ & _ & R) | (_ & _ & R)]]];
    fold core extended examples_ result in R; rewrite R; cbn [optimizedPrompt appliedOptimizations].
  - exists true, true. split; [|reflexivity]. by rewrite <- !app_assoc.
  - exists true, false. split; [|reflexivity]. by rewrite app_nil_r.
  - exists false, true. split; reflexivity.
  - exists false, false. split; [|reflexivity]. by rewrite !app_nil_r.
Qed.

(** C8.  Fragment resolution never fails.  The extended fragment of a
    destination is the text stored under its key; when nothing (or the
    empty text) is stored there it is the text stored for [cursor], the
    default destination, and when that is missing too it is the empty
    text.  The examples fragment of a category is the text stored under its
    key and the empty text otherwise, with no other fallback.  Both lookups
    are total functions: absence is the empty text, never an error. *)
Theorem fragment_resolution
    (this : AdaptivePromptGenerator) (destination category : jsstring) :
  let absent (o : option jsstring) := o = None \/ o = Some [] in
  (forall f, extendedPrompts this !! destination = Some f -> f <> [] ->
     extendedFragment this destination = f)
  /\ (forall f, absent (extendedPrompts this !! destination) ->
        extendedPrompts this !! js "cursor" = Some f -> f <> [] ->
        extendedFragment this destination = f)
  /\ (absent (extendedPrompts this !! destination) ->
      absent (extendedPrompts this !! js "cursor") ->
      extendedFragment this destination = [])
  /\ (forall f, examples this !! category = Some f ->
        exampleFragment this category = f)
  /\ (examples this !! category = None -> exampleFragment this category = []).
Proof.
  intros absent. unfold extendedFragment, exampleFragment, or_else.
  repeat split.
  - intros f -> Hf. destruct f; [congruence | reflexivity].
  - intros f [-> | ->] -> Hf; destruct f; simpl; congruence.
  - intros [-> | ->] [-> | ->]; reflexivity.
  - intros f ->. destruct f; reflexivity.
  - intros ->. reflexivity.
Qed.

(** The built-in library: [copilot] has a fragment of its own, [windsurf]
    falls back to the fragment of [cursor], and the category [vue] has no
    examples. *)
Lemma fragment_resolution_witness :
  extendedFragment new_AdaptivePromptGenerator (js "copilot") = extendedCopilot
  /\ extendedFragment new_AdaptivePromptGenerator (js "windsurf") = extendedCursor
  /\ exampleFragment new_AdaptivePromptGenerator (js "vue") = [].
Proof.
  pose proof (fragment_resolution new_AdaptivePromptGenerator (js "copilot") (js "vue"))
    as H1.
  pose proof (fragment_resolution new_AdaptivePromptGenerator (js "windsurf") (js "vue"))
    as H2.
  cbv zeta in H1, H2.
  destruct H1 as (Hown & _ & _ & _ & Hnone). destruct H2 as (_ & Hfall & _).
  split; [| split].
  - apply Hown; [vm_compute; reflexivity | vm_compute; discriminate].
  - apply Hfall;
      [left; vm_compute; reflexivity | vm_compute; reflexivity
       | vm_compute; discriminate].
  - apply Hnone. vm_compute. reflexivity.
Defined.

(** ** The truncator *)

Example truncationMessage_length : strlen truncationMessage = 40%Z.
Proof. reflexivity. Qed.

(** Whatever the ceiling, the result of [truncatePrompt] is its argument or
    ends with the truncation marker. *)
Lemma truncatePrompt_shape (prompt : jsstring) (maxChars : Z) :
  truncatePrompt prompt maxChars = prompt
  \/ exists body, truncatePrompt prompt maxChars = body ++ truncationMessage
                  \/ exists footer,
                       truncatePrompt prompt maxChars
                       = body ++ truncationMessage ++ footer.
Proof.
  unfold truncatePrompt.
  destruct (strlen prompt <=? maxChars)%Z; [by left | right].
  destruct (num_lt _ _).
  - destruct (num_gt _ _); eexists; left; reflexivity.
  - destruct (_ >? 0)%Z.
    + eexists. right. eexists. rewrite app_assoc. reflexivity.
    + eexists. left. reflexivity.
Qed.

(** The arithmetic of the three branches: each result is a prefix of at most
    [maxChars - 40 - footer] code units, the marker and the footer. *)
Lemma truncatePrompt_bound (prompt : jsstring) (maxChars : Z) :
  (strlen truncationMessage <= maxChars)%Z ->
  (strlen prompt > maxChars)%Z ->
  (strlen (truncatePrompt prompt maxChars) <= maxChars)%Z.
Proof.
  intros Hmsg Hlong. unfold truncatePrompt.
  destruct (Z.leb_spec (strlen prompt) maxChars) as [Hle | _]; [lia |].
  set (footerLength :=
         match footer_match prompt with Some f => strlen f | None => 0%Z end).
  set (footer := match footer_match prompt with Some f => f | None => [] end).
  assert (Hfooter : strlen footer = footerLength).
  { unfold footer, footerLength. destruct (footer_match prompt); reflexivity. }
  set (headerLength :=
         match core_header_length prompt with
         | Some n => Z.of_nat n | None => 0%Z end).
  assert (Hheader : (0 <= headerLength)%Z).
  { unfold headerLength. destruct (core_header_length prompt); lia. }
  set (simple := (maxChars - strlen truncationMessage)%Z).
  destruct (num_lt _ _).
  - (* the footer leaves too little room: simple truncation *)
    pose proof (substring_length_prefix prompt simple ltac:(lia)).
    destruct (num_gt _ _); rewrite strlen_app.
    + pose proof (substring_length_src (substring prompt 0 simple) 0
                    (lastIndexOf (substring prompt 0 simple) (js "\n\n"))).
      lia.
    + lia.
  - destruct (Z.gtb_spec (simple - footerLength - headerLength) 0)
      as [Hpos | Hneg].
    + (* header, shortened middle, marker, footer *)
      rewrite !strlen_app, Hfooter.
      pose proof (substring_length_prefix prompt headerLength Hheader).
      pose proof (substring_length_span prompt headerLength
                    (simple - footerLength - headerLength) Hheader ltac:(lia)).
      match goal with
      | |- context [if ?c then substring ?m 0 ?l else _] =>
        pose proof (substring_length_src m 0 l); destruct c
      end; lia.
    + rewrite strlen_app.
      pose proof (substring_length_prefix prompt simple ltac:(lia)). lia.
Qed.

(** C2, as amended.  For every document and every ceiling that is at least
    the length of the truncation marker (40), if the document is longer
    than the ceiling then the result of the character-ceiling truncation is
    at most as long as the ceiling. *)
Theorem truncation_ceiling (prompt : jsstring) (maxChars : Z) :
  (strlen truncationMessage <= maxChars)%Z ->
  (strlen prompt > maxChars)%Z ->
  (strlen (truncatePrompt prompt maxChars) <= maxChars)%Z.
Proof. exact (truncatePrompt_bound prompt maxChars). Qed.

(** A document of 100 letters under a ceiling of 50 is cut to 10 letters
    and the marker. *)
Lemma truncation_ceiling_witness :
  (strlen (truncatePrompt (repeat 97%N 100) 50) <= 50)%Z.
Proof.
  apply truncation_ceiling.
  - vm_compute. discriminate.
  - vm_compute. reflexivity.
Defined.

(** C2, as stated, fails below the length of the marker: a document of
    eleven letters under a ceiling of ten becomes the marker alone, which
    has 40 code units. *)
Lemma small_ceiling_overflow :
  (strlen eleven_letters > 10)%Z
  /\ truncatePrompt eleven_letters 10 = truncationMessage
  /\ ~ (strlen (truncatePrompt eleven_letters 10) <= 10)%Z.
Proof.
  split; [reflexivity |]. split; [reflexivity |].
  vm_compute. intros H. apply H. reflexivity.
Qed.

(** A paragraph break in the last fifth of the cut makes the result shorter
    than the ceiling. *)
Example truncation_snaps_to_paragraph :
  let doc := repeat 97%N 55 ++ js "\n\n" ++ repeat 98%N 100 in
  truncatePrompt doc 100 = repeat 97%N 55 ++ truncationMessage
  /\ (strlen (truncatePrompt doc 100) < 100)%Z.
Proof. split; reflexivity. Qed.

(** ** Header injection *)

(** C10.  The header-insertion helper hands the matched header and the
    preamble to [String.prototype.replace] as replacement text, where [$$],
    [$&], [$`] and [$'] are patterns.  For the prompt [# $$], a blank line,
    [x], a blank line, and the preamble [P], the helper returns a text in
    which the title has lost a dollar sign: the prompt is not retained
    unchanged and the length is not the sum of the two lengths. *)
Theorem header_injection_dollar :
  insertAfterHeader dollar_title (js "P") = js "# $\n\nx\n\nP"
  /\ strlen (insertAfterHeader dollar_title (js "P"))
     <> (strlen dollar_title + strlen (js "P"))%Z
  /\ ~ exists before after,
         dollar_title = before ++ after
         /\ insertAfterHeader dollar_title (js "P") = before ++ js "P" ++ after.
Proof.
  split; [reflexivity |]. split; [vm_compute; discriminate |].
  intros (before & after & Hsplit & Hout).
  apply (f_equal strlen) in Hsplit. apply (f_equal strlen) in Hout.
  rewrite !strlen_app in *.
  change (strlen dollar_title) with 9%Z in Hsplit.
  change (strlen (insertAfterHeader dollar_title (js "P"))) with 9%Z in Hout.
  change (strlen (js "P")) with 1%Z in Hout.
  pose proof (strlen_nonneg before). pose proof (strlen_nonneg after). lia.
Qed.

(** ** Warnings *)

Lemma indexOf_from_sign (s pat : jsstring) (i : Z) :
  (0 <= i)%Z ->
  (0 <=? indexOf_from s pat i)%Z = (0 <=? indexOf_from s pat 0)%Z.
Proof.
  revert i. induction s as [|c t IH]; intros i Hi; cbn [indexOf_from].
  - destruct (startsWith [] pat); [|reflexivity].
    apply Z.leb_le in Hi. rewrite Hi. reflexivity.
  - destruct (startsWith (c :: t) pat).
    + apply Z.leb_le in Hi. rewrite Hi. reflexivity.
    + rewrite (IH (i + 1)%Z) by lia. rewrite (IH (0 + 1)%Z) by lia. reflexivity.
Qed.

Lemma includes_cons (c : N) (s pat : jsstring) :
  includes (c :: s) pat = startsWith (c :: s) pat || includes s pat.
Proof.
  unfold includes, indexOf. cbn [indexOf_from].
  destruct (startsWith (c :: s) pat); [reflexivity |].
  cbn [orb]. apply indexOf_from_sign. lia.
Qed.

Lemma toString_digits (n : Z) : Forall (fun c => is_digit c = true) (toString n).
Proof.
  unfold toString. induction (N.to_uint (Z.to_N n)); simpl;
    constructor; (reflexivity || assumption).
Qed.

Lemma includes_digits (ds rest : jsstring) :
  Forall (fun c => is_digit c = true) ds ->
  includes (ds ++ rest) word_truncated = includes rest word_truncated.
Proof.
  induction 1 as [|d ds Hd _ IH]; [reflexivity |].
  simpl. rewrite includes_cons, IH.
  replace (startsWith (d :: ds ++ rest) word_truncated) with false; [reflexivity |].
  unfold word_truncated. simpl.
  destruct (N.eqb_spec d 116) as [-> | _]; [discriminate Hd | reflexivity].
Qed.

(** The warning of the claude procedure does not contain the word,
    whatever the two numbers are. *)
Lemma claude_warning_silent (n m : Z) :
  includes (js "Prompt is " ++ toString n ++ js " characters (within Claude's "
              ++ toString m ++ js " limit)") word_truncated = false.
Proof.
  change (js "Prompt is ") with [80; 114; 111; 109; 112; 116; 32; 105; 115; 32]%N.
  cbn [app]. rewrite !includes_cons.
  unfold word_truncated at 1 2 3 4 5 6 7 8 9 10. cbn [startsWith N.eqb Pos.eqb andb orb].
  rewrite includes_digits by apply toString_digits.
  set (mid := js " characters (within Claude's ").
  vm_compute in mid. subst mid. cbn [app]. rewrite !includes_cons.
  unfold word_truncated at 1 2 3 4 5 6 7 8 9 10 11 12 13 14 15 16 17 18 19 20 21 22 23 24 25 26 27 28 29.
  cbn [startsWith N.eqb Pos.eqb andb orb].
  rewrite includes_digits by apply toString_digits.
  reflexivity.
Qed.

Lemma no_warning_silent : ~ mentions_truncated [].
Proof. intros (w & [] & _). Qed.

(** ** The profiles of the table *)

Lemma profile_cursor :
  exists l, platformLimits new_PlatformOptimizer !! js "cursor" = Some l
            /\ maxCharacters l = Some 15000%Z.
Proof. eexists. split; [vm_compute; reflexivity | reflexivity]. Qed.

Lemma profile_claude :
  exists l, platformLimits new_PlatformOptimizer !! js "claude" = Some l
            /\ maxCharacters l = Some 20000%Z.
Proof. eexists. split; [vm_compute; reflexivity | reflexivity]. Qed.

Lemma profile_universal :
  exists l, platformLimits new_PlatformOptimizer !! js "universal" = Some l
            /\ maxCharacters l = Some 12000%Z.
Proof. eexists. split; [vm_compute; reflexivity | reflexivity]. Qed.

Lemma profile_ollama :
  exists l, platformLimits new_PlatformOptimizer !! js "ollama" = Some l
            /\ maxCharacters l = Some 8000%Z
            /\ maxLines l = Some 300%Z
            /\ supportsEmojis l = false.
Proof. eexists. split; [vm_compute; reflexivity | auto]. Qed.

(** ** The character pass *)

Lemma after_character_pass_bound (ceiling : Z) (doc : jsstring) :
  (strlen truncationMessage <= ceiling)%Z ->
  (strlen (after_character_pass ceiling doc) <= ceiling)%Z.
Proof.
  intros Hc. unfold after_character_pass.
  destruct (Z.gtb_spec (strlen doc) ceiling); [|lia].
  apply truncatePrompt_bound; lia.
Qed.

Lemma after_character_pass_changes (ceiling : Z) (doc : jsstring) :
  (strlen truncationMessage <= ceiling)%Z ->
  strlen (after_character_pass ceiling doc) <> strlen doc
  <-> (strlen doc > ceiling)%Z.
Proof.
  intros Hc. pose proof (after_character_pass_bound ceiling doc Hc) as Hb.
  revert Hb. unfold after_character_pass.
  destruct (Z.gtb_spec (strlen doc) ceiling); lia.
Qed.

Lemma optimizeForCursor_new (prompt : jsstring) (config : PromptGeneratorConfig) :
  exists r,
    optimizeForCursor new_PlatformOptimizer prompt config = Some r
    /\ optimizedPrompt r = after_character_pass 15000 (cursorTransform prompt)
    /\ (mentions_truncated (warnings r)
        <-> (strlen (cursorTransform prompt) > 15000)%Z).
Proof.
  destruct profile_cursor as (l & Hl & Hmax).
  unfold optimizeForCursor. rewrite Hl. cbn [mbind option_bind].
  rewrite Hmax. unfold exceeds, after_character_pass.
  destruct (Z.gtb_spec (strlen (cursorTransform prompt)) 15000);
    eexists; (split; [reflexivity |]); cbn [optimizedPrompt warnings];
    (split; [reflexivity |]); split; intros H'; try lia.
  - eexists. split; [left; reflexivity | vm_compute; reflexivity].
  - destruct (no_warning_silent H').
Qed.

Lemma optimizeForUniversal_new (prompt : jsstring) (config : PromptGeneratorConfig) :
  exists r,
    optimizeForUniversal new_PlatformOptimizer prompt config = Some r
    /\ optimizedPrompt r = after_character_pass 12000 (universalTransform prompt)
    /\ (mentions_truncated (warnings r)
        <-> (strlen (universalTransform prompt) > 12000)%Z).
Proof.
  destruct profile_universal as (l & Hl & Hmax).
  unfold optimizeForUniversal. rewrite Hl. cbn [mbind option_bind].
  rewrite Hmax. unfold exceeds, after_character_pass.
  destruct (Z.gtb_spec (strlen (universalTransform prompt)) 12000);
    eexists; (split; [reflexivity |]); cbn [optimizedPrompt warnings];
    (split; [reflexivity |]); split; intros H'; try lia.
  - eexists. split; [left; reflexivity | vm_compute; reflexivity].
  - destruct (no_warning_silent H').
Qed.

Lemma optimizeForClaude_new (prompt : jsstring) (config : PromptGeneratorConfig) :
  exists r,
    optimizeForClaude new_PlatformOptimizer prompt config = Some r
    /\ optimizedPrompt r = claudeTransform prompt
    /\ ~ mentions_truncated (warnings r).
Proof.
  destruct profile_claude as (l & Hl & Hmax).
  unfold optimizeForClaude. rewrite Hl. cbn [mbind option_bind].
  rewrite Hmax. unfold exceeds.
  destruct (Z.gtb_spec (strlen (claudeTransform prompt)) 20000);
    eexists; (split; [reflexivity |]); cbn [optimizedPrompt warnings];
    (split; [reflexivity |]).
  - intros (w & [<- | []] & Hw). rewrite claude_warning_silent in Hw. discriminate.
  - apply no_warning_silent.
Qed.

Lemma optimizeForOllama_new (prompt : jsstring) (config : PromptGeneratorConfig) :
  exists l r,
    platformLimits new_PlatformOptimizer !! js "ollama" = Some l
    /\ optimizeForOllama new_PlatformOptimizer prompt config = Some r
    /\ let cut := after_character_pass 8000 (ollamaTransform l prompt) in
       optimizedPrompt r
       = (if (lineCount cut >? 300)%Z then truncateByLines cut 300 else cut)
       /\ (mentions_truncated (warnings r)
           <-> (strlen (ollamaTransform l prompt) > 8000)%Z
               \/ (lineCount cut > 300)%Z).
Proof.
  destruct profile_ollama as (l & Hl & Hmax & Hlines & Hemoji).
  exists l. unfold optimizeForOllama. rewrite Hl. cbn [mbind option_bind].
  unfold ollamaCharPass, over_lines, exceeds, after_character_pass, lineCount.
  rewrite Hmax, Hlines. cbn [negb Z.eqb andb].
  set (pre := ollamaTransform l prompt).
  destruct (Z.gtb_spec (strlen pre) 8000) as [Hc | Hc].
  - set (cut := truncatePrompt pre 8000).
    destruct (Z.gtb_spec (Z.of_nat (length (split_nl cut))) 300) as [Hn | Hn];
      eexists; (split; [reflexivity |]); (split; [reflexivity |]);
      cbn [optimizedPrompt warnings];
      (split; [reflexivity |]); split; intros _; try (left; lia);
      eexists; (split; [left; reflexivity | vm_compute; reflexivity]).
  - destruct (Z.gtb_spec (Z.of_nat (length (split_nl pre))) 300) as [Hn | Hn];
      eexists; (split; [reflexivity |]); (split; [reflexivity |]);
      cbn [optimizedPrompt warnings app];
      (split; [reflexivity |]); split; intros H'; try lia.
    + eexists. split; [left; reflexivity | vm_compute; reflexivity].
    + destruct (no_warning_silent H').
Qed.

(** The dispatch of [optimize]. *)
Lemma optimize_dispatch (this : PlatformOptimizer) (prompt : jsstring)
    (config : PromptGeneratorConfig) :
  (platform config = js "cursor"
   /\ optimize this prompt config = optimizeForCursor this prompt config
   /\ transformed this prompt config = cursorTransform prompt)
  \/ (platform config = js "claude"
   /\ optimize this prompt config = optimizeForClaude this prompt config
   /\ transformed this prompt config = claudeTransform prompt)
  \/ (platform config = js "ollama"
   /\ optimize this prompt config = optimizeForOllama this prompt config
   /\ transformed this prompt config
      = match platformLimits this !! js "ollama" with
        | Some limits => ollamaTransform limits prompt
        | None => prompt
        end)
  \/ (platform config <> js "cursor" /\ platform config <> js "claude"
   /\ platform config <> js "ollama"
   /\ optimize this prompt config = optimizeForUniversal this prompt config
   /\ transformed this prompt config = universalTransform prompt).
Proof.
  unfold optimize, transformed, eqb.
  repeat case_bool_decide; auto 10.
Qed.

(** C7, as amended.  For every prompt and every request, [optimize]
    returns a result, and its warnings mention [truncated] as follows.
    Whenever the length of the final document differs from the length of
    the document before the truncation step, such a warning is present.
    For every destination but [ollama] the converse holds: the warning is
    present only if the two lengths differ.  For [ollama] the warning is
    present exactly when a truncation pass ran: the transformed document
    had more than 8000 code units, or the document had more than 300 lines
    after the character pass. *)
Theorem warning_correlation (prompt : jsstring) (config : PromptGeneratorConfig) :
  exists r,
    optimize new_PlatformOptimizer prompt config = Some r
    /\ let pre := transformed new_PlatformOptimizer prompt config in
       (strlen (optimizedPrompt r) <> strlen pre -> mentions_truncated (warnings r))
       /\ (platform config <> js "ollama" ->
           mentions_truncated (warnings r) ->
           strlen (optimizedPrompt r) <> strlen pre)
       /\ (platform config = js "ollama" ->
           (mentions_truncated (warnings r)
            <-> (strlen pre > 8000)%Z
                \/ (lineCount (after_character_pass 8000 pre) > 300)%Z)).
Proof.
  assert (Hmsg : forall c, (8000 <= c)%Z -> (strlen truncationMessage <= c)%Z)
    by (intros c Hc; change (strlen truncationMessage) with 40%Z; lia).
  destruct (optimize_dispatch new_PlatformOptimizer prompt config)
    as [(Hp & -> & ->) | [(Hp & -> & ->) | [(Hp & -> & ->)
        | (Hp1 & Hp2 & Hp3 & -> & ->)]]].
  - destruct (optimizeForCursor_new prompt config) as (r & -> & Hdoc & Hw).
    exists r. split; [reflexivity |]. cbv zeta. rewrite Hdoc, Hw.
    rewrite after_character_pass_changes by (apply Hmsg; lia).
    repeat split; try tauto.
    all: match goal with
         | H : platform _ = js "ollama" |- _ =>
           rewrite Hp in H; vm_compute in H; discriminate H
         end.
  - destruct (optimizeForClaude_new prompt config) as (r & -> & Hdoc & Hw).
    exists r. split; [reflexivity |]. cbv zeta. rewrite Hdoc.
    repeat split; try tauto.
    all: match goal with
         | H : platform _ = js "ollama" |- _ =>
           rewrite Hp in H; vm_compute in H; discriminate H
         end.
  - destruct (optimizeForOllama_new prompt config) as (l & r & Hl & -> & Hdoc & Hw).
    exists r. split; [reflexivity |]. rewrite Hl. cbv zeta. cbv zeta in Hdoc, Hw.
    split; [| split; [tauto | intros _; exact Hw]].
    intros Hdiff. apply Hw.
    destruct (Z.gtb_spec (lineCount (after_character_pass 8000 (ollamaTransform l prompt))) 300)
      as [Hn | Hn]; [right; lia |].
    left. rewrite Hdoc in Hdiff.
    apply after_character_pass_changes in Hdiff; [lia | apply Hmsg; lia].
  - destruct (optimizeForUniversal_new prompt config) as (r & -> & Hdoc & Hw).
    exists r. split; [reflexivity |]. cbv zeta. rewrite Hdoc, Hw.
    rewrite after_character_pass_changes by (apply Hmsg; lia).
    repeat split; try tauto.
Qed.

(** For the ollama destination and the document of 301 short lines, the
    warning is there because the line pass ran. *)
Lemma warning_correlation_witness :
  exists r,
    optimize new_PlatformOptimizer many_short_lines (request (js "ollama")) = Some r
    /\ mentions_truncated (warnings r).
Proof.
  destruct (warning_correlation many_short_lines (request (js "ollama")))
    as (r & Hr & _ & _ & Hollama).
  exists r. split; [exact Hr |].
  apply (Hollama eq_refl). right. vm_compute. reflexivity.
Defined.

(** C7, as stated, fails on the line pass of the ollama procedure: for 290
    line feeds followed by 37 letters the document has 301 lines, the line
    truncation replaces the last 39 code units by 39 others, the warning
    about 300 lines is issued and the length is what it was. *)
Lemma warning_without_length_change :
  exists r,
    optimize new_PlatformOptimizer many_short_lines (request (js "ollama")) = Some r
    /\ warnings r = [js "Prompt truncated to 300 lines for Ollama compatibility"]
    /\ mentions_truncated (warnings r)
    /\ strlen (optimizedPrompt r)
       = strlen (transformed new_PlatformOptimizer many_short_lines
                   (request (js "ollama")))
    /\ ~ (mentions_truncated (warnings r)
          <-> strlen (optimizedPrompt r)
              <> strlen (transformed new_PlatformOptimizer many_short_lines
                           (request (js "ollama")))).
Proof.
  eexists. split; [vm_compute; reflexivity |].
  cbn [warnings optimizedPrompt].
  assert (Hw : mentions_truncated
                 [js "Prompt truncated to 300 lines for Ollama compatibility"]).
  { eexists. split; [left; reflexivity | vm_compute; reflexivity]. }
  split; [vm_compute; reflexivity |].
  match goal with |- mentions_truncated ?ws /\ _ =>
    assert (Hw' : mentions_truncated ws)
      by (eexists; split; [left; reflexivity | vm_compute; reflexivity])
  end.
  split; [exact Hw' |].
  assert (Hlen : forall a b : Z, a = b -> ~ (a <> b)) by (intros; lia).
  match goal with |- ?a = ?b /\ _ =>
    assert (Heq : a = b) by (vm_compute; reflexivity)
  end.
  split; [exact Heq |].
  intros [Hto _]. apply (Hto Hw'). exact Heq.
Qed.

(** ** The built-in library and table *)

Lemma builtin_limit (destination : jsstring) :
  getPlatformLimit new_PlatformOptimizer destination = 15000%Z
  \/ getPlatformLimit new_PlatformOptimizer destination = 20000%Z
  \/ getPlatformLimit new_PlatformOptimizer destination = 8000%Z
  \/ getPlatformLimit new_PlatformOptimizer destination = 12000%Z
  \/ (~ known_destination new_PlatformOptimizer destination
      /\ getPlatformLimit new_PlatformOptimizer destination = 10000%Z).
Proof.
  unfold getPlatformLimit, known_destination, new_PlatformOptimizer,
    initializePlatformLimits. cbn [platformLimits].
  rewrite !lookup_insert, lookup_empty.
  repeat case_decide; cbn [maxCharacters Z.eqb]; auto 10.
Qed.

Lemma unknown_limit (destination : jsstring) :
  ~ known_destination new_PlatformOptimizer destination ->
  getPlatformLimit new_PlatformOptimizer destination = 10000%Z.
Proof.
  unfold known_destination, getPlatformLimit. intros H.
  destruct (platformLimits new_PlatformOptimizer !! destination) eqn:E;
    [exfalso; apply H; eauto | reflexivity].
Qed.

Lemma builtin_extended (destination : jsstring) :
  (extendedPrompts new_AdaptivePromptGenerator !! destination = Some extendedCopilot
   /\ extendedFragment new_AdaptivePromptGenerator destination = extendedCopilot)
  \/ (extendedPrompts new_AdaptivePromptGenerator !! destination = Some extendedClaude
   /\ extendedFragment new_AdaptivePromptGenerator destination = extendedClaude)
  \/ extendedFragment new_AdaptivePromptGenerator destination = extendedCursor.
Proof.
  unfold extendedFragment, new_AdaptivePromptGenerator.
  cbn [extendedPrompts].
  assert (Hcur : loadExtendedPrompts !! js "cursor" = Some extendedCursor)
    by (vm_compute; reflexivity).
  rewrite Hcur. unfold loadExtendedPrompts.
  rewrite !lookup_insert, lookup_empty.
  assert (H1 : truthy extendedCopilot = true) by reflexivity.
  assert (H2 : truthy extendedClaude = true) by reflexivity.
  assert (H3 : truthy extendedCursor = true) by reflexivity.
  repeat case_decide; cbn [or_else]; rewrite ?H1, ?H2, ?H3; auto.
Qed.

Lemma builtin_extended_fallback (destination : jsstring) :
  extendedPrompts new_AdaptivePromptGenerator !! destination = None ->
  extendedFragment new_AdaptivePromptGenerator destination = extendedCursor.
Proof.
  intros H. unfold extendedFragment. rewrite H. reflexivity.
Qed.

Lemma detectProjectType_cases (packageJson : option jsstring) :
  detectProjectType packageJson = js "react"
  \/ detectProjectType packageJson = js "vue"
  \/ detectProjectType packageJson = js "angular"
  \/ detectProjectType packageJson = js "node".
Proof.
  unfold detectProjectType. destruct packageJson as [text |]; [|auto].
  repeat match goal with |- context [if ?c then _ else _] => destruct c end; auto.
Qed.

Lemma builtin_examples (packageJson : option jsstring) :
  exampleFragment new_AdaptivePromptGenerator (detectProjectType packageJson)
    = examplesReact
  \/ exampleFragment new_AdaptivePromptGenerator (detectProjectType packageJson)
    = examplesNode
  \/ exampleFragment new_AdaptivePromptGenerator (detectProjectType packageJson)
    = [].
Proof.
  destruct (detectProjectType_cases packageJson) as [-> | [-> | [-> | ->]]];
    vm_compute; auto.
Qed.

Lemma builtin_assembly_length (packageJson : option jsstring)
    (config : PromptGeneratorConfig) :
  (strlen (optimizedPrompt
             (assembleAdaptivePrompt new_AdaptivePromptGenerator packageJson config))
   <= 2875)%Z.
Proof.
  assert (Hcore : strlen (corePrompt new_AdaptivePromptGenerator) = 1608%Z)
    by reflexivity.
  assert (Hext : (strlen (extendedFragment new_AdaptivePromptGenerator
                            (platform config)) <= 621)%Z).
  { destruct (builtin_extended (platform config)) as [[_ ->] | [[_ ->] | ->]];
      vm_compute; discriminate. }
  assert (Hex : (strlen (exampleFragment new_AdaptivePromptGenerator
                           (detectProjectType packageJson)) <= 642)%Z).
  { destruct (builtin_examples packageJson) as [-> | [-> | ->]];
      vm_compute; discriminate. }
  assert (Hsep : strlen (js "\n\n") = 2%Z) by reflexivity.
  destruct (assemble_cases new_AdaptivePromptGenerator packageJson config)
    as [(_ & _ & ->) | [(_ & _ & ->) | [(_ & _ & ->) | (_ & _ & ->)]]];
    cbn [optimizedPrompt]; rewrite ?strlen_app, ?Hsep, Hcore; lia.
Qed.

(** ** Ceiling enforcement *)

(** C1, as amended.  [generate] returns the assembled document as it is:
    neither the rewrite procedures nor the truncation are applied on that
    path.  With the built-in library the returned document has at most 2875
    code units and never exceeds the ceiling of its destination.  The
    truncation is applied inside [optimize] only: for [cursor] its result
    has at most 15000 code units, for [universal] and every unknown
    destination at most 12000, for [ollama] at most 8000 unless the line
    pass ran, and for [claude] the document is never truncated. *)
Theorem ceiling_enforcement :
  (forall this packageJson config,
     systemPrompt (generate this packageJson config)
     = optimizedPrompt (assembleAdaptivePrompt this packageJson config))
  /\ (forall packageJson config,
        (strlen (systemPrompt (generatePrompt packageJson config))
         <= getPlatformLimit new_PlatformOptimizer (platform config))%Z)
  /\ (forall prompt config,
        platform config <> js "claude" -> platform config <> js "ollama" ->
        exists r,
          optimize new_PlatformOptimizer prompt config = Some r
          /\ (strlen (optimizedPrompt r)
              <= if eqb (platform config) (js "cursor") then 15000 else 12000)%Z)
  /\ (forall prompt config,
        platform config = js "ollama" ->
        exists r,
          optimize new_PlatformOptimizer prompt config = Some r
          /\ ((lineCount (after_character_pass 8000
                            (transformed new_PlatformOptimizer prompt config))
               <= 300)%Z ->
              (strlen (optimizedPrompt r) <= 8000)%Z))
  /\ (forall prompt config,
        platform config = js "claude" ->
        exists r,
          optimize new_PlatformOptimizer prompt config = Some r
          /\ optimizedPrompt r = transformed new_PlatformOptimizer prompt config).
Proof.
  assert (Hmsg : forall c, (8000 <= c)%Z -> (strlen truncationMessage <= c)%Z)
    by (intros c Hc; change (strlen truncationMessage) with 40%Z; lia).
  split; [reflexivity |]. split; [| split; [| split]].
  - intros packageJson config. unfold generatePrompt, generate.
    cbn [systemPrompt].
    pose proof (builtin_assembly_length packageJson config) as Hlen.
    destruct (builtin_limit (platform config))
      as [-> | [-> | [-> | [-> | [_ ->]]]]]; lia.
  - intros prompt config Hclaude Hollama.
    destruct (optimize_dispatch new_PlatformOptimizer prompt config)
      as [(Hp & -> & _) | [(Hp & _) | [(Hp & _) | (Hp & _ & _ & -> & _)]]];
      try contradiction.
    + destruct (optimizeForCursor_new prompt config) as (r & -> & Hdoc & _).
      exists r. split; [reflexivity |]. rewrite Hdoc, Hp.
      unfold eqb. rewrite bool_decide_eq_true_2 by reflexivity.
      apply after_character_pass_bound, Hmsg. lia.
    + destruct (optimizeForUniversal_new prompt config) as (r & -> & Hdoc & _).
      exists r. split; [reflexivity |]. rewrite Hdoc.
      unfold eqb. rewrite bool_decide_eq_false_2 by assumption.
      apply after_character_pass_bound, Hmsg. lia.
  - intros prompt config Hp.
    destruct (optimize_dispatch new_PlatformOptimizer prompt config)
      as [(Hq & _) | [(Hq & _) | [(_ & -> & ->) | (_ & _ & Hq & _)]]];
      try (rewrite Hp in Hq; vm_compute in Hq; discriminate Hq);
      try contradiction.
    destruct (optimizeForOllama_new prompt config) as (l & r & -> & -> & Hdoc & _).
    exists r. split; [reflexivity |]. cbv zeta in Hdoc. intros Hlines.
    rewrite Hdoc.
    destruct (Z.gtb_spec (lineCount (after_character_pass 8000
                                       (ollamaTransform l prompt))) 300);
      [lia |].
    apply after_character_pass_bound, Hmsg. lia.
  - intros prompt config Hp.
    destruct (optimize_dispatch new_PlatformOptimizer prompt config)
      as [(Hq & _) | [(_ & -> & ->) | [(Hq & _) | (_ & Hq & _)]]];
      try (rewrite Hp in Hq; vm_compute in Hq; discriminate Hq);
      try contradiction.
    destruct (optimizeForClaude_new prompt config) as (r & -> & Hdoc & _).
    exists r. split; [reflexivity | exact Hdoc].
Qed.

(** A document of 20001 letters for the universal destination comes back
    with at most 12000 code units. *)
Lemma ceiling_enforcement_witness :
  exists r,
    optimize new_PlatformOptimizer long_letters (request (js "universal")) = Some r
    /\ (strlen (optimizedPrompt r) <= 12000)%Z.
Proof.
  destruct ceiling_enforcement as (_ & _ & H & _).
  destruct (H long_letters (request (js "universal"))) as (r & Hr & Hlen).
  - vm_compute. discriminate.
  - vm_compute. discriminate.
  - exists r. split; [exact Hr | exact Hlen].
Defined.

(** C1, as stated, fails.  For the universal destination the document that
    [generate] returns is not the assembled document after the rewrite of
    the optimizer: the preamble is missing.  A library whose core fragment
    has 10001 letters is returned whole for [ollama], above the ceiling of
    8000.  And the claude procedure returns a document of 20001 letters
    with its preamble and appendix, above its ceiling of 20000. *)
Lemma generate_is_not_the_pipeline :
  (exists r,
     assemble_then_optimize new_AdaptivePromptGenerator None
       (request (js "universal")) = Some r
     /\ systemPrompt (generatePrompt None (request (js "universal")))
        <> optimizedPrompt r)
  /\ (strlen (systemPrompt (generate oversized_library None (request (js "ollama"))))
      > getPlatformLimit (platformOptimizer oversized_library) (js "ollama"))%Z
  /\ (exists r,
        optimize new_PlatformOptimizer long_letters (request (js "claude")) = Some r
        /\ (strlen (optimizedPrompt r)
            > getPlatformLimit new_PlatformOptimizer (js "claude"))%Z).
Proof.
  split; [| split].
  - unfold assemble_then_optimize.
    set (assembled := optimizedPrompt _).
    change (platformOptimizer new_AdaptivePromptGenerator)
      with new_PlatformOptimizer.
    destruct (optimize_dispatch new_PlatformOptimizer assembled
                (request (js "universal")))
      as [(Hq & _) | [(Hq & _) | [(Hq & _) | (_ & _ & _ & -> & _)]]];
      try (vm_compute in Hq; discriminate Hq).
    destruct (optimizeForUniversal_new assembled (request (js "universal")))
      as (r & -> & Hdoc & _).
    exists r. split; [reflexivity |]. rewrite Hdoc.
    intros H. apply (f_equal strlen) in H. vm_compute in H. discriminate H.
  - vm_compute. reflexivity.
  - destruct (optimize_dispatch new_PlatformOptimizer long_letters
                (request (js "claude")))
      as [(Hq & _) | [(_ & -> & _) | [(Hq & _) | (_ & Hq & _)]]];
      try (vm_compute in Hq; discriminate Hq);
      try (exfalso; apply Hq; reflexivity).
    destruct (optimizeForClaude_new long_letters (request (js "claude")))
      as (r & -> & Hdoc & _).
    exists r. split; [reflexivity |]. rewrite Hdoc.
    vm_compute. reflexivity.
Qed.

(** ** Unknown destinations *)

Lemma universal_limit : getPlatformLimit new_PlatformOptimizer (js "universal") = 12000%Z.
Proof. vm_compute. reflexivity. Qed.

Lemma universal_extended :
  extendedFragment new_AdaptivePromptGenerator (js "universal") = extendedCursor.
Proof. vm_compute. reflexivity. Qed.

(** With the built-in library every inclusion check succeeds under the
    ceilings 10000 and 12000 alike, whichever fragments are resolved. *)
Lemma builtin_assembly_unknown (packageJson : option jsstring)
    (config : PromptGeneratorConfig) (destination : jsstring) :
  ~ known_destination new_PlatformOptimizer destination ->
  let here :=
    assembleAdaptivePrompt new_AdaptivePromptGenerator packageJson
      (with_destination config destination) in
  let there :=
    assembleAdaptivePrompt new_AdaptivePromptGenerator packageJson
      (with_destination config (js "universal")) in
  appliedOptimizations here = appliedOptimizations there
  /\ warnings here = warnings there
  /\ (extendedPrompts new_AdaptivePromptGenerator !! destination = None ->
      optimizedPrompt here = optimizedPrompt there).
Proof.
  intros Hunknown here there. subst here there.
  unfold assembleAdaptivePrompt.
  cbn [platform with_destination platformOptimizer new_AdaptivePromptGenerator
       warnings].
  fold new_AdaptivePromptGenerator.
  rewrite (unknown_limit destination Hunknown), universal_limit, universal_extended.
  split; [| split; [reflexivity |]].
  - destruct (builtin_extended destination) as [[_ ->] | [[_ ->] | ->]];
      destruct (builtin_examples packageJson) as [-> | [-> | ->]];
      vm_compute; reflexivity.
  - intros Hnone. rewrite (builtin_extended_fallback destination Hnone).
    destruct (builtin_examples packageJson) as [-> | [-> | ->]];
      vm_compute; reflexivity.
Qed.

(** With the built-in library the document of an assembly under the
    ceiling 10000 or 12000 is the core fragment, a blank line, the extended
    fragment that the library resolves for the destination and, after a
    blank line, the examples of the category when it has any. *)
Lemma builtin_assembly_layout (packageJson : option jsstring)
    (config : PromptGeneratorConfig) (destination : jsstring) :
  getPlatformLimit new_PlatformOptimizer destination = 10000%Z
  \/ getPlatformLimit new_PlatformOptimizer destination = 12000%Z ->
  let examples_ :=
    exampleFragment new_AdaptivePromptGenerator (detectProjectType packageJson) in
  optimizedPrompt
    (assembleAdaptivePrompt new_AdaptivePromptGenerator packageJson
       (with_destination config destination))
  = getCorePrompt ++ js "\n\n"
      ++ extendedFragment new_AdaptivePromptGenerator destination
      ++ (if truthy examples_ then js "\n\n" ++ examples_ else []).
Proof.
  intros Hlimit. cbv zeta. unfold assembleAdaptivePrompt.
  cbn [platform with_destination platformOptimizer new_AdaptivePromptGenerator
       optimizedPrompt].
  fold new_AdaptivePromptGenerator.
  destruct Hlimit as [-> | ->];
    destruct (builtin_extended destination) as [[_ ->] | [[_ ->] | ->]];
    destruct (builtin_examples packageJson) as [-> | [-> | ->]];
    vm_compute; reflexivity.
Qed.

(** C5.  Fallback for unknown destinations.  The rewrite stage treats every
    destination other than [cursor], [claude] and [ollama] as [universal]:
    for the same prompt [optimize] returns the same result.  The ceiling
    lookup never fails: a destination that the profile table does not know
    has the ceiling 10000.  With the built-in library, the assembly for
    such a destination has the steps and the warnings of the assembly for
    [universal], and its document has the same structure: the core
    fragment, a blank line, the extended fragment that the library
    resolves for the destination, and the same examples block.  The two
    documents are the same text when the library stores no extended
    fragment under the unknown name. *)
Theorem unknown_destination_fallback :
  (forall this prompt config destination,
     destination <> js "cursor" -> destination <> js "claude" ->
     destination <> js "ollama" ->
     optimize this prompt (with_destination config destination)
     = optimize this prompt (with_destination config (js "universal")))
  /\ (forall destination,
        ~ known_destination new_PlatformOptimizer destination ->
        getPlatformLimit new_PlatformOptimizer destination = 10000%Z)
  /\ (forall packageJson config destination,
        ~ known_destination new_PlatformOptimizer destination ->
        let here :=
          assembleAdaptivePrompt new_AdaptivePromptGenerator packageJson
            (with_destination config destination) in
        let there :=
          assembleAdaptivePrompt new_AdaptivePromptGenerator packageJson
            (with_destination config (js "universal")) in
        let examples_ :=
          exampleFragment new_AdaptivePromptGenerator
            (detectProjectType packageJson) in
        let block := if truthy examples_ then js "\n\n" ++ examples_ else [] in
        appliedOptimizations here = appliedOptimizations there
        /\ warnings here = warnings there
        /\ optimizedPrompt here
           = getCorePrompt ++ js "\n\n"
               ++ extendedFragment new_AdaptivePromptGenerator destination ++ block
        /\ optimizedPrompt there
           = getCorePrompt ++ js "\n\n"
               ++ extendedFragment new_AdaptivePromptGenerator (js "universal")
               ++ block
        /\ (extendedPrompts new_AdaptivePromptGenerator !! destination = None ->
            same_result here there)).
Proof.
  split; [| split].
  - intros this prompt config destination H1 H2 H3.
    unfold optimize, eqb. cbn [platform with_destination].
    rewrite !bool_decide_eq_false_2 by (assumption || (vm_compute; discriminate)).
    reflexivity.
  - exact unknown_limit.
  - intros packageJson config destination Hunknown.
    destruct (builtin_assembly_unknown packageJson config destination Hunknown)
      as (Hsteps & Hwarn & Hdoc).
    cbv zeta. split; [exact Hsteps |]. split; [exact Hwarn |].
    split; [| split].
    + apply builtin_assembly_layout. left. by apply unknown_limit.
    + apply builtin_assembly_layout. right. exact universal_limit.
    + intros Hnone. unfold same_result. auto.
Qed.

(** [windsurf] is in no table: its assembly is the assembly for
    [universal].  [copilot] is in no profile table either, but the library
    stores an extended fragment under this name: the assembly has the
    steps and the warnings of the assembly for [universal]. *)
Lemma unknown_destination_fallback_witness :
  same_result
    (assembleAdaptivePrompt new_AdaptivePromptGenerator None
       (with_destination (request (js "universal")) (js "windsurf")))
    (assembleAdaptivePrompt new_AdaptivePromptGenerator None
       (with_destination (request (js "universal")) (js "universal")))
  /\ appliedOptimizations
       (assembleAdaptivePrompt new_AdaptivePromptGenerator None
          (with_destination (request (js "universal")) (js "copilot")))
     = appliedOptimizations
         (assembleAdaptivePrompt new_AdaptivePromptGenerator None
            (with_destination (request (js "universal")) (js "universal")))
  /\ warnings
       (assembleAdaptivePrompt new_AdaptivePromptGenerator None
          (with_destination (request (js "universal")) (js "copilot")))
     = warnings
         (assembleAdaptivePrompt new_AdaptivePromptGenerator None
            (with_destination (request (js "universal")) (js "universal"))).
Proof.
  destruct unknown_destination_fallback as (_ & _ & H).
  split.
  - apply (H None (request (js "universal")) (js "windsurf")).
    + vm_compute. intros [x Hx]. discriminate Hx.
    + vm_compute. reflexivity.
  - destruct (H None (request (js "universal")) (js "copilot")) as (Hs & Hw & _).
    + vm_compute. intros [x Hx]. discriminate Hx.
    + split; [exact Hs | exact Hw].
Defined.

(** The two documents for [copilot] and [universal] have the same blocks
    and another text: the extended block holds the copilot rules in the
    one and the cursor rules in the other. *)
Example copilot_extended_block :
  ~ known_destination new_PlatformOptimizer (js "copilot")
  /\ extendedFragment new_AdaptivePromptGenerator (js "copilot") = extendedCopilot
  /\ extendedFragment new_AdaptivePromptGenerator (js "universal") = extendedCursor
  /\ extendedCopilot <> extendedCursor.
Proof.
  split; [| split; [| split]].
  - vm_compute. intros [x Hx]. discriminate Hx.
  - vm_compute. reflexivity.
  - vm_compute. reflexivity.
  - intros H. apply (f_equal strlen) in H. vm_compute in H. discriminate H.
Qed.

(** ** Structural simplification *)

Lemma startsWith_true (s pat : jsstring) :
  startsWith s pat = true <-> s = pat ++ drop (length pat) s.
Proof.
  revert s. induction pat as [|p pat IH]; intros s.
  - destruct s; split; reflexivity.
  - destruct s as [|c s]; cbn [startsWith length drop app]; [split; discriminate |].
    rewrite andb_true_iff, N.eqb_eq, IH. split.
    + intros [-> H]. congruence.
    + intros H. injection H as -> H. auto.
Qed.


Lemma startsWith_app (s t pat : jsstring) :
  startsWith s pat = true -> startsWith (s ++ t) pat = true.
Proof.
  rewrite !startsWith_true. intros H. rewrite H at 1.
  rewrite <- app_assoc. f_equal.
  rewrite drop_app_le; [reflexivity |].
  apply (f_equal length) in H. rewrite length_app in H. lia.
Qed.

Lemma getSubstitution_plain m b a caps tpl :
  Forall (fun c => c <> 36%N) tpl -> getSubstitution m b a caps tpl = tpl.
Proof.
  induction 1 as [|c t Hc _ IH]; [reflexivity |].
  cbn [getSubstitution]. apply N.eqb_neq in Hc. rewrite Hc. cbn [negb].
  by rewrite IH.
Qed.

Lemma getSubstitution_capture m b a p :
  getSubstitution m b a [Some p] (js "$1:") = p ++ [58%N].
Proof. reflexivity. Qed.


Section Rewriting.

Variable rx : matcher.
Variable template : jsstring.

Hypothesis rx_prefix : forall s m caps,
  rx s = Some (m, caps) -> 1 <= length m /\ s = m ++ drop (length m) s.
Hypothesis template_closed : forall m b b' a a' caps,
  getSubstitution m b a caps template = getSubstitution m b' a' caps template.

Lemma replace_all_from_consumed cons cons' k s :
  replace_all_from rx template cons k s = replace_all_from rx template cons' k s.
Proof.
  revert cons cons' k. induction s as [|c t IH]; intros cons cons' k; [reflexivity |].
  cbn [replace_all_from]. destruct k as [|k]; [| apply IH].
  destruct (rx (c :: t)) as [[m caps] |].
  - rewrite (template_closed m (rev cons) (rev cons') _ (drop (length m) (c :: t))).
    f_equal. apply IH.
  - f_equal. apply IH.
Qed.

Lemma replace_all_from_skip cons k s :
  replace_all_from rx template cons k s = replace_all rx template (drop k s).
Proof.
  revert cons k. induction s as [|c t IH]; intros cons k.
  - by rewrite drop_nil.
  - destruct k as [|k]; [apply replace_all_from_consumed |].
    cbn [replace_all_from drop]. apply IH.
Qed.


Lemma replace_all_match s m caps :
  rx s = Some (m, caps) ->
  replace_all rx template s
  = getSubstitution m [] [] caps template
      ++ replace_all rx template (drop (length m) s).
Proof.
  intros H. destruct (rx_prefix _ _ _ H) as [Hm Hs].
  unfold replace_all at 1. destruct s as [|c t].
  - apply (f_equal length) in Hs. rewrite length_app in Hs. simpl in Hs. lia.
  - cbn [replace_all_from]. rewrite H.
    rewrite (template_closed m _ [] _ []). f_equal.
    rewrite replace_all_from_skip.
    destruct (length m) as [|n]; [lia |]. cbn [drop]. f_equal. f_equal. lia.
Qed.

Lemma replace_all_skip c t :
  rx (c :: t) = None ->
  replace_all rx template (c :: t) = c :: replace_all rx template t.
Proof.
  intros H. unfold replace_all at 1. cbn [replace_all_from]. rewrite H.
  f_equal. apply replace_all_from_consumed.
Qed.

(** Induction along the matches. *)
Lemma replace_all_ind (P : jsstring -> Prop) :
  P [] ->
  (forall s m caps, rx s = Some (m, caps) -> P (drop (length m) s) -> P s) ->
  (forall c t, rx (c :: t) = None -> P t -> P (c :: t)) ->
  forall s, P s.
Proof.
  intros Hnil Hmatch Hskip s.
  remember (length s) as n eqn:Hn. revert s Hn.
  induction n as [n IH] using lt_wf_ind. intros s Hn.
  destruct s as [|c t]; [exact Hnil |].
  destruct (rx (c :: t)) as [[m caps] |] eqn:E.
  - destruct (rx_prefix _ _ _ E) as [Hm Hs].
    apply (Hmatch _ _ _ E). apply (IH (length (drop (length m) (c :: t)))); [|reflexivity].
    rewrite length_drop. subst n. simpl. lia.
  - apply (Hskip _ _ E). apply (IH (length t)); [subst n; simpl; lia | reflexivity].
Qed.

End Rewriting.

(** ** Literal patterns *)

Section Literal.

Variables pat rep : jsstring.
Hypothesis pat_not_empty : pat <> [].
Hypothesis rep_plain : Forall (fun c => c <> 36%N) rep.

Local Abbreviation R := (replace_all (rx_lit pat) rep).

Lemma rx_lit_prefix s m caps :
  rx_lit pat s = Some (m, caps) -> 1 <= length m /\ s = m ++ drop (length m) s.
Proof.
  unfold rx_lit. destruct (startsWith s pat) eqn:E; [|discriminate].
  intros [= <- <-]. split.
  - destruct pat; [congruence | simpl; lia].
  - by apply startsWith_true.
Qed.

Lemma rep_closed m b b' a a' caps :
  getSubstitution m b a caps rep = getSubstitution m b' a' caps rep.
Proof. by rewrite !getSubstitution_plain. Qed.

Lemma lit_match s :
  startsWith s pat = true -> R s = rep ++ R (drop (length pat) s).
Proof.
  intros H.
  rewrite (replace_all_match _ _ rx_lit_prefix rep_closed s pat []).
  - by rewrite getSubstitution_plain.
  - unfold rx_lit. by rewrite H.
Qed.

Lemma lit_match_app s : R (pat ++ s) = rep ++ R s.
Proof.
  rewrite lit_match.
  - by rewrite drop_app_length.
  - apply startsWith_true. by rewrite drop_app_length.
Qed.

Lemma lit_skip c t :
  startsWith (c :: t) pat = false -> R (c :: t) = c :: R t.
Proof.
  intros H. apply (replace_all_skip _ _ rep_closed). unfold rx_lit. by rewrite H.
Qed.

Lemma lit_ind (P : jsstring -> Prop) :
  P [] ->
  (forall s, startsWith s pat = true -> P (drop (length pat) s) -> P s) ->
  (forall c t, startsWith (c :: t) pat = false -> P t -> P (c :: t)) ->
  forall s, P s.
Proof.
  intros Hnil Hmatch Hskip.
  apply (replace_all_ind (rx_lit pat) rx_lit_prefix); [exact Hnil | |].
  - intros s m caps. unfold rx_lit. destruct (startsWith s pat) eqn:E; [|discriminate].
    intros [= <- <-]. by apply Hmatch.
  - intros c t. unfold rx_lit. destruct (startsWith (c :: t) pat) eqn:E; [discriminate |].
    intros _. by apply Hskip.
Qed.

Lemma no_straddle_drop x y n : no_straddle pat x y -> no_straddle pat (drop n x) y.
Proof.
  intros H k Hk. specialize (H k Hk).
  apply andb_false_iff in H. apply andb_false_iff.
  destruct H as [H | H]; [left | by right].
  destruct (startsWith (rev (drop n x)) _) eqn:E; [|reflexivity].
  rewrite <- H. symmetry.
  rewrite <- (take_drop n x) at 1. rewrite rev_app_distr.
  by apply startsWith_app.
Qed.

Lemma startsWith_app_cases x y :
  startsWith (x ++ y) pat = true ->
  startsWith x pat = true
  \/ (length x < length pat
      /\ startsWith (rev x) (rev (take (length x) pat)) = true
      /\ startsWith y (drop (length x) pat) = true).
Proof.
  intros H. apply startsWith_true in H.
  destruct (le_lt_dec (length pat) (length x)) as [Hle | Hlt].
  - left. apply startsWith_true.
    rewrite drop_app_le in H by exact Hle.
    rewrite app_assoc in H. apply app_inv_tail in H. exact H.
  - right. split; [exact Hlt |].
    assert (Hx : x = take (length x) pat).
    { apply (f_equal (take (length x))) in H.
      rewrite take_app_length in H. rewrite H at 1.
      rewrite take_app_le by lia. reflexivity. }
    split.
    + rewrite <- Hx. apply startsWith_true.
      by rewrite drop_all, app_nil_r.
    + apply startsWith_true.
      assert (Hy : y = drop (length x) pat ++ drop (length pat) (x ++ y)).
      { apply (f_equal (drop (length x))) in H.
        rewrite drop_app_length in H. rewrite drop_app_le in H by lia. exact H. }
      rewrite drop_app_ge in Hy by lia.
      rewrite length_drop. exact Hy.
Qed.

Lemma lit_split x y : no_straddle pat x y -> R (x ++ y) = R x ++ R y.
Proof.
  revert x. apply (lit_ind (fun x => no_straddle pat x y -> R (x ++ y) = R x ++ R y)).
  - reflexivity.
  - intros s Hs IH Hno.
    rewrite (lit_match s Hs), (lit_match (s ++ y) (startsWith_app _ _ _ Hs)).
    rewrite <- app_assoc. f_equal.
    rewrite drop_app_le.
    + apply IH. by apply no_straddle_drop.
    + apply startsWith_true in Hs. apply (f_equal length) in Hs.
      rewrite length_app in Hs. lia.
  - intros c t Hs IH Hno.
    destruct (startsWith ((c :: t) ++ y) pat) eqn:E.
    + destruct (startsWith_app_cases _ _ E) as [H | (Hlt & H1 & H2)]; [congruence |].
      assert (Hk : 0 < length (c :: t) < length pat) by (simpl in *; lia).
      specialize (Hno _ Hk). rewrite H1, H2 in Hno. discriminate Hno.
    + rewrite (lit_skip c t Hs). cbn [app]. rewrite (lit_skip c (t ++ y) E).
      f_equal. apply IH. apply (no_straddle_drop (c :: t) y 1 Hno).
Qed.

(** A text without the first code unit of the pattern is left alone. *)
Lemma lit_absent x y :
  Forall (fun c => Some c <> head pat) x -> R (x ++ y) = x ++ R y.
Proof.
  induction 1 as [|c x Hc _ IH]; [reflexivity |].
  cbn [app]. rewrite lit_skip; [by rewrite IH |].
  destruct pat as [|p pat']; [congruence |]. cbn [startsWith head] in *.
  destruct (N.eqb_spec c p) as [-> | _]; [congruence | reflexivity].
Qed.

Lemma lit_Forall (P : N -> Prop) s :
  Forall P rep -> Forall P s -> Forall P (R s).
Proof.
  intros Hrep. revert s.
  apply (lit_ind (fun s => Forall P s -> Forall P (R s))).
  - auto.
  - intros s Hs IH H. rewrite (lit_match s Hs). apply Forall_app. split; [exact Hrep |].
    apply IH. by apply Forall_drop.
  - intros c t Hs IH H. rewrite (lit_skip c t Hs).
    inversion H; subst. constructor; auto.
Qed.

(** A code unit that is not in the pattern separates two texts. *)
Lemma lit_split_at c x y :
  Forall (fun d => d <> c) pat -> R (x ++ c :: y) = R x ++ c :: R y.
Proof.
  intros Hc. rewrite lit_split.
  - f_equal. apply lit_skip.
    destruct pat as [|p pat']; [congruence |]. cbn [startsWith].
    inversion Hc; subst.
    destruct (N.eqb_spec c p) as [-> | _]; [congruence | reflexivity].
  - intros k Hk. apply andb_false_iff. right.
    destruct (drop k pat) as [|d v] eqn:E.
    + apply (f_equal length) in E. rewrite length_drop in E. simpl in E. lia.
    + cbn [startsWith].
      assert (Hd : d <> c).
      { assert (Hin : Forall (fun d => d <> c) (drop k pat)) by by apply Forall_drop.
        rewrite E in Hin. by inversion Hin. }
      destruct (N.eqb_spec c d) as [-> | _]; [congruence | reflexivity].
Qed.

End Literal.

(** ** The bold pattern *)

Lemma run_no_star_prefix (t : jsstring) :
  t = run_no_star t ++ drop (length (run_no_star t)) t.
Proof.
  induction t as [|c t IH]; [reflexivity |].
  cbn [run_no_star]. destruct (c =? star)%N; [reflexivity |].
  cbn [length drop app]. by rewrite <- IH.
Qed.


Lemma rx_bold_prefix s m caps :
  rx_bold s = Some (m, caps) -> 1 <= length m /\ s = m ++ drop (length m) s.
Proof.
  unfold rx_bold. destruct (startsWith s [star; star]) eqn:E1; [|discriminate].
  set (phrase := run_no_star (drop 2 s)).
  destruct (truthy phrase && startsWith (drop (2 + length phrase) s) [star; star])
    eqn:E2; [|discriminate].
  intros [= <- <-]. split; [simpl; lia |].
  apply andb_true_iff in E2. destruct E2 as [_ E2].
  apply startsWith_true in E1. apply startsWith_true in E2.
  cbn [length] in E1, E2.
  pose proof (run_no_star_prefix (drop 2 s)) as Hp. fold phrase in Hp.
  rewrite drop_drop in Hp, E2.
  cbn [length app]. rewrite length_app. cbn [length].
  rewrite E1 at 1. cbn [app]. do 2 f_equal.
  rewrite Hp at 1. rewrite <- app_assoc. f_equal.
  rewrite E2 at 1. cbn [app]. do 3 f_equal.
Qed.

Lemma bold_template_closed m b b' a a' caps :
  getSubstitution m b a caps (js "$1:") = getSubstitution m b' a' caps (js "$1:").
Proof. reflexivity. Qed.

Local Abbreviation Bold := (replace_all rx_bold (js "$1:")).

Lemma bold_star_free (x y : jsstring) :
  Forall (fun c => c <> star) x -> Bold (x ++ y) = x ++ Bold y.
Proof.
  induction 1 as [|c x Hc _ IH]; [reflexivity |].
  cbn [app]. rewrite (replace_all_skip _ _ bold_template_closed); [by rewrite IH |].
  unfold rx_bold. cbn [startsWith]. apply N.eqb_neq in Hc. by rewrite Hc.
Qed.


(** ** Texts that a literal pattern cannot match *)

Section LiteralMore.

Variables pat rep : jsstring.
Hypothesis pat_not_empty : pat <> [].
Hypothesis rep_plain : Forall (fun c => c <> 36%N) rep.

Local Abbreviation R := (replace_all (rx_lit pat) rep).

Lemma startsWith_Forall (P : N -> Prop) s v :
  startsWith s v = true -> Forall P s -> Forall P v.
Proof.
  intros H Hs. apply startsWith_true in H. rewrite H in Hs.
  by apply Forall_app in Hs as [Hv _].
Qed.

(** A text that lacks a code unit of the pattern is left alone. *)
Lemma lit_fixed (P : N -> Prop) x :
  Forall P x -> ~ Forall P pat -> R x = x.
Proof.
  intros Hx Hpat. induction Hx as [|c x Hc Hx IH]; [reflexivity |].
  rewrite (lit_skip pat rep rep_plain); [by rewrite IH |].
  destruct (startsWith (c :: x) pat) eqn:E; [|reflexivity].
  exfalso. apply Hpat. apply (startsWith_Forall P _ _ E). by constructor.
Qed.


Hypothesis pat_one_line : Forall (fun d => d <> 10%N) pat.

Lemma lit_line_start x y : line_start x -> R (x ++ y) = R x ++ R y.
Proof.
  intros [-> | [x0 ->]]; [reflexivity |].
  rewrite <- app_assoc. cbn [app].
  rewrite !(lit_split_at pat rep pat_not_empty rep_plain 10%N) by exact pat_one_line.
  rewrite <- app_assoc. reflexivity.
Qed.

Lemma lit_line_start_keeps x : line_start x -> line_start (R x).
Proof.
  intros [-> | [x0 ->]]; [by left | right].
  rewrite (lit_split_at pat rep pat_not_empty rep_plain 10%N) by exact pat_one_line.
  eexists. reflexivity.
Qed.

End LiteralMore.

Lemma simplifyStructure_stages s :
  simplifyStructure s = uncheck (unbold (demote4 (demote3 s))).
Proof. reflexivity. Qed.

Ltac js_eval :=
  repeat match goal with
         | |- context [js ?s] =>
           let v := eval vm_compute in (js s) in change (js s) with v
         end.

Ltac units := js_eval; repeat constructor; try discriminate.

Lemma demote3_pat : js "### " <> []. Proof. units. Qed.
Lemma demote3_rep : Forall (fun c => c <> 36%N) (js "## "). Proof. units. Qed.
Lemma demote4_pat : js "#### " <> []. Proof. units. Qed.
Lemma demote4_rep : Forall (fun c => c <> 36%N) (js "### "). Proof. units. Qed.
Lemma uncheck_pat : js "- [ ]" <> []. Proof. units. Qed.
Lemma uncheck_rep : Forall (fun c => c <> 36%N) (js "-"). Proof. units. Qed.

(** What each stage does to the markers. *)






Lemma uncheck_h3 y : uncheck (js "### " ++ y) = js "### " ++ uncheck y.
Proof. apply (lit_absent _ _ uncheck_pat uncheck_rep). units. Qed.

Lemma unbold_star_free x y : star_free x -> unbold (x ++ y) = x ++ unbold y.
Proof. apply bold_star_free. Qed.

Lemma unbold_fixed x : star_free x -> unbold x = x.
Proof.
  intros H. rewrite <- (app_nil_r x) at 1. rewrite unbold_star_free by exact H.
  by rewrite app_nil_r.
Qed.

Lemma demote3_line x y :
  line_start x -> demote3 (x ++ y) = demote3 x ++ demote3 y /\ line_start (demote3 x).
Proof.
  intros H. split.
  - apply (lit_line_start _ _ demote3_pat demote3_rep); [units | exact H].
  - apply (lit_line_start_keeps _ _ demote3_pat demote3_rep); [units | exact H].
Qed.

Lemma demote4_line x y :
  line_start x -> demote4 (x ++ y) = demote4 x ++ demote4 y /\ line_start (demote4 x).
Proof.
  intros H. split.
  - apply (lit_line_start _ _ demote4_pat demote4_rep); [units | exact H].
  - apply (lit_line_start_keeps _ _ demote4_pat demote4_rep); [units | exact H].
Qed.

Lemma uncheck_line x y :
  line_start x -> uncheck (x ++ y) = uncheck x ++ uncheck y /\ line_start (uncheck x).
Proof.
  intros H. split.
  - apply (lit_line_start _ _ uncheck_pat uncheck_rep); [units | exact H].
  - apply (lit_line_start_keeps _ _ uncheck_pat uncheck_rep); [units | exact H].
Qed.

(** Single asterisks: the bold pattern finds nothing in such a text, and
    the heading rewrites keep the asterisks apart. *)





Section KeepsStarsApart.

Variables pat rep : jsstring.
Hypothesis pat_not_empty : pat <> [].
Hypothesis rep_plain : Forall (fun c => c <> 36%N) rep.
Hypothesis pat_no_star : star_free pat.
Hypothesis rep_no_star : star_free rep.
Hypothesis rep_not_empty : rep <> [].

Local Abbreviation R := (replace_all (rx_lit pat) rep).



End KeepsStarsApart.




Section AroundStars.

Variables pat rep : jsstring.
Hypothesis pat_not_empty : pat <> [].
Hypothesis rep_plain : Forall (fun c => c <> 36%N) rep.
Hypothesis pat_no_star : Forall (fun d => d <> star) pat.

Local Abbreviation R := (replace_all (rx_lit pat) rep).




End AroundStars.







(** ** Any context: the line of a heading marker *)

Lemma newlines_app x y : newlines (x ++ y) = newlines x + newlines y.
Proof. unfold newlines. by rewrite filter_app, length_app. Qed.

Lemma newlines_cons c x :
  newlines (c :: x) = (if bool_decide (c = 10%N) then 1 else 0) + newlines x.
Proof.
  unfold newlines. rewrite filter_cons. by case_bool_decide; case_decide.
Qed.

Lemma newlines_none x : Forall (fun c => c <> 10%N) x -> newlines x = 0.
Proof.
  induction 1 as [|c x Hc _ IH]; [reflexivity |].
  rewrite newlines_cons, IH. by rewrite bool_decide_eq_false_2.
Qed.

Lemma line_start_last x : line_start x <-> x = [] \/ last x = Some 10%N.
Proof.
  unfold line_start. split; intros [-> | H]; auto; right.
  - destruct H as [x0 ->]. apply last_snoc.
  - by apply last_Some in H.
Qed.

Lemma line_start_tail x y :
  line_start (x ++ y) -> y <> [] -> line_start y.
Proof.
  rewrite !line_start_last. intros [H | H] Hy.
  - apply app_eq_nil in H as [_ ->]. by left.
  - right. rewrite last_app in H. destruct (last y) eqn:E; [exact H |].
    apply last_None in E. congruence.
Qed.

Lemma line_start_not_star x :
  line_start (x ++ [star]) -> False.
Proof.
  rewrite line_start_last. intros [H | H].
  - by destruct x.
  - rewrite last_snoc in H. discriminate H.
Qed.

Lemma line_start_cons c x : line_start x -> x <> [] -> line_start (c :: x).
Proof.
  rewrite !line_start_last. intros [-> | H] Hx; [congruence |].
  right. rewrite last_cons, H. reflexivity.
Qed.

Lemma line_start_app x y : line_start y -> y <> [] -> line_start (x ++ y).
Proof.
  rewrite !line_start_last. intros [-> | H] Hy; [congruence |].
  right. by rewrite last_app, H.
Qed.

Lemma line_start_newlines x : line_start x -> x <> [] -> 0 < newlines x.
Proof.
  intros [-> | [x0 ->]] Hx; [congruence |].
  rewrite newlines_app, newlines_cons. rewrite bool_decide_eq_true_2 by reflexivity.
  lia.
Qed.

Section LiteralLines.

Variables pat rep : jsstring.
Hypothesis pat_not_empty : pat <> [].
Hypothesis rep_plain : Forall (fun c => c <> 36%N) rep.
Hypothesis pat_one_line : Forall (fun d => d <> 10%N) pat.
Hypothesis rep_one_line : Forall (fun d => d <> 10%N) rep.

Lemma lit_newlines x : newlines (replace_all (rx_lit pat) rep x) = newlines x.
Proof.
  revert x. apply (lit_ind pat pat_not_empty).
  - reflexivity.
  - intros s Hs IH. rewrite (lit_match pat rep pat_not_empty rep_plain s Hs).
    apply startsWith_true in Hs. rewrite Hs at 2.
    rewrite !newlines_app, IH.
    by rewrite (newlines_none rep), (newlines_none pat).
  - intros c t Hs IH. rewrite (lit_skip pat rep rep_plain c t Hs).
    by rewrite !newlines_cons, IH.
Qed.

End LiteralLines.

(** Two readings of one text: a bold match followed by [r], and [a]
    followed by a marker without asterisks. *)
Lemma align_phrase (r m b : jsstring) :
  star_free m -> m <> [] ->
  forall ph a2,
    star_free ph ->
    ph ++ [star; star] ++ r = a2 ++ m ++ b ->
    (exists a4, a2 = ph ++ [star; star] ++ a4 /\ r = a4 ++ m ++ b)
    \/ (exists bp, ph = a2 ++ m ++ bp /\ b = bp ++ [star; star] ++ r).
Proof.
  intros Hm Hne.
  assert (Hhead : forall t, star :: t = m ++ b -> False).
  { intros t H. destruct m as [|c m']; [congruence |].
    inversion Hm; subst. injection H as <- _. congruence. }
  assert (Hfit : forall m' x b', star_free m' -> star_free x ->
             x ++ [star; star] ++ r = m' ++ b' ->
             exists bp, x = m' ++ bp /\ b' = bp ++ [star; star] ++ r).
  { induction m' as [|d m' IH]; intros x b' Hm' Hx H.
    - exists x. auto.
    - inversion Hm'; subst. destruct x as [|e x]; cbn [app] in H.
      + injection H as H _. congruence.
      + injection H as -> H. inversion Hx; subst.
        destruct (IH x b' ltac:(assumption) ltac:(assumption) H) as (bp & -> & ->).
        exists bp. auto. }
  induction ph as [|c ph IH]; intros a2 Hph H.
  - cbn [app] in H. destruct a2 as [|z1 [|z2 a4]]; cbn [app] in H.
    + destruct (Hhead _ H).
    + injection H as <- H. destruct (Hhead _ H).
    + injection H as <- <- H. left. exists a4. auto.
  - inversion Hph; subst. destruct a2 as [|z a2]; cbn [app] in H.
    + right. destruct (Hfit m (c :: ph) b Hm Hph H) as (bp & Hp & Hb).
      exists bp. auto.
    + injection H as <- H.
      destruct (IH a2 ltac:(assumption) H) as [(a4 & -> & ->) | (bp & -> & ->)].
      * left. exists a4. auto.
      * right. exists bp. auto.
Qed.

Lemma run_no_star_free t : star_free (run_no_star t).
Proof.
  induction t as [|c t IH]; cbn [run_no_star]; [constructor |].
  destruct (N.eqb_spec c star); constructor; assumption.
Qed.

Lemma rx_bold_inv s m caps :
  rx_bold s = Some (m, caps) ->
  exists ph, m = [star; star] ++ ph ++ [star; star] /\ caps = [Some ph]
             /\ ph <> [] /\ star_free ph.
Proof.
  unfold rx_bold. destruct (startsWith s [star; star]); [|discriminate].
  set (ph := run_no_star (drop 2 s)).
  destruct (truthy ph) eqn:Et; [|discriminate]. cbn [andb].
  destruct (startsWith _ _); [|discriminate].
  intros [= <- <-]. exists ph. repeat split.
  - by apply truthy_spec.
  - apply run_no_star_free.
Qed.

Ltac count_newlines :=
  repeat (rewrite newlines_app || rewrite newlines_cons);
  rewrite ?bool_decide_eq_false_2 by (unfold star; discriminate);
  change (newlines []) with 0.

Ltac list_eq :=
  cbn [app]; rewrite <- ?app_assoc; cbn [app]; rewrite ?app_nil_r; reflexivity.

Lemma unbold_keeps_marker (m : jsstring) :
  star_free m -> m <> [] ->
  forall s a b,
    s = a ++ m ++ b -> line_start a ->
    exists a' b',
      unbold s = a' ++ m ++ b' /\ line_start a' /\ newlines a' = newlines a.
Proof.
  intros Hm Hne.
  apply (replace_all_ind rx_bold rx_bold_prefix
           (fun s => forall a b, s = a ++ m ++ b -> line_start a ->
              exists a' b', unbold s = a' ++ m ++ b' /\ line_start a'
                            /\ newlines a' = newlines a)).
  - intros a b H. symmetry in H. apply app_eq_nil in H as [_ H].
    apply app_eq_nil in H as [H _]. congruence.
  - intros s mm caps Hrx IH a b Hs Hline.
    destruct (rx_bold_inv _ _ _ Hrx) as (ph & -> & -> & Hph & Hfree).
    destruct (rx_bold_prefix _ _ _ Hrx) as [_ Hpre].
    unfold unbold at 1.
    rewrite (replace_all_match _ _ rx_bold_prefix bold_template_closed _ _ _ Hrx).
    rewrite getSubstitution_capture. fold unbold.
    set (r := drop (length ([star; star] ++ ph ++ [star; star])) s) in *.
    rewrite Hs in Hpre. rewrite <- !app_assoc in Hpre.
    destruct a as [|x [|y a2]]; cbn [app] in Hpre.
    + destruct m as [|c m']; [congruence |]. inversion Hm; subst.
      injection Hpre as -> _. congruence.
    + injection Hpre as -> Hpre. destruct m as [|c m']; [congruence |].
      inversion Hm; subst. injection Hpre as -> _. congruence.
    + injection Hpre as -> -> Hpre. symmetry in Hpre.
      destruct (align_phrase r m b Hm Hne ph a2 Hfree Hpre)
        as [(a4 & -> & Hr) | (bp & -> & ->)].
      * (* the match ends inside [a] *)
        assert (Ha4 : a4 <> []).
        { intros ->. apply (line_start_not_star (star :: star :: ph ++ [star])).
          replace ((star :: star :: ph ++ [star]) ++ [star])
            with (star :: star :: ph ++ [star; star] ++ []) by list_eq.
          exact Hline. }
        assert (Hline4 : line_start a4).
        { apply (line_start_tail (star :: star :: ph ++ [star; star]) a4);
            [| exact Ha4].
          replace ((star :: star :: ph ++ [star; star]) ++ a4)
            with (star :: star :: ph ++ [star; star] ++ a4) by list_eq.
          exact Hline. }
        destruct (IH a4 b Hr Hline4) as (a' & b' & -> & Hl' & Hn').
        exists (ph ++ [58%N] ++ a'), b'. split; [by rewrite <- !app_assoc |].
        assert (Ha' : a' <> []).
        { intros ->. pose proof (line_start_newlines a4 Hline4 Ha4).
          change (newlines []) with 0 in Hn'. lia. }
        split.
        -- rewrite app_assoc. by apply line_start_app.
        -- count_newlines. lia.
      * (* the marker lies inside the phrase *)
        exists a2, (bp ++ [58%N] ++ unbold r).
        split; [by rewrite <- !app_assoc |].
        assert (Ha2 : a2 <> []).
        { intros ->. apply (line_start_not_star [star]). exact Hline. }
        split.
        -- by apply (line_start_tail [star; star] a2).
        -- count_newlines. lia.
  - intros c t Hrx IH a b Hs Hline.
    unfold unbold at 1.
    rewrite (replace_all_skip _ _ bold_template_closed _ _ Hrx). fold unbold.
    destruct a as [|x a1]; cbn [app] in Hs.
    + exists [], (unbold b). split; [| split; [by left | reflexivity]].
      cbn [app]. rewrite <- (unbold_star_free m b Hm), <- Hs. unfold unbold.
      by rewrite (replace_all_skip _ _ bold_template_closed _ _ Hrx).
    + injection Hs as <- Hs.
      assert (Hline1 : line_start a1).
      { destruct a1 as [|y a1']; [by left |].
        by apply (line_start_tail [c] (y :: a1')). }
      destruct (IH a1 b Hs Hline1) as (a' & b' & -> & Hl' & Hn').
      exists (c :: a'), b'. split; [reflexivity |]. split.
      * destruct a1 as [|y a1'].
        -- destruct a' as [|z a'']; [exact Hline |].
           by apply line_start_cons.
        -- assert (Ha' : a' <> []).
           { intros ->. pose proof (line_start_newlines (y :: a1') Hline1 ltac:(done)).
             change (newlines []) with 0 in Hn'. lia. }
           by apply line_start_cons.
      * count_newlines. lia.
Qed.

Lemma demote3_newlines x : newlines (demote3 x) = newlines x.
Proof. apply (lit_newlines _ _ demote3_pat demote3_rep); units. Qed.

Lemma demote4_newlines x : newlines (demote4 x) = newlines x.
Proof. apply (lit_newlines _ _ demote4_pat demote4_rep); units. Qed.

Lemma uncheck_newlines x : newlines (uncheck x) = newlines x.
Proof. apply (lit_newlines _ _ uncheck_pat uncheck_rep); units. Qed.



Example simplify_sample :
  simplifyStructure (js "### a\n#### b\n**bold** x\n- [ ] y")
  = js "## a\n### b\nbold: x\n- y".
Proof. reflexivity. Qed.



(* ===================================================================== *)
(** * Further properties of the optimizer and the generator *)
(* ===================================================================== *)

(** ** Lines *)

Lemma split_nl_not_nil (s : jsstring) : split_nl s <> [].
Proof.
  induction s as [|c t IH]; cbn [split_nl]; [discriminate|].
  destruct (split_nl t); [congruence|]. destruct (c =? 10)%N; discriminate.
Qed.

Lemma split_nl_length (s : jsstring) : length (split_nl s) = S (newlines s).
Proof.
  induction s as [|c t IH]; [reflexivity|].
  rewrite newlines_cons. cbn [split_nl].
  destruct (split_nl t) as [|l ls] eqn:E; [by destruct (split_nl_not_nil t)|].
  case_bool_decide as Hc.
  - subst c. cbn. cbn in IH. lia.
  - apply N.eqb_neq in Hc. rewrite Hc. cbn. cbn in IH. lia.
Qed.

Lemma lineCount_newlines (s : jsstring) : lineCount s = (Z.of_nat (newlines s) + 1)%Z.
Proof. unfold lineCount. rewrite split_nl_length. lia. Qed.

Lemma join_split (s : jsstring) : join [10%N] (split_nl s) = s.
Proof.
  induction s as [|c t IH]; [reflexivity|].
  cbn [split_nl].
  destruct (split_nl t) as [|l ls] eqn:E; [by destruct (split_nl_not_nil t)|].
  destruct (c =? 10)%N eqn:Hc.
  - apply N.eqb_eq in Hc. subst c.
    change (join [10%N] ([] :: l :: ls)) with (10%N :: join [10%N] (l :: ls)).
    by rewrite IH.
  - destruct ls; cbn [join app] in *; by rewrite <- IH.
Qed.

Lemma split_nl_line (x : jsstring) :
  Forall (fun c => c <> 10%N) x -> split_nl x = [x].
Proof.
  induction 1 as [|c t Hc _ IH]; [reflexivity|].
  cbn [split_nl]. rewrite IH. apply N.eqb_neq in Hc. by rewrite Hc.
Qed.

Lemma split_nl_app (a b : jsstring) :
  split_nl (a ++ 10%N :: b) = split_nl a ++ split_nl b.
Proof.
  induction a as [|c t IH]; cbn [app split_nl].
  - destruct (split_nl b) eqn:E; [by destruct (split_nl_not_nil b)|]. reflexivity.
  - rewrite IH. destruct (split_nl t) as [|l ls] eqn:E; [by destruct (split_nl_not_nil t)|].
    cbn [app]. by destruct (c =? 10)%N.
Qed.

Lemma split_nl_lines (s : jsstring) :
  Forall (Forall (fun c => c <> 10%N)) (split_nl s).
Proof.
  induction s as [|c t IH]; cbn [split_nl]; [by repeat constructor|].
  destruct (split_nl t) as [|l ls] eqn:E; [by destruct (split_nl_not_nil t)|].
  inversion IH; subst.
  destruct (c =? 10)%N eqn:Hc; repeat constructor; auto.
  by apply N.eqb_neq in Hc.
Qed.

Lemma split_join (ls : list jsstring) :
  ls <> [] -> Forall (Forall (fun c => c <> 10%N)) ls ->
  split_nl (join [10%N] ls) = ls.
Proof.
  induction ls as [|l ls IH]; [congruence|]. intros _ H. inversion H; subst.
  destruct ls as [|l' ls'].
  - cbn [join]. by apply split_nl_line.
  - change (join [10%N] (l :: l' :: ls')) with (l ++ 10%N :: join [10%N] (l' :: ls')).
    rewrite split_nl_app, split_nl_line by assumption.
    rewrite IH by (auto; discriminate). reflexivity.
Qed.

Lemma join_length_lower (ls : list jsstring) :
  length ls <= S (length (join [10%N] ls)).
Proof.
  induction ls as [|l ls IH]; [cbn; lia|].
  destruct ls as [|l' ls']; [cbn; lia|].
  change (join [10%N] (l :: l' :: ls')) with (l ++ 10%N :: join [10%N] (l' :: ls')).
  rewrite length_app. cbn [length] in *. lia.
Qed.

Lemma join_take_length (ls : list jsstring) (k : nat) :
  1 <= k <= length ls ->
  length (join [10%N] (take k ls)) + (length ls - k) <= length (join [10%N] ls).
Proof.
  revert k. induction ls as [|l ls IH]; intros k Hk; cbn [length] in Hk; [lia|].
  destruct k as [|k]; [lia|]. cbn [take].
  destruct ls as [|l' ls'].
  - cbn [length] in *. assert (k = 0) by lia. subst. cbn. lia.
  - change (join [10%N] (l :: l' :: ls'))
      with (l ++ 10%N :: join [10%N] (l' :: ls')).
    destruct k as [|k].
    + cbn [take]. change (join [10%N] [l]) with l.
      pose proof (join_length_lower (l' :: ls')).
      rewrite length_app. cbn [length] in *. lia.
    + specialize (IH (S k) ltac:(cbn [length] in *; lia)).
      change (join [10%N] (l :: take (S k) (l' :: ls')))
        with (l ++ 10%N :: join [10%N] (take (S k) (l' :: ls'))).
      rewrite !length_app. cbn [length] in *. lia.
Qed.

(** ** truncateByLines *)

Lemma truncateByLines_within (prompt : jsstring) (maxLines : Z) :
  (lineCount prompt <= maxLines)%Z -> truncateByLines prompt maxLines = prompt.
Proof.
  intros H. unfold truncateByLines. fold (lineCount prompt).
  by rewrite (proj2 (Z.leb_le _ _) H).
Qed.

Lemma truncateByLines_over (prompt : jsstring) (maxLines : Z) :
  (lineCount prompt > maxLines)%Z ->
  truncateByLines prompt maxLines
  = join [10%N] (slice0 (split_nl prompt) (maxLines - 2)) ++ 10%N :: 10%N :: marker_line.
Proof.
  intros H. unfold truncateByLines. fold (lineCount prompt).
  rewrite (proj2 (Z.leb_gt _ _)) by lia. reflexivity.
Qed.

Lemma truncateByLines_split (prompt : jsstring) (maxLines : Z) :
  (3 <= maxLines)%Z -> (lineCount prompt > maxLines)%Z ->
  split_nl (truncateByLines prompt maxLines)
  = take (Z.to_nat (maxLines - 2)) (split_nl prompt) ++ [[]; marker_line].
Proof.
  intros H3 H. rewrite truncateByLines_over by assumption.
  unfold slice0. rewrite (proj2 (Z.ltb_ge _ _)) by lia.
  rewrite split_nl_app. f_equal.
  apply split_join.
  - unfold lineCount in H. destruct (split_nl prompt); [cbn in H; lia|].
    destruct (Z.to_nat (maxLines - 2)) eqn:E; [lia|]. discriminate.
  - apply Forall_take, split_nl_lines.
Qed.

Lemma truncateByLines_count (prompt : jsstring) (maxLines : Z) :
  (3 <= maxLines)%Z -> (lineCount prompt > maxLines)%Z ->
  lineCount (truncateByLines prompt maxLines) = maxLines.
Proof.
  intros H3 H. unfold lineCount in *.
  rewrite truncateByLines_split by assumption.
  rewrite length_app, length_take. cbn [length]. lia.
Qed.

(** X3.  For a limit of at least 3 lines, a document with more lines comes
    back with exactly that many: its first [maxLines - 2] lines, an empty
    line and the marker line.  Truncating again changes nothing. *)
Theorem truncateByLines_limit (prompt : jsstring) (maxLines : Z) :
  (3 <= maxLines)%Z -> (lineCount prompt > maxLines)%Z ->
  split_nl (truncateByLines prompt maxLines)
  = take (Z.to_nat (maxLines - 2)) (split_nl prompt) ++ [[]; marker_line]
  /\ lineCount (truncateByLines prompt maxLines) = maxLines
  /\ truncateByLines (truncateByLines prompt maxLines) maxLines
     = truncateByLines prompt maxLines.
Proof.
  intros H3 H. pose proof (truncateByLines_count prompt maxLines H3 H) as Hn.
  repeat split; [by apply truncateByLines_split | exact Hn |].
  apply truncateByLines_within. lia.
Qed.

(** Five lines cut to three. *)
Lemma truncateByLines_limit_witness :
  lineCount (truncateByLines (js "a\nb\nc\nd\ne") 3) = 3%Z.
Proof.
  apply (truncateByLines_limit (js "a\nb\nc\nd\ne") 3); [lia | vm_compute; reflexivity].
Defined.

(** X4.  Below 3 the limit is not met: with a limit of 2 the result is an
    empty line, an empty line and the marker (3 lines), and with a limit
    of 1 the result has one line more than the document. *)
Theorem truncateByLines_small_limit (prompt : jsstring) :
  (lineCount prompt > 2)%Z ->
  truncateByLines prompt 2 = 10%N :: 10%N :: marker_line
  /\ lineCount (truncateByLines prompt 2) = 3%Z
  /\ lineCount (truncateByLines prompt 1) = (lineCount prompt + 1)%Z.
Proof.
  intros H.
  assert (H2 : truncateByLines prompt 2 = 10%N :: 10%N :: marker_line).
  { rewrite truncateByLines_over by lia. reflexivity. }
  repeat split; [exact H2 | rewrite H2; reflexivity |].
  rewrite truncateByLines_over by lia.
  unfold lineCount at 1. rewrite split_nl_app.
  unfold slice0. change (1 - 2 <? 0)%Z with true. cbn match.
  rewrite split_join.
  - change (split_nl (10%N :: marker_line)) with [[]; marker_line].
    rewrite length_app, length_take. unfold lineCount in *. cbn [length]. lia.
  - unfold lineCount in H. destruct (split_nl prompt) as [|l [|l' ls]]; cbn in H; try lia.
    replace (Z.to_nat (Z.of_nat (length (l :: l' :: ls)) + (1 - 2))) with (S (length ls))
      by (cbn [length]; lia).
    discriminate.
  - apply Forall_take, split_nl_lines.
Qed.

(** Three lines under a limit of one line come back as four. *)
Lemma truncateByLines_small_limit_witness :
  lineCount (truncateByLines (js "a\nb\nc") 1) = (lineCount (js "a\nb\nc") + 1)%Z.
Proof.
  apply (truncateByLines_small_limit (js "a\nb\nc")). vm_compute. reflexivity.
Defined.

(** ** The ollama procedure *)

Lemma truncateByLines_length (doc : jsstring) (n : Z) :
  (3 <= n)%Z -> (lineCount doc > n)%Z ->
  (strlen (truncateByLines doc n) + (lineCount doc - n) <= strlen doc + 38)%Z.
Proof.
  intros H3 H. rewrite truncateByLines_over by assumption.
  unfold slice0. rewrite (proj2 (Z.ltb_ge _ _)) by lia.
  unfold lineCount in *.
  pose proof (join_take_length (split_nl doc) (Z.to_nat (n - 2)) ltac:(lia)) as Hj.
  rewrite join_split in Hj.
  unfold strlen. rewrite length_app. cbn [length].
  change (length marker_line) with 38. lia.
Qed.

(** X5.  Whatever the prompt, the ollama procedure returns at most 300 lines
    and at most 8037 code units.  The bound is reached: the line pass runs
    after the character pass and can add up to 37 code units to a document
    of 8000. *)
Theorem ollama_output_bounds :
  (forall prompt config,
     platform config = js "ollama" ->
     exists r,
       optimize new_PlatformOptimizer prompt config = Some r
       /\ (lineCount (optimizedPrompt r) <= 300)%Z
       /\ (strlen (optimizedPrompt r) <= 8037)%Z)
  /\ (exists r,
        optimize new_PlatformOptimizer tight_lines (request (js "ollama")) = Some r
        /\ strlen (optimizedPrompt r) = 8037%Z).
Proof.
  split.
  - intros prompt config Hp.
    destruct (optimize_dispatch new_PlatformOptimizer prompt config)
      as [(Hq & _) | [(Hq & _) | [(_ & -> & _) | (_ & _ & Hq & _)]]];
      try (rewrite Hp in Hq; vm_compute in Hq; discriminate Hq);
      try contradiction.
    destruct (optimizeForOllama_new prompt config) as (l & r & _ & -> & Hdoc & _).
    exists r. split; [reflexivity |]. cbv zeta in Hdoc. rewrite Hdoc.
    set (cut := after_character_pass 8000 (ollamaTransform l prompt)).
    assert (Hcut : (strlen cut <= 8000)%Z).
    { apply after_character_pass_bound. change (strlen truncationMessage) with 40%Z. lia. }
    destruct (Z.gtb_spec (lineCount cut) 300) as [Hover | Hin].
    + pose proof (truncateByLines_count cut 300 ltac:(lia) ltac:(lia)).
      pose proof (truncateByLines_length cut 300 ltac:(lia) ltac:(lia)).
      lia.
    + lia.
  - destruct (optimize_dispatch new_PlatformOptimizer tight_lines (request (js "ollama")))
      as [(Hq & _) | [(Hq & _) | [(_ & -> & _) | (_ & _ & Hq & _)]]];
      try (vm_compute in Hq; discriminate Hq);
      try (exfalso; apply Hq; reflexivity).
    destruct (optimizeForOllama_new tight_lines (request (js "ollama")))
      as (l & r & Hl & -> & Hdoc & _).
    exists r. split; [reflexivity |]. cbv zeta in Hdoc. rewrite Hdoc.
    vm_compute in Hl. injection Hl as <-.
    vm_compute. reflexivity.
Qed.

(** The document of 301 short lines for the ollama destination. *)
Lemma ollama_output_bounds_witness :
  exists r,
    optimize new_PlatformOptimizer many_short_lines (request (js "ollama")) = Some r
    /\ (lineCount (optimizedPrompt r) <= 300)%Z
    /\ (strlen (optimizedPrompt r) <= 8037)%Z.
Proof.
  destruct ollama_output_bounds as (H & _).
  apply (H many_short_lines (request (js "ollama"))). reflexivity.
Defined.

(** ** Truncation, once more *)

Lemma truncatePrompt_within (prompt : jsstring) (maxChars : Z) :
  (strlen prompt <= maxChars)%Z -> truncatePrompt prompt maxChars = prompt.
Proof.
  intros H. unfold truncatePrompt. by rewrite (proj2 (Z.leb_le _ _) H).
Qed.

Lemma substring_0 (s : jsstring) (b : Z) : substring s 0 b = take (clamp s b) s.
Proof.
  unfold substring. change (clamp s 0) with (Nat.min 0 (length s)).
  rewrite !Nat.min_0_l, Nat.max_0_l, Nat.sub_0_r. reflexivity.
Qed.

Lemma substring_0_negative (s : jsstring) (b : Z) : (b <= 0)%Z -> substring s 0 b = [].
Proof.
  intros H. rewrite substring_0. unfold clamp.
  replace (Z.to_nat b) with 0 by lia. reflexivity.
Qed.

Lemma truncatePrompt_tiny (prompt : jsstring) (maxChars : Z) :
  (maxChars <= strlen truncationMessage)%Z -> (strlen prompt > maxChars)%Z ->
  truncatePrompt prompt maxChars = truncationMessage.
Proof.
  change (strlen truncationMessage) with 40%Z.
  intros Hm Hlong. unfold truncatePrompt.
  destruct (Z.leb_spec (strlen prompt) maxChars) as [Hle | _]; [lia |].
  change (strlen truncationMessage) with 40%Z.
  set (footerLength :=
         match footer_match prompt with Some f => strlen f | None => 0%Z end).
  assert (Hf : (0 <= footerLength)%Z).
  { unfold footerLength. destruct (footer_match prompt); [apply strlen_nonneg | lia]. }
  pose proof (strlen_nonneg prompt) as Hn.
  destruct (num_lt _ _) eqn:E.
  - rewrite (substring_0_negative prompt) by lia.
    change (lastIndexOf [] (js "\n\n")) with (-1)%Z.
    rewrite (substring_0_negative []) by lia.
    by destruct (num_gt _ _).
  - destruct (Z.gtb_spec (maxChars - 40 - footerLength - core_header prompt) 0)
      as [Hpos | Hneg]; fold (core_header prompt).
    + exfalso.
      assert (Hlt : num_lt (num (maxChars - 40 - footerLength))
                      (num (strlen prompt) * (3 # 10)) = true).
      { apply num_lt_spec.
        assert (0 <= core_header prompt)%Z
          by (unfold core_header; destruct (core_header_length prompt); lia).
        lia. }
      congruence.
    + rewrite Z.gtb_ltb, (proj2 (Z.ltb_ge _ _)) by lia.
      by rewrite (substring_0_negative prompt) by lia.
Qed.

(** X1.  Truncating twice is truncating once: for every document and every
    ceiling, [truncatePrompt] applied to its own result with the same
    ceiling returns that result. *)
Theorem truncatePrompt_idempotent (prompt : jsstring) (maxChars : Z) :
  truncatePrompt (truncatePrompt prompt maxChars) maxChars
  = truncatePrompt prompt maxChars.
Proof.
  destruct (Z.le_gt_cases (strlen prompt) maxChars) as [Hle | Hgt].
  - rewrite (truncatePrompt_within prompt maxChars Hle). by apply truncatePrompt_within.
  - destruct (Z.le_gt_cases (strlen truncationMessage) maxChars) as [Hm | Hm].
    + apply truncatePrompt_within, truncatePrompt_bound; [assumption | lia].
    + rewrite (truncatePrompt_tiny prompt) by lia.
      apply truncatePrompt_tiny; [lia |].
      change (strlen truncationMessage) with 40%Z in *. lia.
Qed.

Lemma substring_span (s : jsstring) (a d : Z) :
  (0 <= a)%Z -> (0 <= d)%Z ->
  substring s a (a + d) = take (clamp s (a + d) - clamp s a) (drop (clamp s a) s).
Proof.
  intros Ha Hd. unfold substring.
  assert (clamp s a <= clamp s (a + d)) by (unfold clamp; lia).
  rewrite Nat.min_l, Nat.max_r by assumption. reflexivity.
Qed.

Lemma clamp_bound (s : jsstring) (b : Z) : (Z.of_nat (clamp s b) <= Z.max 0 b)%Z.
Proof. unfold clamp. lia. Qed.

(** X2.  What a truncation keeps.  A document longer than the ceiling comes
    back as a prefix of itself followed by the marker, and the text from
    [## Usage Instructions] on is put after the marker exactly when the
    room it leaves (ceiling - marker - footer) is at least 30% of the document
    and more than the core header; otherwise that footer is dropped. *)
Theorem truncatePrompt_keeps (prompt : jsstring) (maxChars : Z) :
  (strlen prompt > maxChars)%Z ->
  let footer := match footer_match prompt with Some f => f | None => [] end in
  let room := (maxChars - strlen truncationMessage - strlen footer)%Z in
  ((3 * strlen prompt <= 10 * room)%Z /\ (core_header prompt < room)%Z
   /\ exists k, truncatePrompt prompt maxChars = take k prompt ++ truncationMessage ++ footer
                /\ (Z.of_nat k <= room)%Z)
  \/ (~ ((3 * strlen prompt <= 10 * room)%Z /\ (core_header prompt < room)%Z)
      /\ exists k, truncatePrompt prompt maxChars = take k prompt ++ truncationMessage
                   /\ (Z.of_nat k <= Z.max 0 (maxChars - strlen truncationMessage))%Z).
Proof.
  intros Hlong footer room. unfold truncatePrompt.
  destruct (Z.leb_spec (strlen prompt) maxChars) as [Hle | _]; [lia |].
  fold (core_header prompt).
  assert (Hfl : match footer_match prompt with Some f => strlen f | None => 0%Z end
                = strlen footer) by (unfold footer; by destruct (footer_match prompt)).
  rewrite Hfl. fold room.
  assert (Hh : (0 <= core_header prompt)%Z)
    by (unfold core_header; destruct (core_header_length prompt); lia).
  set (simple := (maxChars - strlen truncationMessage)%Z).
  destruct (num_lt (num room) _) eqn:E.
  - right. apply num_lt_spec in E. split; [lia |].
    rewrite substring_0.
    destruct (num_gt _ _).
    + rewrite substring_0, take_take. eexists. split; [reflexivity |].
      pose proof (clamp_bound prompt simple). lia.
    + eexists. split; [reflexivity |]. apply clamp_bound.
  - assert (Hroom : (3 * strlen prompt <= 10 * room)%Z).
    { destruct (Z.le_gt_cases (3 * strlen prompt) (10 * room)) as [|Hgt]; [assumption |].
      assert (num_lt (num room) (num (strlen prompt) * (3 # 10)) = true)
        by (apply num_lt_spec; lia).
      congruence. }
    destruct (Z.gtb_spec (room - core_header prompt) 0) as [Hpos | Hneg].
    + left. split; [exact Hroom |]. split; [lia |].
      rewrite substring_0, substring_span by lia.
      set (h := clamp prompt (core_header prompt)).
      set (e := clamp prompt (core_header prompt + (room - core_header prompt))).
      assert (Hhe : h <= e) by (unfold h, e, clamp; lia).
      assert (He : (Z.of_nat e <= room)%Z).
      { pose proof (clamp_bound prompt (core_header prompt + (room - core_header prompt))).
        fold e in H. lia. }
      match goal with
      | |- context [if ?c then _ else _] => destruct c
      end.
      * rewrite substring_0, take_take.
        rewrite (app_assoc (take h prompt)), take_take_drop.
        eexists. split; [reflexivity |]. lia.
      * rewrite (app_assoc (take h prompt)), take_take_drop.
        eexists. split; [reflexivity |]. lia.
    + right. split; [lia |].
      rewrite substring_0. eexists. split; [reflexivity |]. apply clamp_bound.
Qed.

(** A document of 130 code units under a ceiling of 110 keeps its usage
    section. *)
Lemma truncatePrompt_keeps_witness :
  let prompt := repeat 97%N 100 ++ js "\n\n## Usage Instructions\nrun it" in
  exists k,
    truncatePrompt prompt 110
    = take k prompt ++ truncationMessage ++ js "\n\n## Usage Instructions\nrun it".
Proof.
  intros prompt.
  destruct (truncatePrompt_keeps prompt 110) as [(_ & _ & k & Hk & _) | (Hno & _)].
  - vm_compute. reflexivity.
  - exists k. exact Hk.
  - exfalso. apply Hno. vm_compute. split; [discriminate | reflexivity].
Defined.

(** ** indexOf *)

Lemma indexOf_from_spec (s pat : jsstring) (i : Z) :
  (indexOf_from s pat i = (-1)%Z
   /\ forall n, n <= length s -> startsWith (drop n s) pat = false)
  \/ exists k, indexOf_from s pat i = (i + Z.of_nat k)%Z
               /\ k <= length s
               /\ startsWith (drop k s) pat = true
               /\ forall n, n < k -> startsWith (drop n s) pat = false.
Proof.
  revert i. induction s as [|c t IH]; intros i; cbn [indexOf_from].
  - destruct (startsWith [] pat) eqn:E.
    + right. exists 0. repeat split; [f_equal; lia | lia | exact E | lia].
    + left. split; [reflexivity |]. intros n _. by rewrite drop_nil.
  - destruct (startsWith (c :: t) pat) eqn:E.
    + right. exists 0. repeat split; [f_equal; lia | cbn; lia | exact E | lia].
    + destruct (IH (i + 1)%Z) as [(-> & Hno) | (k & -> & Hk & Hat & Hno)].
      * left. split; [reflexivity |]. intros [|n] Hn; [exact E |].
        cbn [drop]. apply Hno. cbn in Hn. lia.
      * right. exists (S k). repeat split; [lia | cbn; lia | exact Hat |].
        intros [|n] Hn; [exact E |]. cbn [drop]. apply Hno. lia.
Qed.

Lemma indexOf_found (s pat : jsstring) :
  (0 <= indexOf s pat)%Z ->
  let k := Z.to_nat (indexOf s pat) in
  k <= length s /\ startsWith (drop k s) pat = true
  /\ forall n, n < k -> startsWith (drop n s) pat = false.
Proof.
  unfold indexOf. intros H.
  destruct (indexOf_from_spec s pat 0) as [(E & _) | (k & E & Hk & Hat & Hno)];
    rewrite E in *; [lia |].
  cbn zeta. replace (Z.to_nat (0 + Z.of_nat k)) with k by lia. auto.
Qed.

Lemma indexOf_absent (s pat : jsstring) :
  (indexOf s pat < 0)%Z -> forall n, n <= length s -> startsWith (drop n s) pat = false.
Proof.
  unfold indexOf. intros H.
  destruct (indexOf_from_spec s pat 0) as [(E & Hno) | (k & E & _)];
    rewrite E in *; [exact Hno | lia].
Qed.

Lemma indexOf_prefix (s pat : jsstring) :
  startsWith s pat = true -> indexOf s pat = 0%Z.
Proof. unfold indexOf. destruct s; cbn [indexOf_from]; by intros ->. Qed.

Lemma includes_spec (s pat : jsstring) :
  includes s pat = true <-> exists a b, s = a ++ pat ++ b.
Proof.
  unfold includes. split.
  - intros H. apply Z.leb_le in H.
    destruct (indexOf_found s pat H) as (Hk & Hat & _).
    apply startsWith_true in Hat.
    eexists (take _ s), _. rewrite <- Hat. by rewrite take_drop.
  - intros (a & b & ->). apply Z.leb_le.
    destruct (Z.le_gt_cases 0 (indexOf (a ++ pat ++ b) pat)) as [|Hneg]; [assumption |].
    pose proof (indexOf_absent (a ++ pat ++ b) pat Hneg (length a)
                  ltac:(rewrite length_app; lia)) as Hno.
    rewrite drop_app_length in Hno.
    rewrite (proj2 (startsWith_true (pat ++ b) pat)) in Hno; [discriminate |].
    by rewrite drop_app_length.
Qed.

(** ** The header *)

Lemma first_occurrence (r pat : jsstring) :
  (0 <= indexOf r pat)%Z ->
  let i := Z.to_nat (indexOf r pat) in
  r = take i r ++ pat ++ drop (i + length pat) r
  /\ (pat <> [] ->
      includes (take i r ++ take (length pat - 1) pat) pat = false).
Proof.
  intros H i. destruct (indexOf_found r pat H) as (Hk & Hat & Hno). fold i in Hk, Hat, Hno.
  apply startsWith_true in Hat. rewrite drop_drop in Hat.
  split.
  - rewrite <- Hat. by rewrite take_drop.
  - intros Hpat. apply not_true_is_false. intros Hin.
    apply includes_spec in Hin as (a & b & Hab).
    assert (Hlen : length a < i).
    { apply (f_equal length) in Hab. rewrite !length_app, !length_take in Hab.
      destruct pat; [congruence |]. cbn [length] in *. lia. }
    specialize (Hno (length a) Hlen).
    assert (Hr : r = a ++ pat ++ b ++ drop (length pat - 1) pat ++ drop (i + length pat) r).
    { rewrite (app_assoc pat), (app_assoc a), <- Hab.
      rewrite <- !app_assoc. rewrite (app_assoc (take (length pat - 1) pat)), take_drop.
      rewrite <- Hat. by rewrite take_drop. }
    rewrite Hr, drop_app_length in Hno.
    rewrite (proj2 (startsWith_true _ pat)) in Hno; [discriminate |].
    by rewrite drop_app_length.
Qed.

Lemma header_match_shape (prompt h : jsstring) :
  header_match prompt = Some h ->
  exists title first rest,
    h = js "# " ++ title ++ js "\n\n" ++ first ++ js "\n\n"
    /\ prompt = h ++ rest
    /\ includes (title ++ js "\n") (js "\n\n") = false
    /\ includes (first ++ js "\n") (js "\n\n") = false.
Proof.
  unfold header_match.
  destruct (startsWith prompt (js "# ")) eqn:Hs; [| discriminate].
  apply startsWith_true in Hs. change (length (js "# ")) with 2 in Hs.
  set (r := drop 2 prompt) in *.
  destruct (Z.ltb_spec (indexOf r (js "\n\n")) 0) as [| Hi]; [discriminate |].
  set (i := Z.to_nat (indexOf r (js "\n\n"))).
  set (r2 := drop (i + 2) r).
  destruct (Z.ltb_spec (indexOf r2 (js "\n\n")) 0) as [| Hj]; [discriminate |].
  set (j := Z.to_nat (indexOf r2 (js "\n\n"))).
  intros [= <-].
  destruct (first_occurrence r (js "\n\n") Hi) as (Hr & Hmin1).
  destruct (first_occurrence r2 (js "\n\n") Hj) as (Hr2 & Hmin2).
  fold i in Hr, Hmin1. fold j in Hr2, Hmin2.
  change (length (js "\n\n")) with 2 in *. fold r2 in Hr.
  exists (take i r), (take j r2), (drop (j + 2) r2).
  assert (Hp : prompt = (js "# " ++ take i r ++ js "\n\n" ++ take j r2 ++ js "\n\n")
                          ++ drop (j + 2) r2).
  { rewrite <- !app_assoc. rewrite <- Hr2, <- Hr. exact Hs. }
  assert (Hh : take (2 + i + 2 + j + 2) prompt
               = js "# " ++ take i r ++ js "\n\n" ++ take j r2 ++ js "\n\n").
  { rewrite Hp at 1. rewrite take_app_length'; [reflexivity |].
    rewrite !length_app, !length_take.
    assert (i <= length r).
    { apply (f_equal length) in Hr. rewrite !length_app, length_take in Hr.
      change (length (js "\n\n")) with 2 in Hr. lia. }
    assert (j <= length r2).
    { apply (f_equal length) in Hr2. rewrite !length_app, length_take in Hr2.
      change (length (js "\n\n")) with 2 in Hr2. lia. }
    change (length (js "# ")) with 2. change (length (js "\n\n")) with 2. lia. }
  change (take _ prompt) with (take (2 + i + 2 + j + 2) prompt). rewrite Hh.
  split; [reflexivity | split; [exact Hp | split; [apply Hmin1 | apply Hmin2]; discriminate]].
Qed.

Lemma occurrence_in_prefix (s pat : jsstring) (k n : nat) :
  startsWith (drop k s) pat = true -> k + length pat <= n ->
  includes (take n s) pat = true.
Proof.
  intros Hat Hn. apply startsWith_true in Hat. rewrite drop_drop in Hat.
  apply includes_spec.
  destruct (decide (k <= length s)) as [Hk | Hk].
  - exists (take k s), (take (n - (k + length pat)) (drop (k + length pat) s)).
    rewrite <- (take_drop k s) at 1. rewrite Hat.
    rewrite take_app_ge by (rewrite length_take; lia).
    rewrite length_take, Nat.min_l by exact Hk. f_equal.
    rewrite take_app_ge by lia. f_equal. f_equal. lia.
  - rewrite drop_ge in Hat by lia. destruct pat; [| discriminate].
    exists (take n s), []. by rewrite app_nil_r.
Qed.

Lemma indexOf_first (a pat b : jsstring) :
  includes (a ++ take (length pat - 1) pat) pat = false ->
  indexOf (a ++ pat ++ b) pat = Z.of_nat (length a).
Proof.
  intros Hmin. unfold indexOf.
  assert (Hhere : startsWith (drop (length a) (a ++ pat ++ b)) pat = true).
  { rewrite drop_app_length. apply startsWith_true. by rewrite drop_app_length. }
  destruct (indexOf_from_spec (a ++ pat ++ b) pat 0)
    as [(_ & Hno) | (k & -> & Hk & Hat & Hno)].
  - rewrite Hno in Hhere; [discriminate | rewrite length_app; lia].
  - destruct (Nat.lt_trichotomy k (length a)) as [Hlt | [-> | Hgt]]; [| lia |].
    + exfalso.
      assert (pat <> []) as Hpat.
      { intros ->. cbn in Hmin. rewrite app_nil_r in Hmin.
        unfold includes, indexOf in Hmin. destruct a; discriminate. }
      pose proof (occurrence_in_prefix _ _ k (length a + (length pat - 1)) Hat) as Hin.
      rewrite take_app_ge in Hin by lia.
      replace (length a + (length pat - 1) - length a) with (length pat - 1) in Hin by lia.
      rewrite take_app_le in Hin by lia.
      rewrite Hin in Hmin; [discriminate |].
      destruct pat; [congruence | cbn [length]; lia].
    + by rewrite (Hno (length a) Hgt) in Hhere.
Qed.

(** X6.  The header that [insertAfterHeader] looks for is the title line
    [# ...] up to the first blank line together with the paragraph after
    it up to the next blank line: the match succeeds exactly when the
    prompt has this shape, and the two parts are the shortest ones. *)
Theorem header_match_spec (prompt h : jsstring) :
  header_match prompt = Some h
  <-> exists title first rest,
        h = js "# " ++ title ++ js "\n\n" ++ first ++ js "\n\n"
        /\ prompt = h ++ rest
        /\ includes (title ++ js "\n") (js "\n\n") = false
        /\ includes (first ++ js "\n") (js "\n\n") = false.
Proof.
  split; [apply header_match_shape |].
  intros (title & first & rest & -> & -> & Ht & Hf).
  rewrite <- !app_assoc.
  set (t2 := first ++ js "\n\n" ++ rest).
  set (t := title ++ js "\n\n" ++ t2).
  unfold header_match.
  assert (Hs : startsWith (js "# " ++ t) (js "# ") = true)
    by (apply startsWith_true; reflexivity).
  rewrite Hs. change (drop 2 (js "# " ++ t)) with t. cbv zeta.
  assert (Hi : indexOf t (js "\n\n") = Z.of_nat (length title))
    by (apply indexOf_first; exact Ht).
  assert (Hj : indexOf t2 (js "\n\n") = Z.of_nat (length first))
    by (apply indexOf_first; exact Hf).
  assert (Hd : drop (length title + 2) t = t2)
    by (unfold t; rewrite <- drop_drop, drop_app_length; reflexivity).
  rewrite !Hi, !Nat2Z.id, !Hd, !Hj, !Nat2Z.id.
  rewrite !(proj2 (Z.ltb_ge _ _)) by lia.
  f_equal.
  change (js "# " ++ t) with (35%N :: 32%N :: t).
  replace (2 + length title + 2 + length first + 2)
    with (S (S (length title + (2 + (length first + 2))))) by lia.
  cbn [take]. change (js "# " ++ ?x) with (35%N :: 32%N :: x). do 2 f_equal. unfold t, t2.
  rewrite take_app_add'; [| reflexivity]. f_equal.
  change (js "\n\n" ++ ?x) with (10%N :: 10%N :: x).
  change (2 + (length first + 2)) with (S (S (length first + 2))).
  cbn [take]. do 2 f_equal.
  rewrite take_app_add'; [| reflexivity].
  reflexivity.
Qed.

(** ** Insertion after the header *)

Lemma dollar_free_check (s : jsstring) :
  forallb (fun c => negb (c =? 36)%N) s = true -> dollar_free s.
Proof.
  induction s as [|c t IH]; cbn [forallb]; intros H; constructor.
  - apply andb_prop in H as [H _]. by apply negb_true_iff, N.eqb_neq in H.
  - apply IH. by apply andb_prop in H as [_ H].
Qed.

Lemma replace_str_prefix (str pat rep : jsstring) :
  startsWith str pat = true ->
  replace_str str pat rep
  = getSubstitution pat [] (drop (length pat) str) [] rep ++ drop (length pat) str.
Proof.
  intros H. unfold replace_str. rewrite (indexOf_prefix _ _ H). reflexivity.
Qed.

Lemma insertAfterHeader_header (prompt content h : jsstring) :
  header_match prompt = Some h ->
  dollar_free (h ++ content) ->
  exists rest,
    prompt = h ++ rest /\ insertAfterHeader prompt content = h ++ content ++ rest.
Proof.
  intros Hm Hfree. unfold insertAfterHeader. rewrite Hm.
  destruct (header_match_shape prompt h Hm) as (_ & _ & rest & _ & Hp & _).
  exists rest. split; [exact Hp |].
  assert (Hs : startsWith prompt h = true).
  { apply startsWith_true. rewrite Hp at 1. by rewrite Hp, drop_app_length. }
  rewrite (replace_str_prefix _ _ _ Hs), getSubstitution_plain by exact Hfree.
  rewrite Hp at 1. rewrite drop_app_length, <- app_assoc. reflexivity.
Qed.

(** X7.  When neither the header of the prompt nor the inserted text has a
    dollar sign, the insertion is exact: the result is the header, the
    text and the rest of the prompt (the text comes first when there is no
    header). *)
Theorem insertAfterHeader_exact (prompt content : jsstring) :
  dollar_free (header_of prompt ++ content) ->
  exists rest,
    prompt = header_of prompt ++ rest
    /\ insertAfterHeader prompt content = header_of prompt ++ content ++ rest.
Proof.
  unfold header_of. intros Hfree.
  destruct (header_match prompt) as [h |] eqn:Hm; cbn [default] in *.
  - by apply insertAfterHeader_header.
  - exists prompt. unfold insertAfterHeader. rewrite Hm. split; reflexivity.
Qed.

(** A title, an introduction and a body: the text goes between the
    introduction and the body. *)
Lemma insertAfterHeader_exact_witness :
  exists rest,
    js "# T\n\nintro\n\nbody" = header_of (js "# T\n\nintro\n\nbody") ++ rest
    /\ insertAfterHeader (js "# T\n\nintro\n\nbody") (js "P")
       = header_of (js "# T\n\nintro\n\nbody") ++ js "P" ++ rest.
Proof.
  apply (insertAfterHeader_exact (js "# T\n\nintro\n\nbody") (js "P")).
  apply dollar_free_check. vm_compute. reflexivity.
Defined.

(** X8.  For a destination other than cursor, claude and ollama, a prompt
    whose header has no dollar sign and that stays within 12000 code units
    with the preamble gets the preamble after its header and nothing
    else: no warning, one step. *)
Theorem universal_small_prompt (prompt : jsstring) (config : PromptGeneratorConfig) :
  platform config <> js "cursor" -> platform config <> js "claude" ->
  platform config <> js "ollama" ->
  dollar_free (header_of prompt) ->
  (strlen prompt + strlen universalPrefix <= 12000)%Z ->
  exists rest,
    prompt = header_of prompt ++ rest
    /\ optimize new_PlatformOptimizer prompt config
       = Some {| optimizedPrompt := header_of prompt ++ universalPrefix ++ rest;
                 warnings := [];
                 appliedOptimizations :=
                   [js "Added universal compatibility optimization"] |}.
Proof.
  intros H1 H2 H3 Hfree Hlen.
  assert (exists rest,
            prompt = header_of prompt ++ rest
            /\ insertAfterHeader prompt universalPrefix
               = header_of prompt ++ universalPrefix ++ rest)
    as (rest & Hp & Hins).
  { unfold header_of in *.
    destruct (header_match prompt) as [h |] eqn:Hm; cbn [default] in *.
    - apply insertAfterHeader_header; [exact Hm |].
      apply Forall_app. split; [exact Hfree |].
      apply dollar_free_check. vm_compute. reflexivity.
    - exists prompt. unfold insertAfterHeader. rewrite Hm. split; reflexivity. }
  exists rest. split; [exact Hp |].
  unfold optimize, eqb. rewrite !bool_decide_eq_false_2 by assumption.
  unfold optimizeForUniversal.
  destruct profile_universal as (l & -> & Hl). cbn [mbind option_bind].
  unfold universalTransform. rewrite Hl, Hins.
  unfold exceeds.
  rewrite Z.gtb_ltb, (proj2 (Z.ltb_ge _ _)); [reflexivity |].
  rewrite !strlen_app. rewrite Hp, strlen_app in Hlen. lia.
Qed.

(** The same prompt for the destination [windsurf]. *)
Lemma universal_small_prompt_witness :
  exists rest,
    js "# T\n\nintro\n\nbody" = header_of (js "# T\n\nintro\n\nbody") ++ rest
    /\ optimize new_PlatformOptimizer (js "# T\n\nintro\n\nbody") (request (js "windsurf"))
       = Some {| optimizedPrompt :=
                   header_of (js "# T\n\nintro\n\nbody") ++ universalPrefix ++ rest;
                 warnings := [];
                 appliedOptimizations :=
                   [js "Added universal compatibility optimization"] |}.
Proof.
  apply (universal_small_prompt (js "# T\n\nintro\n\nbody") (request (js "windsurf")));
    try (vm_compute; discriminate).
  apply dollar_free_check. vm_compute. reflexivity.
Defined.

(** ** Occurrences of a literal pattern *)

Section LiteralOccurs.

Variables pat rep : jsstring.
Hypothesis pat_not_empty : pat <> [].
Hypothesis rep_plain : Forall (fun c => c <> 36%N) rep.

Local Abbreviation R := (replace_all (rx_lit pat) rep).

Lemma lit_none s : includes s pat = false -> R s = s.
Proof.
  induction s as [| s Hs IH | c t Hs IH] using (lit_ind pat pat_not_empty); intros H.
  - reflexivity.
  - unfold includes in H. rewrite (indexOf_prefix _ _ Hs) in H. discriminate.
  - rewrite includes_cons, Hs in H. cbn [orb] in H.
    rewrite lit_skip by assumption. by rewrite IH.
Qed.

Lemma lit_first s :
  includes s pat = true ->
  exists a b, s = a ++ pat ++ b /\ R s = a ++ rep ++ R b.
Proof.
  induction s as [| s Hs IH | c t Hs IH] using (lit_ind pat pat_not_empty); intros H.
  - destruct pat; [congruence | discriminate].
  - exists [], (drop (length pat) s). split.
    + by apply startsWith_true.
    + by apply lit_match.
  - rewrite includes_cons, Hs in H. cbn [orb] in H.
    destruct (IH H) as (a & b & -> & HR).
    exists (c :: a), b. split; [reflexivity |].
    rewrite lit_skip by assumption. by rewrite HR.
Qed.

Lemma lit_grows s : length pat <= length rep -> length s <= length (R s).
Proof.
  intros Hlen.
  induction s as [| s Hs IH | c t Hs IH] using (lit_ind pat pat_not_empty).
  - cbn. lia.
  - rewrite lit_match by assumption. apply startsWith_true in Hs.
    rewrite Hs at 1. rewrite !length_app. lia.
  - rewrite lit_skip by assumption. cbn [length]. lia.
Qed.

Lemma lit_shrinks s : length rep <= length pat -> length (R s) <= length s.
Proof.
  intros Hlen.
  induction s as [| s Hs IH | c t Hs IH] using (lit_ind pat pat_not_empty).
  - cbn. lia.
  - rewrite lit_match by assumption. apply startsWith_true in Hs.
    rewrite Hs at 2. rewrite !length_app. lia.
  - rewrite lit_skip by assumption. cbn [length]. lia.
Qed.

Lemma lit_grows_strictly s :
  length pat < length rep -> includes s pat = true -> length s < length (R s).
Proof.
  intros Hlen H. destruct (lit_first s H) as (a & b & -> & ->).
  pose proof (lit_grows b ltac:(lia)). rewrite !length_app. lia.
Qed.

Lemma lit_unchanged s :
  length pat < length rep -> (R s = s <-> includes s pat = false).
Proof.
  intros Hlen. split.
  - intros Heq. destruct (includes s pat) eqn:E; [| reflexivity].
    pose proof (lit_grows_strictly s Hlen E) as Hlt. rewrite Heq in Hlt. lia.
  - apply lit_none.
Qed.

End LiteralOccurs.

(** ** The Cursor block and the objective note *)

Lemma enhanceCodeSections_eq prompt :
  enhanceCodeSections prompt
  = replace_all (rx_lit guidelines_heading) (cursor_block ++ guidelines_heading) prompt.
Proof. reflexivity. Qed.

Lemma guidelines_pat : guidelines_heading <> [].
Proof. discriminate. Qed.

Lemma guidelines_rep : Forall (fun c => c <> 36%N) (cursor_block ++ guidelines_heading).
Proof. apply dollar_free_check. vm_compute. reflexivity. Qed.

Lemma guidelines_no_straddle a b :
  no_straddle guidelines_heading a (guidelines_heading ++ b).
Proof.
  intros k Hk. apply andb_false_intro2.
  change (length guidelines_heading) with 28 in Hk.
  do 28 (destruct k as [|k]; [try lia; reflexivity |]). lia.
Qed.

(** X9.  [enhanceCodeSections] puts the Cursor block before every
    [## Implementation Guidelines] and keeps the heading, wherever it
    stands (also inside [### Implementation Guidelines]); a prompt without
    the heading is unchanged; with the heading the result is longer and
    still has it, so that a second application inserts the block again. *)
Theorem enhanceCodeSections_inserts :
  (forall a b,
     enhanceCodeSections (a ++ guidelines_heading ++ b)
     = enhanceCodeSections a ++ cursor_block ++ guidelines_heading
         ++ enhanceCodeSections b)
  /\ (forall prompt,
        includes prompt guidelines_heading = false ->
        enhanceCodeSections prompt = prompt)
  /\ (forall prompt,
        includes prompt guidelines_heading = true ->
        (strlen prompt < strlen (enhanceCodeSections prompt))%Z
        /\ includes (enhanceCodeSections prompt) guidelines_heading = true
        /\ (strlen (enhanceCodeSections prompt)
            < strlen (enhanceCodeSections (enhanceCodeSections prompt)))%Z).
Proof.
  assert (Hgrow : forall prompt,
            includes prompt guidelines_heading = true ->
            (strlen prompt < strlen (enhanceCodeSections prompt))%Z
            /\ includes (enhanceCodeSections prompt) guidelines_heading = true).
  { intros prompt H. rewrite enhanceCodeSections_eq. split.
    - unfold strlen. apply inj_lt.
      apply (lit_grows_strictly _ _ guidelines_pat guidelines_rep); [| exact H].
      vm_compute. lia.
    - destruct (lit_first _ _ guidelines_pat guidelines_rep prompt H) as (a & b & _ & ->).
      apply includes_spec. exists (a ++ cursor_block), (replace_all (rx_lit guidelines_heading) (cursor_block ++ guidelines_heading) b).
      by rewrite <- !app_assoc. }
  split; [| split].
  - intros a b. rewrite !enhanceCodeSections_eq.
    rewrite (lit_split _ _ guidelines_pat guidelines_rep) by apply guidelines_no_straddle.
    rewrite (lit_match_app _ _ guidelines_pat guidelines_rep).
    by rewrite <- !app_assoc.
  - intros prompt H. rewrite enhanceCodeSections_eq.
    by apply (lit_none _ _ guidelines_pat guidelines_rep).
  - intros prompt H. destruct (Hgrow prompt H) as (H1 & H2).
    split; [exact H1 | split; [exact H2 |]]. by apply Hgrow.
Qed.

(** The heading of level 3 contains the heading of level 2: the block is
    put after its first [#]. *)
Lemma enhanceCodeSections_inserts_witness :
  (strlen (js "### Implementation Guidelines")
   < strlen (enhanceCodeSections (js "### Implementation Guidelines")))%Z
  /\ enhanceCodeSections (js "### Implementation Guidelines")
     = js "#" ++ cursor_block ++ guidelines_heading.
Proof.
  destruct enhanceCodeSections_inserts as (_ & _ & H).
  destruct (H (js "### Implementation Guidelines")) as (Hlen & _).
  - vm_compute. reflexivity.
  - split; [exact Hlen | vm_compute; reflexivity].
Defined.

Lemma objective_colon_pat : objective_colon <> [].
Proof. discriminate. Qed.
Lemma objective_colon_rep : Forall (fun c => c <> 36%N) objective_colon_note.
Proof. apply dollar_free_check. vm_compute. reflexivity. Qed.
Lemma objective_heading_pat : objective_heading <> [].
Proof. discriminate. Qed.
Lemma objective_heading_rep : Forall (fun c => c <> 36%N) objective_heading_note.
Proof. apply dollar_free_check. vm_compute. reflexivity. Qed.

(** X10.  The second pattern of [enhanceStructuredSections] is tried only
    when the first does not occur: a prompt with [OBJECTIVE:] after the
    glyph gets the note after each occurrence and nothing else, one
    without it gets the rewrite of the heading form, and one with neither
    is unchanged. *)
Theorem enhanceStructuredSections_choice (prompt : jsstring) :
  (includes prompt objective_colon = true ->
   enhanceStructuredSections prompt
   = replace_all (rx_lit objective_colon) objective_colon_note prompt
   /\ (strlen prompt < strlen (enhanceStructuredSections prompt))%Z)
  /\ (includes prompt objective_colon = false ->
      enhanceStructuredSections prompt
      = replace_all (rx_lit objective_heading) objective_heading_note prompt)
  /\ (includes prompt objective_colon = false ->
      includes prompt objective_heading = false ->
      enhanceStructuredSections prompt = prompt).
Proof.
  assert (Hc : length objective_colon < length objective_colon_note)
    by (vm_compute; lia).
  unfold enhanceStructuredSections, eqb.
  split; [| split].
  - intros H.
    assert (Hne : replace_all (rx_lit objective_colon) objective_colon_note prompt
                  <> prompt).
    { rewrite (lit_unchanged _ _ objective_colon_pat objective_colon_rep _ Hc).
      congruence. }
    rewrite bool_decide_eq_false_2 by exact Hne.
    split; [reflexivity |]. unfold strlen. apply inj_lt.
    by apply (lit_grows_strictly _ _ objective_colon_pat objective_colon_rep).
  - intros H.
    rewrite bool_decide_eq_true_2; [reflexivity |].
    by apply (lit_none _ _ objective_colon_pat objective_colon_rep).
  - intros H H'.
    rewrite bool_decide_eq_true_2
      by (by apply (lit_none _ _ objective_colon_pat objective_colon_rep)).
    by apply (lit_none _ _ objective_heading_pat objective_heading_rep).
Qed.

(** The glyph, [OBJECTIVE] and a colon. *)
Lemma enhanceStructuredSections_choice_witness :
  enhanceStructuredSections (objective_heading ++ js ":")
  = objective_heading ++ js ":\n*Claude users: Provide comprehensive analysis with multiple perspectives*\n".
Proof.
  destruct (enhanceStructuredSections_choice (objective_heading ++ js ":")) as (H & _).
  destruct H as (-> & _); vm_compute; reflexivity.
Defined.

(** ** Symbols *)

Ltac decide_bounds :=
  repeat match goal with
         | |- context [(?a <=? ?b)%N] =>
           first [ rewrite (proj2 (N.leb_gt a b)) by lia
                 | rewrite (proj2 (N.leb_le a b)) by lia ]
         end;
  reflexivity.

Lemma rx_symbol_prefix s m caps :
  rx_symbol s = Some (m, caps) -> 1 <= length m /\ s = m ++ drop (length m) s.
Proof.
  unfold rx_symbol. destruct s as [|c [|d t]]; [discriminate | |].
  - destruct (symbol_code_point c); intros [= <- <-]. split; [cbn; lia | reflexivity].
  - destruct (is_high_surrogate c && is_low_surrogate d).
    + destruct (symbol_code_point _); intros [= <- <-]. split; [cbn; lia | reflexivity].
    + destruct (symbol_code_point c); intros [= <- <-]. split; [cbn; lia | reflexivity].
Qed.

Lemma empty_template_closed m b b' a a' caps :
  getSubstitution m b a caps [] = getSubstitution m b' a' caps [].
Proof. reflexivity. Qed.

Lemma surrogate_no_symbol c : is_high_surrogate c = true -> symbol_code_point c = false.
Proof.
  unfold is_high_surrogate, symbol_code_point. intros H.
  apply andb_prop in H as [H1 H2]. apply N.leb_le in H1, H2.
  decide_bounds.
Qed.

Lemma rx_symbol_none c t : rx_symbol (c :: t) = None -> symbol_code_point c = false.
Proof.
  unfold rx_symbol. destruct t as [|d t].
  - by destruct (symbol_code_point c).
  - destruct (is_high_surrogate c && is_low_surrogate d) eqn:E.
    + intros _. apply andb_prop in E as [E _]. by apply surrogate_no_symbol.
    + by destruct (symbol_code_point c).
Qed.

Lemma symbols_removed s :
  Forall (fun c => symbol_code_point c = false) (replace_all rx_symbol [] s).
Proof.
  induction s as [| s m caps Hm IH | c t Hn IH]
    using (replace_all_ind rx_symbol rx_symbol_prefix).
  - constructor.
  - rewrite (replace_all_match rx_symbol [] rx_symbol_prefix empty_template_closed _ _ _ Hm).
    exact IH.
  - rewrite (replace_all_skip rx_symbol [] empty_template_closed _ _ Hn).
    constructor; [by apply (rx_symbol_none c t) | exact IH].
Qed.

Lemma symbols_ascii s : ascii_text s -> replace_all rx_symbol [] s = s.
Proof.
  induction 1 as [|c t Hc _ IH]; [reflexivity |].
  assert (Hn : rx_symbol (c :: t) = None).
  { assert (Hs : symbol_code_point c = false).
    { unfold symbol_code_point.
      decide_bounds. }
    assert (Hh : is_high_surrogate c = false).
    { unfold is_high_surrogate. decide_bounds. }
    unfold rx_symbol. destruct t; rewrite ?Hh, Hs; reflexivity. }
  rewrite (replace_all_skip rx_symbol [] empty_template_closed _ _ Hn).
  by rewrite IH.
Qed.

Ltac not_ascii :=
  let H := fresh in
  intros H; apply Forall_inv in H; lia.

(** X11.  After [removeEmojis] no code unit of U+2600 to U+27BF is left, and
    a text of ASCII code units is unchanged.  Symbols above U+FFFF are
    removed as pairs, and two halves that a removed pair separated can
    form a symbol that stays. *)
Theorem removeEmojis_symbols :
  (forall prompt,
     Forall (fun c => symbol_code_point c = false) (removeEmojis prompt))
  /\ (forall prompt, ascii_text prompt -> removeEmojis prompt = prompt)
  /\ removeEmojis [55356; 55356; 57263; 57263]%N = js "🎯".
Proof.
  split; [| split].
  - intros prompt. apply symbols_removed.
  - intros prompt H. unfold removeEmojis.
    rewrite (lit_fixed glyph_objective (js "[OBJECTIVE]") ltac:(units) _ prompt H) by not_ascii.
    rewrite (lit_fixed glyph_implementation (js "[IMPLEMENTATION]") ltac:(units) _ prompt H) by not_ascii.
    rewrite (lit_fixed glyph_considerations (js "[CONSIDERATIONS]") ltac:(units) _ prompt H) by not_ascii.
    rewrite (lit_fixed glyph_validation (js "[VALIDATION]") ltac:(units) _ prompt H) by not_ascii.
    by apply symbols_ascii.
  - reflexivity.
Qed.

(** A check box in ASCII stays. *)
Lemma removeEmojis_symbols_witness :
  removeEmojis (js "- [ ] plain text") = js "- [ ] plain text".
Proof.
  destruct removeEmojis_symbols as (_ & H & _).
  apply (H (js "- [ ] plain text")).
  unfold ascii_text. vm_compute. repeat constructor.
Defined.

(** ** Invariants of the simplification *)

Lemma unbold_length x : length (unbold x) <= length x.
Proof.
  unfold unbold.
  induction x as [| s m caps Hm IH | c t Hn IH]
    using (replace_all_ind rx_bold rx_bold_prefix).
  - cbn. lia.
  - rewrite (replace_all_match _ _ rx_bold_prefix bold_template_closed _ _ _ Hm).
    destruct (rx_bold_prefix _ _ _ Hm) as (_ & Hs).
    destruct (rx_bold_inv _ _ _ Hm) as (ph & -> & -> & _).
    rewrite getSubstitution_capture. rewrite Hs at 2.
    rewrite !length_app in *. cbn [length] in *. lia.
  - rewrite (replace_all_skip _ _ bold_template_closed _ _ Hn). cbn [length]. lia.
Qed.

Lemma unbold_newlines x : newlines (unbold x) = newlines x.
Proof.
  unfold unbold.
  induction x as [| s m caps Hm IH | c t Hn IH]
    using (replace_all_ind rx_bold rx_bold_prefix).
  - reflexivity.
  - rewrite (replace_all_match _ _ rx_bold_prefix bold_template_closed _ _ _ Hm).
    destruct (rx_bold_prefix _ _ _ Hm) as (_ & Hs).
    destruct (rx_bold_inv _ _ _ Hm) as (ph & -> & -> & _).
    rewrite getSubstitution_capture. rewrite Hs at 2.
    count_newlines. rewrite IH. count_newlines. lia.
  - rewrite (replace_all_skip _ _ bold_template_closed _ _ Hn).
    rewrite !newlines_cons. by rewrite IH.
Qed.

(** X12.  [simplifyStructure] never makes a prompt longer, keeps its number of
    lines, and leaves a prompt without [#], [*] and [[] as it is. *)
Theorem simplifyStructure_invariants (prompt : jsstring) :
  (strlen (simplifyStructure prompt) <= strlen prompt)%Z
  /\ lineCount (simplifyStructure prompt) = lineCount prompt
  /\ (markup_free prompt -> simplifyStructure prompt = prompt).
Proof.
  rewrite simplifyStructure_stages. split; [| split].
  - unfold strlen. apply inj_le.
    etransitivity; [apply (lit_shrinks _ _ uncheck_pat uncheck_rep); vm_compute; lia |].
    etransitivity; [apply unbold_length |].
    etransitivity; [apply (lit_shrinks _ _ demote4_pat demote4_rep); vm_compute; lia |].
    apply (lit_shrinks _ _ demote3_pat demote3_rep). vm_compute. lia.
  - rewrite !lineCount_newlines.
    by rewrite uncheck_newlines, unbold_newlines, demote4_newlines, demote3_newlines.
  - intros H. unfold demote3, demote4, uncheck.
    rewrite (lit_fixed _ _ demote3_rep _ prompt H)
      by (intros Hp; apply Forall_inv in Hp; destruct Hp as [Hp _]; by apply Hp).
    rewrite (lit_fixed _ _ demote4_rep _ prompt H)
      by (intros Hp; apply Forall_inv in Hp; destruct Hp as [Hp _]; by apply Hp).
    rewrite unbold_fixed by (eapply Forall_impl; [exact H | cbn; tauto]).
    apply (lit_fixed _ _ uncheck_rep _ prompt H).
    intros Hp. do 2 apply Forall_inv_tail in Hp. apply Forall_inv in Hp. destruct Hp as (_ & _ & Hp). by apply Hp.
Qed.

(** A sentence without markup stays. *)
Lemma simplifyStructure_invariants_witness :
  simplifyStructure (js "plain text, no markup") = js "plain text, no markup".
Proof.
  destruct (simplifyStructure_invariants (js "plain text, no markup")) as (_ & _ & H).
  apply H. unfold markup_free. vm_compute. repeat constructor; discriminate.
Defined.

(** A heading marker which the first two rewrites take from [m1] over [m2]
    to [m3], at the start of a line of any document. *)
Lemma heading_chain_line (m1 m2 m3 : jsstring) :
  (forall y, demote3 (m1 ++ y) = m2 ++ demote3 y) ->
  (forall y, demote4 (m2 ++ y) = m3 ++ demote4 y) ->
  (forall y, uncheck (m3 ++ y) = m3 ++ uncheck y) ->
  star_free m3 -> m3 <> [] ->
  forall a b,
    line_start a ->
    exists a' b',
      simplifyStructure (a ++ m1 ++ b) = a' ++ m3 ++ b'
      /\ line_start a' /\ newlines a' = newlines a.
Proof.
  intros H3 H4 Hc Hm Hne a b Hline. rewrite simplifyStructure_stages.
  destruct (demote3_line a (m1 ++ b) Hline) as [-> Hline3]. rewrite H3.
  destruct (demote4_line (demote3 a) (m2 ++ demote3 b) Hline3) as [-> Hline4].
  rewrite H4.
  destruct (unbold_keeps_marker m3 Hm Hne _ (demote4 (demote3 a))
              (demote4 (demote3 b)) eq_refl Hline4)
    as (a3 & b3 & -> & Hline5 & Hn).
  destruct (uncheck_line a3 (m3 ++ b3) Hline5) as [-> Hline6]. rewrite Hc.
  exists (uncheck a3), (uncheck b3). split; [reflexivity |].
  split; [exact Hline6 |].
  by rewrite uncheck_newlines, Hn, demote4_newlines, demote3_newlines.
Qed.

Lemma demote3_h5 y : demote3 (js "##### " ++ y) = js "#### " ++ demote3 y.
Proof.
  change (js "##### " ++ y) with (35%N :: 35%N :: (js "### " ++ y)).
  unfold demote3. rewrite !(lit_skip _ _ demote3_rep) by reflexivity.
  rewrite (lit_match_app _ _ demote3_pat demote3_rep). reflexivity.
Qed.

Lemma demote3_h6 y : demote3 (js "###### " ++ y) = js "##### " ++ demote3 y.
Proof.
  change (js "###### " ++ y) with (35%N :: 35%N :: 35%N :: (js "### " ++ y)).
  unfold demote3. rewrite !(lit_skip _ _ demote3_rep) by reflexivity.
  rewrite (lit_match_app _ _ demote3_pat demote3_rep). reflexivity.
Qed.

Lemma demote4_h4 y : demote4 (js "#### " ++ y) = js "### " ++ demote4 y.
Proof. apply (lit_match_app _ _ demote4_pat demote4_rep). Qed.

Lemma demote4_h5 y : demote4 (js "##### " ++ y) = js "#### " ++ demote4 y.
Proof.
  change (js "##### " ++ y) with (35%N :: (js "#### " ++ y)).
  unfold demote4. rewrite (lit_skip _ _ demote4_rep) by reflexivity.
  rewrite (lit_match_app _ _ demote4_pat demote4_rep). reflexivity.
Qed.

Lemma uncheck_h4 y : uncheck (js "#### " ++ y) = js "#### " ++ uncheck y.
Proof. apply (lit_absent _ _ uncheck_pat uncheck_rep). units. Qed.

(** X13.  Headings below level 4, in any document: a level-5 marker at the
    start of a line becomes a level-3 marker at the start of the same line
    of the result (as a level-4 marker does), and a level-6 marker becomes
    a level-4 marker.  Nothing is asked of the text before and after the
    marker: it may carry asterisks, as in a bold phrase on the line
    before. *)
Theorem simplifyStructure_deep_headings :
  (forall a b, line_start a ->
     exists a' b',
       simplifyStructure (a ++ js "##### " ++ b) = a' ++ js "### " ++ b'
       /\ line_start a' /\ newlines a' = newlines a)
  /\ (forall a b, line_start a ->
        exists a' b',
          simplifyStructure (a ++ js "###### " ++ b) = a' ++ js "#### " ++ b'
          /\ line_start a' /\ newlines a' = newlines a).
Proof.
  split; intros a b.
  - apply (heading_chain_line _ (js "#### "));
      [apply demote3_h5 | apply demote4_h4 | apply uncheck_h3 | units | units].
  - apply (heading_chain_line _ (js "##### "));
      [apply demote3_h6 | apply demote4_h5 | apply uncheck_h4 | units | units].
Qed.

(** A heading of level 5 on the line after a bold phrase: the phrase gets
    its colon and the heading has level 3. *)
Lemma simplifyStructure_deep_headings_witness :
  simplifyStructure (js "**x**\n" ++ js "##### " ++ js "y") = js "x:\n### y"
  /\ exists a' b',
       simplifyStructure (js "**x**\n" ++ js "##### " ++ js "y")
       = a' ++ js "### " ++ b'
       /\ line_start a' /\ newlines a' = newlines (js "**x**\n").
Proof.
  split; [reflexivity |].
  destruct simplifyStructure_deep_headings as (H & _).
  apply (H (js "**x**\n") (js "y")).
  right. exists (js "**x**"). reflexivity.
Defined.

(** ** Dispatch *)

(** X14.  [optimize] throws (reads a property of undefined) exactly when the
    table has no profile for the procedure it selects: the destination
    itself for cursor, claude and ollama, [universal] for every other
    destination. *)
Theorem optimize_throws_iff (this : PlatformOptimizer) (prompt : jsstring)
    (config : PromptGeneratorConfig) :
  optimize this prompt config = None
  <-> platformLimits this !! procedure_key (platform config) = None.
Proof.
  unfold optimize, procedure_key.
  repeat match goal with
         | |- context [if eqb ?a ?b then _ else _] => destruct (eqb a b)
         end.
  - unfold optimizeForCursor. destruct (platformLimits this !! js "cursor") as [l|];
      cbn [mbind option_bind]; [| tauto].
    destruct (exceeds _ _); split; discriminate.
  - unfold optimizeForClaude. destruct (platformLimits this !! js "claude") as [l|];
      cbn [mbind option_bind]; [| tauto].
    destruct (exceeds _ _); split; discriminate.
  - unfold optimizeForOllama. destruct (platformLimits this !! js "ollama") as [l|];
      cbn [mbind option_bind]; [| tauto].
    destruct (ollamaCharPass _ _). destruct (over_lines _ _); split; discriminate.
  - unfold optimizeForUniversal. destruct (platformLimits this !! js "universal") as [l|];
      cbn [mbind option_bind]; [| tauto].
    destruct (exceeds _ _); split; discriminate.
Qed.

(** X15.  The steps that [optimize] reports depend on the destination and the
    table only, never on the prompt: a step is listed also when it changed
    nothing.  There are between one and three steps and at most two
    warnings. *)
Theorem optimize_steps_independent (this : PlatformOptimizer)
    (p1 p2 : jsstring) (config : PromptGeneratorConfig) (r1 r2 : OptimizationResult) :
  optimize this p1 config = Some r1 ->
  optimize this p2 config = Some r2 ->
  appliedOptimizations r1 = appliedOptimizations r2
  /\ 1 <= length (appliedOptimizations r1) <= 3
  /\ length (warnings r1) <= 2.
Proof.
  unfold optimize.
  repeat match goal with
         | |- context [if eqb ?a ?b then _ else _] => destruct (eqb a b)
         end.
  - unfold optimizeForCursor. destruct (platformLimits this !! js "cursor") as [l|];
      cbn [mbind option_bind]; [| discriminate].
    do 2 destruct (exceeds _ _); intros [= <-] [= <-];
      cbn [appliedOptimizations warnings length]; repeat split; lia.
  - unfold optimizeForClaude. destruct (platformLimits this !! js "claude") as [l|];
      cbn [mbind option_bind]; [| discriminate].
    do 2 destruct (exceeds _ _); intros [= <-] [= <-];
      cbn [appliedOptimizations warnings length]; repeat split; lia.
  - unfold optimizeForOllama. destruct (platformLimits this !! js "ollama") as [l|];
      cbn [mbind option_bind]; [| discriminate].
    unfold ollamaCharPass.
    do 2 destruct (exceeds _ _); do 2 destruct (over_lines _ _);
      intros [= <-] [= <-]; cbn [appliedOptimizations warnings];
      destruct (supportsEmojis l); cbn [negb app length]; repeat split; lia.
  - unfold optimizeForUniversal. destruct (platformLimits this !! js "universal") as [l|];
      cbn [mbind option_bind]; [| discriminate].
    do 2 destruct (exceeds _ _); intros [= <-] [= <-];
      cbn [appliedOptimizations warnings length]; repeat split; lia.
Qed.

(** The empty prompt and a prompt with a header have the same steps for
    cursor. *)
Lemma optimize_steps_independent_witness :
  exists r1 r2,
    optimizeForCursor new_PlatformOptimizer (js "") (request (js "cursor")) = Some r1
    /\ optimizeForCursor new_PlatformOptimizer (js "# T\n\nintro\n\nbody")
         (request (js "cursor")) = Some r2
    /\ appliedOptimizations r1 = appliedOptimizations r2.
Proof.
  destruct (optimizeForCursor_new (js "") (request (js "cursor"))) as (r1 & E1 & _).
  destruct (optimizeForCursor_new (js "# T\n\nintro\n\nbody") (request (js "cursor")))
    as (r2 & E2 & _).
  exists r1, r2. split; [exact E1 | split; [exact E2 |]].
  exact (proj1 (optimize_steps_independent new_PlatformOptimizer _ _
                  (request (js "cursor")) _ _ E1 E2)).
Defined.

(** ** Ceilings and budget *)

(** X16.  [getPlatformLimit] is never 0: it is the ceiling of the profile
    when that is set and not 0, and 10000 when the destination has no
    profile, when the profile has no ceiling and when the ceiling is 0. *)
Theorem getPlatformLimit_default (this : PlatformOptimizer) (destination : jsstring) :
  getPlatformLimit this destination <> 0%Z
  /\ (forall limits n,
        getPlatformLimits this destination = Some limits ->
        maxCharacters limits = Some n -> n <> 0%Z ->
        getPlatformLimit this destination = n)
  /\ (forall limits,
        getPlatformLimits this destination = Some limits ->
        maxCharacters limits = None \/ maxCharacters limits = Some 0%Z ->
        getPlatformLimit this destination = 10000%Z)
  /\ (getPlatformLimits this destination = None ->
      getPlatformLimit this destination = 10000%Z).
Proof.
  unfold getPlatformLimit, getPlatformLimits. split; [| split; [| split]].
  - destruct (platformLimits this !! destination) as [l |]; [| discriminate].
    destruct (maxCharacters l) as [n |]; [| discriminate].
    destruct (Z.eqb_spec n 0); [discriminate | assumption].
  - intros limits n -> -> Hn. by destruct (Z.eqb_spec n 0).
  - intros limits -> [-> | ->]; reflexivity.
  - intros ->. reflexivity.
Qed.

(** The ceiling of the ollama profile. *)
Lemma getPlatformLimit_default_witness :
  getPlatformLimit new_PlatformOptimizer (js "ollama") = 8000%Z.
Proof.
  destruct (getPlatformLimit_default new_PlatformOptimizer (js "ollama")) as (_ & H & _).
  eapply H; [vm_compute; reflexivity | reflexivity | discriminate].
Defined.

(** The estimate counts four code units to the token, rounded up. *)
Lemma estimate_covers (text : jsstring) : (strlen text <= 4 * estimateTokens text)%Z.
Proof.
  rewrite estimateTokens_spec.
  pose proof (Z.div_mod (strlen text + 3) 4 ltac:(lia)).
  pose proof (Z.mod_pos_bound (strlen text + 3) 4 ltac:(lia)).
  lia.
Qed.

(** X17.  The budget is counted in tokens against a ceiling in characters:
    whenever an optional fragment is included, the assembled document has
    fewer than 3.6 x ceiling + 4 code units, and it can be longer than the
    ceiling. *)
Theorem assembly_budget (this : AdaptivePromptGenerator)
    (packageJson : option jsstring) (config : PromptGeneratorConfig) :
  let C := getPlatformLimit (platformOptimizer this) (platform config) in
  let result := assembleAdaptivePrompt this packageJson config in
  appliedOptimizations result <> [js "core"] ->
  (10 * strlen (optimizedPrompt result) < 36 * C + 40)%Z.
Proof.
  intros C result.
  pose proof (estimate_covers (corePrompt this)) as H0.
  pose proof (estimate_covers (extendedFragment this (platform config))) as H1.
  pose proof (estimate_covers (exampleFragment this (detectProjectType packageJson))) as H2.
  assert (Hsep : strlen (js "\n\n") = 2%Z) by reflexivity.
  pose proof (strlen_nonneg (corePrompt this)).
  pose proof (strlen_nonneg (extendedFragment this (platform config))).
  pose proof (strlen_nonneg (exampleFragment this (detectProjectType packageJson))).
  unfold result.
  destruct (assemble_cases this packageJson config)
    as [((_ & F1) & (_ & F2) & ->) | [((_ & F1) & _ & ->)
        | [(_ & (_ & F2) & ->) | (_ & _ & ->)]]];
    cbn [optimizedPrompt appliedOptimizations]; intros Hsteps;
    try congruence; rewrite ?strlen_app, ?Hsep; fold C in F1 || fold C in F2; lia.
Qed.

(** Scenario A: a ceiling of 100 and a document of more than 100 code
    units. *)
Lemma assembly_budget_witness :
  (10 * strlen (optimizedPrompt
                  (assembleAdaptivePrompt scenario_A None (request (js "target"))))
   < 36 * 100 + 40)%Z
  /\ (strlen (optimizedPrompt
                (assembleAdaptivePrompt scenario_A None (request (js "target"))))
      > getPlatformLimit (platformOptimizer scenario_A) (js "target"))%Z.
Proof.
  split; [| vm_compute; reflexivity].
  apply (assembly_budget scenario_A None (request (js "target"))).
  vm_compute. discriminate.
Defined.

(** X18.  [generate] reads the destination of the request only: two requests
    for the same destination give the same result, whatever their
    complexity, language and custom rules. *)
Theorem generate_reads_platform_only (this : AdaptivePromptGenerator)
    (packageJson : option jsstring) (c1 c2 : PromptGeneratorConfig) :
  platform c1 = platform c2 ->
  generate this packageJson c1 = generate this packageJson c2.
Proof.
  intros H. unfold generate, assembleAdaptivePrompt. rewrite H. reflexivity.
Qed.

(** Complexity, language and custom rules are not read. *)
Lemma generate_reads_platform_only_witness :
  generatePrompt None
    {| platform := js "universal"; complexity := js "expert";
       language := js "hungarian";
       customRules := Some [js "Project: demo"; js "Technologies: Rust"] |}
  = generatePrompt None (request (js "universal")).
Proof.
  apply generate_reads_platform_only. reflexivity.
Defined.

(** ** The built-in document; detection of the destination *)

(** X19.  With the built-in library every budget check succeeds: for every
    request and every [package.json] there is an extended fragment, and
    the document is the core fragment, the extended fragment and the
    examples of the detected category when it has any. *)
Theorem generatePrompt_document (packageJson : option jsstring)
    (config : PromptGeneratorConfig) :
  let extended := extendedFragment new_AdaptivePromptGenerator (platform config) in
  let examples_ :=
    exampleFragment new_AdaptivePromptGenerator (detectProjectType packageJson) in
  extended <> []
  /\ systemPrompt (generatePrompt packageJson config)
     = getCorePrompt ++ js "\n\n" ++ extended
         ++ (if truthy examples_ then js "\n\n" ++ examples_ else []).
Proof.
  cbv zeta.
  set (extended := extendedFragment new_AdaptivePromptGenerator (platform config)).
  set (examples_ :=
         exampleFragment new_AdaptivePromptGenerator (detectProjectType packageJson)).
  assert (Hc : estimateTokens (corePrompt new_AdaptivePromptGenerator) = 402%Z)
    by reflexivity.
  assert (He : extended <> [] /\ (estimateTokens extended <= 156)%Z).
  { unfold extended.
    destruct (builtin_extended (platform config)) as [[_ ->] | [[_ ->] | ->]];
      split; try discriminate; vm_compute; discriminate. }
  assert (Hx : (estimateTokens examples_ <= 161)%Z).
  { unfold examples_.
    destruct (builtin_examples packageJson) as [-> | [-> | ->]]; vm_compute; discriminate. }
  assert (HC : (8000 <= getPlatformLimit new_PlatformOptimizer (platform config))%Z).
  { destruct (builtin_limit (platform config))
      as [-> | [-> | [-> | [-> | [_ ->]]]]]; lia. }
  split; [apply He |].
  unfold generatePrompt, generate. cbn [systemPrompt].
  pose proof (assemble_cases new_AdaptivePromptGenerator packageJson config) as Hcases.
  cbv zeta in Hcases. fold extended examples_ in Hcases.
  change (platformOptimizer new_AdaptivePromptGenerator)
    with new_PlatformOptimizer in Hcases.
  rewrite Hc in Hcases. unfold fits in Hcases.
  destruct Hcases as [(_ & F2 & ->) | [(_ & F2 & ->) | [(F1 & _) | (F1 & _)]]];
    cbn [optimizedPrompt].
  - destruct F2 as (F2 & _). apply truthy_spec in F2. rewrite F2.
    reflexivity.
  - destruct (truthy examples_) eqn:E; [| by rewrite app_nil_r].
    exfalso. apply F2. split; [by apply truthy_spec | lia].
  - exfalso. apply F1. split; [apply He | lia].
  - exfalso. apply F1. split; [apply He | lia].
Qed.

(** X20.  [detectPlatform] returns the configured destination unless it is
    [universal]; then it returns one of the four names, and [cursor] for
    every ASCII prompt that contains [ide] in any letter case (as in
    [provide] or [Guidelines]), whatever else the prompt names. *)
Theorem detectPlatform_keywords (toLowerCase : jsstring -> jsstring)
    (prompt : jsstring) (config : PromptGeneratorConfig) :
  (platform config <> js "universal" ->
   detectPlatform toLowerCase prompt config = platform config)
  /\ (platform config = js "universal" ->
      In (detectPlatform toLowerCase prompt config)
         [js "cursor"; js "claude"; js "ollama"; js "universal"])
  /\ (platform config = js "universal" ->
      lowers_ascii toLowerCase ->
      forall a word b,
        prompt = a ++ word ++ b -> ascii_text prompt ->
        map ascii_lower word = js "ide" ->
        detectPlatform toLowerCase prompt config = js "cursor").
Proof.
  unfold detectPlatform, eqb. split; [| split].
  - intros H. by rewrite bool_decide_eq_false_2.
  - intros H. rewrite bool_decide_eq_true_2 by assumption. cbn [negb].
    repeat match goal with
           | |- context [if ?c then _ else _] => destruct c
           end; cbn [In]; auto.
  - intros H Hlow a word b -> Hascii Hword.
    rewrite bool_decide_eq_true_2 by assumption. cbn [negb].
    rewrite Hlow by exact Hascii. rewrite !map_app, Hword.
    assert (Hin : includes (map ascii_lower a ++ js "ide" ++ map ascii_lower b)
                    (js "ide") = true)
      by (apply includes_spec; eauto).
    rewrite Hin, orb_true_r. reflexivity.
Qed.

(** [provide] contains [ide]: the prompt names Claude and the result is
    [cursor]. *)
Lemma detectPlatform_keywords_witness :
  detectPlatform (map ascii_lower) (js "Please provide a plan for Claude")
    (request (js "universal")) = js "cursor".
Proof.
  destruct (detectPlatform_keywords (map ascii_lower)
              (js "Please provide a plan for Claude") (request (js "universal")))
    as (_ & _ & H).
  apply (H eq_refl (fun s _ => eq_refl) (js "Please prov") (js "ide")
           (js " a plan for Claude")).
  - reflexivity.
  - unfold ascii_text. vm_compute. repeat constructor.
  - reflexivity.
Defined.

(* ===================================================================== *)
(** * Properties of the command line *)
(* ===================================================================== *)

(** ** Options *)

Section ParseFacts.

Context {A : Type}.

Lemma array_includes_In (args : list jsstring) (x : jsstring) :
  array_includes args x = true <-> In x args.
Proof.
  unfold array_includes. rewrite existsb_exists. split.
  - intros (a & Ha & E). unfold eqb in E. apply bool_decide_eq_true in E. by subst.
  - intros H. exists x. split; [exact H |]. unfold eqb. by apply bool_decide_eq_true.
Qed.

Lemma findOption_test (flag f : jsstring) :
  (if startsWith flag (js "--") then startsWith f flag
   else if startsWith flag (js "-") then startsWith f flag else false)
  = startsWith flag (js "-") && startsWith f flag.
Proof.
  assert (Hdash : startsWith flag (js "--") = true -> startsWith flag (js "-") = true).
  { change (js "--") with [45%N; 45%N]. change (js "-") with [45%N].
    destruct flag as [|c [|d t]]; cbn [startsWith]; try discriminate;
      destruct (c =? 45)%N; cbn [andb]; try discriminate; reflexivity. }
  destruct (startsWith flag (js "--")) eqn:E2.
  - by rewrite (Hdash eq_refl).
  - by destruct (startsWith flag (js "-")).
Qed.

Lemma findOption_Some (command : Command A) (flag : jsstring) (opt : CommandOption) :
  findOption command flag = Some opt ->
  In opt (options command)
  /\ startsWith flag (js "-") = true
  /\ exists f, In f (flag_parts opt) /\ startsWith f flag = true.
Proof.
  unfold findOption. intros H. apply find_some in H as (Hin & Hex).
  apply existsb_exists in Hex as (f & Hf & Ht). rewrite findOption_test in Ht.
  apply andb_prop in Ht as (Hd & Hs). eauto 6.
Qed.

Lemma findOption_None (command : Command A) (flag : jsstring) :
  findOption command flag = None <->
  startsWith flag (js "-") = false
  \/ forall opt f, In opt (options command) -> In f (flag_parts opt) ->
                   startsWith f flag = false.
Proof.
  unfold findOption. split.
  - intros H.
    assert (startsWith flag (js "-") = true \/ startsWith flag (js "-") = false)
      as [Hd | Hd] by (destruct (startsWith flag (js "-")); auto); [right | by left].
    intros opt f Hopt Hf. pose proof (find_none _ _ H opt Hopt) as Hn.
    cbv beta in Hn. destruct (startsWith f flag) eqn:Hs; [| reflexivity].
    exfalso. apply not_true_iff_false in Hn. apply Hn.
    apply existsb_exists. exists f. split; [exact Hf |].
    by rewrite findOption_test, Hd, Hs.
  - intros H. destruct (find _ _) as [opt |] eqn:E; [exfalso | reflexivity].
    apply find_some in E as (Hin & Hex).
    apply existsb_exists in Hex as (f & Hf & Ht). rewrite findOption_test in Ht.
    apply andb_prop in Ht as (Hd & Hs).
    destruct H as [H | H]; [congruence |]. specialize (H opt f Hin Hf). congruence.
Qed.

(** X22.  An argument selects an option only when it starts with a dash and
    is a prefix of one of the trimmed flags of that option, and it selects
    none exactly when it has no dash or is a prefix of no declared flag;
    the option declared first is selected whenever one of its flags
    matches.  Abbreviations of a flag are thus accepted. *)
Theorem findOption_prefix (command : Command A) (flag : jsstring) :
  (forall opt,
     findOption command flag = Some opt ->
     In opt (options command)
     /\ startsWith flag (js "-") = true
     /\ exists f, In f (flag_parts opt) /\ startsWith f flag = true)
  /\ (findOption command flag = None <->
      startsWith flag (js "-") = false
      \/ forall opt f, In opt (options command) -> In f (flag_parts opt) ->
                       startsWith f flag = false)
  /\ (forall opt rest_ f,
        options command = opt :: rest_ -> In f (flag_parts opt) ->
        startsWith flag (js "-") = true -> startsWith f flag = true ->
        findOption command flag = Some opt).
Proof.
  split; [apply findOption_Some | split; [apply findOption_None |]].
  intros opt rest_ f Hopts Hf Hdash Hs. unfold findOption. rewrite Hopts.
  cbn [find].
  assert (existsb
            (fun f => if startsWith flag (js "--") then startsWith f flag
                      else if startsWith flag (js "-") then startsWith f flag else false)
            (map trim (split_comma (flags opt))) = true) as ->; [| reflexivity].
  apply existsb_exists. exists f. split; [exact Hf |].
  by rewrite findOption_test, Hdash, Hs.
Qed.

End ParseFacts.

(** ** Dispatch of [parse] *)

Section ParseDispatch.

Context {A : Type}.

Implicit Types (h : heap A) (self command : Command A).

Lemma showHelp_logs h self e :
  In e (showHelp h self) -> exists text, e = Log text.
Proof.
  unfold showHelp. rewrite !in_app_iff. intros [H | [H | H]].
  - cbn [In] in H. intuition eauto.
  - destruct (0 <? length (commands self)); [| destruct H].
    rewrite !in_app_iff in H. destruct H as [H | [H | H]].
    + cbn [In] in H. intuition eauto.
    + apply in_map_iff in H as ([name cmd] & <- & _). eauto.
    + cbn [In] in H. intuition eauto.
  - cbn [In] in H. intuition eauto.
Qed.

Lemma showCommandHelp_logs self command e :
  In e (showCommandHelp self command) -> exists text, e = Log text.
Proof.
  unfold showCommandHelp. rewrite !in_app_iff. intros [H | H].
  - cbn [In] in H. intuition eauto.
  - destruct (0 <? length (options command)); [| destruct H].
    rewrite !in_app_iff in H. destruct H as [H | H].
    + cbn [In] in H. intuition eauto.
    + apply in_map_iff in H as (opt & <- & _). eauto.
Qed.

(** X23.  [-v] or [--version] anywhere on the command line prints the version
    and nothing else: no command is looked up and no action is called,
    also when the flag stands where the value of an option is expected. *)
Theorem parse_version_first h (this : ref) self (args : list jsstring) :
  h !! this = Some self ->
  In (js "-v") args \/ In (js "--version") args ->
  parse h this args = Returns [Log (_version self)].
Proof.
  intros Hself Hv. unfold parse. rewrite Hself.
  destruct args as [|a rest]; [by destruct Hv |].
  assert (Hversion : array_includes (a :: rest) (js "-v")
                     || array_includes (a :: rest) (js "--version") = true).
  { apply orb_true_iff. rewrite !array_includes_In. exact Hv. }
  rewrite Hversion.
  destruct rest as [|b rest]; [| by rewrite andb_false_r].
  assert (Hhelp : array_includes [a] (js "-h") || array_includes [a] (js "--help")
                  = false).
  { apply orb_false_iff. rewrite <- !not_true_iff_false, !array_includes_In.
    cbn [In]. destruct Hv as [[-> | []] | [-> | []]];
      split; intros [H | []]; vm_compute in H; discriminate H. }
  by rewrite Hhelp.
Qed.

End ParseDispatch.

(** [-v] as the value of [-o]. *)
Lemma parse_version_first_witness :
  exists self,
    program.2 !! program.1 = Some self
    /\ _version self = js "1.0.1"
    /\ parse program.2 program.1 [js "generate"; js "-o"; js "-v"]
       = Returns [Log (_version self)].
Proof.
  eexists. split; [vm_compute; reflexivity |]. split; [reflexivity |].
  apply (parse_version_first program.2 program.1); [vm_compute; reflexivity |].
  left. vm_compute. auto.
Defined.

Section ParseCalls.

Context {A : Type}.

(** X24.  [parse] calls an action only for a registered command that has
    one, once, with the parsed options completed by the defaults, and
    never when the command line holds a version flag or, after the
    command, a help flag. *)
Theorem parse_calls (h : heap A) (this : ref) (args : list jsstring)
    (events : list event) (fn : A) (opts : gmap jsstring value) :
  parse h this args = Returns events ->
  In (Call fn opts) events ->
  exists self name rest r command parsed_,
    h !! this = Some self
    /\ args = name :: rest
    /\ map_get name (commands self) = Some r
    /\ h !! r = Some command
    /\ _action command = Some fn
    /\ parse_args command ∅ None rest = Parsed parsed_
    /\ opts = apply_defaults command parsed_
    /\ events = [Call fn opts]
    /\ ~ In (js "-v") args /\ ~ In (js "--version") args
    /\ ~ In (js "-h") rest /\ ~ In (js "--help") rest.
Proof.
  unfold parse. intros Hp Hin.
  destruct (h !! this) as [self |] eqn:Hself; [| discriminate].
  assert (Hhelp : forall es, Returns (showHelp h self) = Returns es ->
                             In (Call fn opts) es -> False).
  { intros es [= <-] H. by destruct (showHelp_logs _ _ _ H). }
  destruct args as [| name rest]; [by destruct (Hhelp _ Hp Hin) |].
  destruct (_ && _) eqn:E1; [by destruct (Hhelp _ Hp Hin) |].
  destruct (array_includes (name :: rest) (js "-v")
            || array_includes (name :: rest) (js "--version")) eqn:Ev.
  { injection Hp as <-. destruct Hin as [Hin | []]. discriminate Hin. }
  apply orb_false_iff in Ev as (Ev1 & Ev2).
  apply not_true_iff_false in Ev1, Ev2. rewrite array_includes_In in Ev1, Ev2.
  destruct (map_get name (commands self)) as [r |] eqn:Hr.
  2:{ injection Hp as <-. destruct Hin as [Hin | [Hin | []]]; discriminate Hin. }
  destruct (h !! r) as [command |] eqn:Hc; [| discriminate].
  destruct (array_includes rest (js "-h") || array_includes rest (js "--help")) eqn:Eh.
  { injection Hp as <-. by destruct (showCommandHelp_logs _ _ _ Hin). }
  apply orb_false_iff in Eh as (Eh1 & Eh2).
  apply not_true_iff_false in Eh1, Eh2. rewrite array_includes_In in Eh1, Eh2.
  destruct (parse_args command ∅ None rest) as [parsed_ | arg |] eqn:Ea;
    [| | discriminate].
  - injection Hp as <-.
    destruct (_action command) as [fn' |] eqn:Hact; [| destruct Hin].
    destruct Hin as [[= <- <-] | []].
    exists self, name, rest, r, command, parsed_. repeat split; auto.
  - injection Hp as <-. destruct Hin as [Hin | Hin]; [discriminate Hin |].
    by destruct (showCommandHelp_logs _ _ _ Hin).
Qed.

End ParseCalls.

(** ** The argument loop *)

Section ParseArgs.

Context {A : Type}.

Implicit Types (command : Command A).

Lemma parse_args_cons command opts collecting arg rest :
  parse_args command opts collecting (arg :: rest)
  = match (if startsWith arg (js "-") then None else collecting) with
    | Some key => parse_args command (push key arg opts) collecting rest
    | None =>
      if startsWith arg (js "-") then
        if eqb arg (js "-h") || eqb arg (js "--help")
        then parse_args command opts None rest
        else
          match findOption command arg with
          | Some option_ =>
            let key := getOptionKey (flags option_) in
            if negb (includes (flags option_) (js "<"))
               && negb (includes (flags option_) (js "["))
            then parse_args command (set_prop key (SBool true) opts) None rest
            else
              match rest with
              | nextArg :: rest' =>
                if truthy nextArg && negb (startsWith nextArg (js "-")) then
                  if includes (flags option_) (js "...") then
                    match start_array key opts with
                    | Some opts =>
                      parse_args command (push key nextArg opts) (Some key) rest'
                    | None => NotAFunction
                    end
                  else
                    parse_args command (set_prop key (SStr nextArg) opts) None rest'
                else parse_args command (set_default key option_ opts) None rest
              | [] => Parsed (set_default key option_ opts)
              end
          | None => UnknownOption arg
          end
      else parse_args command opts None rest
    end.
Proof. reflexivity. Qed.

Lemma parse_args_pairs command (pairs : list (jsstring * jsstring))
    (opts : gmap jsstring value) :
  Forall (assignable command) pairs ->
  parse_args command opts None (flat_map (fun pair => [pair.1; pair.2]) pairs)
  = Parsed (fold_left (assign command) pairs opts).
Proof.
  intros H. revert opts. induction H as [| [flag v] pairs Hp _ IH]; intros opts.
  - reflexivity.
  - destruct Hp as (Hh & Hhelp & (opt & Hopt & Htakes) & Hv). cbn [fst snd] in *.
    cbn [flat_map app fold_left fst snd]. rewrite parse_args_cons.
    destruct (findOption_Some command flag opt Hopt) as (_ & Hdash & _).
    rewrite Hdash. unfold eqb. rewrite !bool_decide_eq_false_2 by assumption.
    cbn [orb]. rewrite Hopt. cbv zeta.
    unfold takes_value in Htakes. apply andb_prop in Htakes as (Hangle & Hdots).
    apply negb_true_iff in Hdots. rewrite Hdots.
    destruct (includes (flags opt) (js "<")); 
      [| destruct (includes (flags opt) (js "[")); [| discriminate Hangle]];
      cbn [negb andb]; unfold is_value in Hv; rewrite Hv;
      unfold assign; cbn [fst snd]; rewrite Hopt; apply IH.
Qed.

Lemma inherited_proto (key : jsstring) :
  inherited key = false -> eqb key (js "__proto__") = false.
Proof.
  unfold inherited, eqb. intros H. apply bool_decide_eq_false_2. intros ->.
  vm_compute in H. discriminate H.
Qed.

Lemma apply_defaults_get command (opts : gmap jsstring value) (key : jsstring) :
  apply_defaults command opts !! key
  = match opts !! key with
    | Some v => Some v
    | None => VScalar <$> default_for command key
    end.
Proof.
  unfold apply_defaults, default_for.
  induction (options command) as [| opt rest IH] in opts |- *;
    cbn [fold_left omap list_omap].
  - destruct (opts !! key); [reflexivity |]. by destruct (inherited key).
  - rewrite IH. clear IH.
    change (eqb (getOptionKey (flags opt)) key)
      with (bool_decide (getOptionKey (flags opt) = key)).
    destruct (decide (getOptionKey (flags opt) = key)) as [E | E].
    + subst key. rewrite bool_decide_eq_true_2 by reflexivity.
      destruct (opts !! getOptionKey (flags opt)) as [v |] eqn:Hk;
        [by rewrite Hk |].
      destruct (inherited (getOptionKey (flags opt))) eqn:Hi; [by rewrite Hk |].
      unfold set_default. destruct (defaultValue opt) as [d |]; [| by rewrite Hk].
      unfold set_prop. rewrite (inherited_proto _ Hi).
      by rewrite lookup_insert_eq.
    + rewrite bool_decide_eq_false_2 by assumption.
      destruct (opts !! getOptionKey (flags opt)) as [v |]; [reflexivity |].
      destruct (inherited (getOptionKey (flags opt))); [reflexivity |].
      unfold set_default. destruct (defaultValue opt) as [d |]; [| reflexivity].
      unfold set_prop. destruct (eqb _ _); [reflexivity |].
      by rewrite lookup_insert_ne.
Qed.

(** X25.  A command line of flag and value pairs, each flag that of an option
    with one value and each value not empty and without leading dash,
    assigns the values from left to right under the keys of the options:
    a later value replaces an earlier one. *)
Theorem parse_args_assignments command (pairs : list (jsstring * jsstring))
    (opts : gmap jsstring value) :
  Forall (assignable command) pairs ->
  parse_args command opts None (flat_map (fun pair => [pair.1; pair.2]) pairs)
  = Parsed (fold_left (assign command) pairs opts).
Proof. apply parse_args_pairs. Qed.

(** X26.  After the defaults are applied, a key that the command line set
    keeps its value, and a key that it did not set has the default of the
    first option with this key that declares one; an inherited name such
    as [toString] gets no default, since [key in options] holds for it. *)
Theorem apply_defaults_lookup command (opts : gmap jsstring value) (key : jsstring) :
  apply_defaults command opts !! key
  = match opts !! key with
    | Some v => Some v
    | None => VScalar <$> default_for command key
    end.
Proof. apply apply_defaults_get. Qed.

End ParseArgs.

(** ** The command [generate] *)

Lemma program_root : program.2 !! program.1 = Some zerocode_command.
Proof. vm_compute. reflexivity. Qed.

Lemma program_generate :
  map_get (js "generate") (commands zerocode_command) = Some 1
  /\ program.2 !! (1 : ref) = Some generate_command.
Proof. split; vm_compute; reflexivity. Qed.

Lemma assignable_plain pairs :
  Forall (assignable generate_command) pairs ->
  forall x, In x (flat_map (fun pair : jsstring * jsstring => [pair.1; pair.2]) pairs) ->
            x <> js "-h" /\ x <> js "--help" /\ x <> js "-v" /\ x <> js "--version".
Proof.
  induction 1 as [| [flag v] pairs Hp _ IH]; intros x Hx; [destruct Hx |].
  cbn [flat_map app In fst snd] in Hx.
  destruct Hx as [<- | [<- | Hx]]; [| | by apply IH].
  - destruct Hp as (H1 & H2 & (opt & Hopt & _) & _). cbn [fst] in *.
    repeat split; try assumption; intros ->; vm_compute in Hopt; discriminate Hopt.
  - destruct Hp as (_ & _ & _ & Hv). cbn [snd] in Hv.
    repeat split; intros ->; vm_compute in Hv; discriminate Hv.
Qed.

Lemma parse_generate (rest : list jsstring) :
  (forall x, In x rest ->
             x <> js "-h" /\ x <> js "--help" /\ x <> js "-v" /\ x <> js "--version") ->
  parse program.2 program.1 (js "generate" :: rest)
  = match parse_args generate_command ∅ None rest with
    | Parsed opts =>
      Returns [Call generateAction (apply_defaults generate_command opts)]
    | UnknownOption arg =>
      Returns (Log (js "Unknown option: " ++ arg)
                 :: showCommandHelp zerocode_command generate_command)
    | NotAFunction => Throws
    end.
Proof.
  intros Hrest. unfold parse. rewrite program_root.
  assert (Hno : forall x, In x [js "-h"; js "--help"; js "-v"; js "--version"] ->
                          array_includes (js "generate" :: rest) x = false
                          /\ array_includes rest x = false).
  { intros x Hx. rewrite <- !not_true_iff_false, !array_includes_In. cbn [In].
    split.
    - intros [<- | H]; [cbn [In] in Hx; intuition discriminate |].
      specialize (Hrest x H). cbn [In] in Hx. intuition congruence.
    - intros H. specialize (Hrest x H). cbn [In] in Hx. intuition congruence. }
  destruct (Hno (js "-h") ltac:(cbn; auto)) as (-> & ->).
  destruct (Hno (js "--help") ltac:(cbn; auto)) as (-> & ->).
  destruct (Hno (js "-v") ltac:(cbn; auto 6)) as (-> & _).
  destruct (Hno (js "--version") ltac:(cbn; auto 6)) as (-> & _).
  cbn [orb andb].
  destruct program_generate as (-> & Hg). cbv beta iota. rewrite Hg.
  reflexivity.
Qed.

Lemma assigned_strings (pairs : list (jsstring * jsstring))
    (opts : gmap jsstring value) (key : jsstring) (v : value) :
  Forall (assignable generate_command) pairs ->
  fold_left (assign generate_command) pairs opts !! key = Some v ->
  opts !! key = Some v
  \/ exists s, v = VScalar (SStr s) /\ is_value s = true.
Proof.
  intros H. revert opts. induction H as [| [flag x] pairs Hp _ IH]; intros opts Hv.
  - by left.
  - cbn [fold_left] in Hv. destruct (IH _ Hv) as [Hk | Hs]; [| by right].
    destruct Hp as (_ & _ & (opt & Hopt & _) & Hx). cbn [fst snd] in *.
    unfold assign in Hk. cbn [fst snd] in Hk. rewrite Hopt in Hk.
    unfold set_prop in Hk. destruct (eqb _ _); [by left |].
    destruct (decide (getOptionKey (flags opt) = key)) as [<- | Hne].
    + rewrite lookup_insert_eq in Hk. injection Hk as <-. right. eauto.
    + rewrite lookup_insert_ne in Hk by exact Hne. by left.
Qed.

(** X28.  The command [generate] with flag and value pairs prints the
    document that [generatePrompt] gives for the last [--platform] value
    ([universal] without one), or writes it to the last [--output] value
    and prints where it was saved; complexity and language change
    nothing. *)
Theorem cli_generate (packageJson : option jsstring)
    (pairs : list (jsstring * jsstring)) :
  Forall (assignable generate_command) pairs ->
  let opts := fold_left (assign generate_command) pairs ∅ in
  let destination := default (js "universal") (string_of (opts !! js "platform")) in
  let document := systemPrompt (generatePrompt packageJson (request destination)) in
  main packageJson (js "generate" :: flat_map (fun pair => [pair.1; pair.2]) pairs)
  = Some (match string_of (opts !! js "output") with
          | Some file =>
            [writeFileSync file document; console_log (js "✅ Saved to: " ++ file)]
          | None => [console_log document]
          end).
Proof.
  intros Hpairs opts destination document. unfold main.
  rewrite parse_generate by (by apply assignable_plain).
  rewrite parse_args_pairs by exact Hpairs. fold opts.
  cbn [foldr mbind option_bind]. unfold run_generate.
  assert (Hstr : forall key v, opts !! key = Some v ->
                               exists s, v = VScalar (SStr s) /\ is_value s = true).
  { intros key v Hv. destruct (assigned_strings pairs ∅ key v Hpairs Hv) as [H | H];
      [by rewrite lookup_empty in H | exact H]. }
  assert (Hget : forall key d,
            default_for generate_command key = Some (SStr d) ->
            string_of (apply_defaults generate_command opts !! key)
            = Some (default d (string_of (opts !! key)))).
  { intros key d Hd. rewrite apply_defaults_get, Hd.
    destruct (opts !! key) as [v |] eqn:Hv; [| reflexivity].
    destruct (Hstr key v Hv) as (s & -> & _). reflexivity. }
  rewrite (Hget (js "platform") (js "universal")) by (vm_compute; reflexivity).
  rewrite (Hget (js "complexity") (js "basic")) by (vm_compute; reflexivity).
  rewrite (Hget (js "language") (js "english")) by (vm_compute; reflexivity).
  cbn [mbind option_bind]. fold destination.
  rewrite apply_defaults_get.
  replace (default_for generate_command (js "output")) with (@None scalar)
    by (vm_compute; reflexivity).
  destruct (opts !! js "output") as [v |] eqn:Hv.
  - destruct (Hstr _ v Hv) as (file & -> & Hfile). cbn [string_of fmap option_fmap option_map].
    unfold is_value in Hfile. apply andb_prop in Hfile as (-> & _).
    reflexivity.
  - cbn [string_of fmap option_fmap option_map app]. reflexivity.
Qed.

(** [generate --plat claude -o prompt.md]: the abbreviation is accepted
    and the document for claude is written to the file. *)
Lemma cli_generate_witness :
  main None [js "generate"; js "--plat"; js "claude"; js "-o"; js "prompt.md"]
  = Some [writeFileSync (js "prompt.md")
            (systemPrompt (generatePrompt None (request (js "claude"))));
          console_log (js "✅ Saved to: prompt.md")].
Proof.
  apply (cli_generate None [(js "--plat", js "claude"); (js "-o", js "prompt.md")]).
  repeat constructor; cbn [fst snd]; try discriminate;
    try (eexists; split; vm_compute; reflexivity).
Defined.

(** ** Registration *)

Section Builder.

Context {A : Type}.

Lemma map_get_set {V} (k k' : jsstring) (v : V) (m : list (jsstring * V)) :
  map_get k' (map_set k v m) = if eqb k k' then Some v else map_get k' m.
Proof.
  unfold eqb. induction m as [| [k0 v0] m IH]; cbn [map_set map_get]; unfold eqb.
  - reflexivity.
  - destruct (decide (k0 = k)) as [-> | Hne].
    + rewrite (bool_decide_eq_true_2 (k = k)) by reflexivity. cbn [map_get]. unfold eqb.
      by case_bool_decide.
    + rewrite (bool_decide_eq_false_2 (k0 = k)) by exact Hne. cbn [map_get]. unfold eqb.
      rewrite IH. repeat case_bool_decide; congruence.
Qed.

(** X27.  [command] returns a new object that the parent's map holds under
    the name (replacing an earlier one of that name); the calls chained on
    it configure that same object, and no other object changes. *)
Theorem chained_calls_configure_the_subcommand (h : heap A) (this : ref)
    (parent : Command A) (name flags_ desc : jsstring) (dv : option scalar) (fn : A) :
  h !! this = Some parent ->
  let '(cmd, h1) := Command_command this name h in
  let '(r2, h2) := Command_option cmd flags_ desc dv h1 in
  let '(r3, h3) := Command_action r2 fn h2 in
  r3 = cmd
  /\ h3 !! cmd
     = Some {| _name := name; _description := []; _version := [];
               commands := [];
               options := [{| flags := flags_; description := desc;
                              defaultValue := dv |}];
               _action := Some fn |}
  /\ (exists self,
        h3 !! this = Some self
        /\ _name self = _name parent /\ options self = options parent
        /\ _action self = _action parent
        /\ forall other,
             map_get other (commands self)
             = if eqb name other then Some cmd else map_get other (commands parent))
  /\ forall r, r <> this -> r <> cmd -> h3 !! r = h !! r.
Proof.
  intros Hthis. 
  assert (Hlt : this < length h) by (by apply lookup_lt_Some in Hthis).
  unfold Command_command, new_Command, Command_name, Command_option, Command_action.
  cbv beta iota zeta. unfold ref, heap in *.
  split; [reflexivity |].
  assert (Hne : this <> length h) by lia.
  split; [| split].
  - rewrite !list_lookup_alter_eq.
    rewrite list_lookup_alter_ne by exact Hne.
    rewrite list_lookup_alter_eq, lookup_app_r, Nat.sub_diag by lia. reflexivity.
  - rewrite !(list_lookup_alter_ne _ _ (length h) this) by lia.
    rewrite list_lookup_alter_eq.
    rewrite list_lookup_alter_ne by lia.
    rewrite lookup_app_l, Hthis by lia. cbn [fmap option_fmap option_map].
    eexists. split; [reflexivity |]. cbn [_name options _action commands].
    repeat split. intros other. apply map_get_set.
  - intros r Hr Hc.
    rewrite !list_lookup_alter_ne by congruence.
    destruct (decide (r < length h)).
    + by rewrite lookup_app_l by lia.
    + rewrite lookup_ge_None_2 by (rewrite length_app; cbn [length]; lia).
      symmetry. apply lookup_ge_None_2. lia.
Qed.

End Builder.

(** The chain of [cli.ts], with one option. *)
Lemma chained_calls_configure_the_subcommand_witness :
  let h3 :=
    (Command_action 1 generateAction
       (Command_option 1 (js "-o, --output <file>") (js "Save to file") None
          (Command_command 0 (js "generate") (new_Command []).2).2).2).2 in
  exists self : Command action,
    h3 !! (0 : ref) = Some self
    /\ map_get (js "generate") (commands self) = Some 1.
Proof.
  intros h3.
  pose proof (chained_calls_configure_the_subcommand (new_Command []).2 0 _
                (js "generate") (js "-o, --output <file>") (js "Save to file") None
                generateAction eq_refl) as H.
  cbv beta iota zeta delta [Command_command Command_option Command_action
                            Command_name new_Command fst snd] in H.
  destruct H as (_ & _ & (self & Hs & _ & _ & _ & Hm) & _).
  exists self. split; [exact Hs |]. rewrite Hm. reflexivity.
Defined.

(** ** Keys *)

Lemma split_comma_not_nil (s : jsstring) : split_comma s <> [].
Proof.
  induction s as [|c t IH]; cbn [split_comma]; [discriminate|].
  destruct (split_comma t); [congruence|]. destruct (c =? 44)%N; discriminate.
Qed.

Lemma split_comma_part (x : jsstring) : comma_free x -> split_comma x = [x].
Proof.
  induction 1 as [|c t Hc _ IH]; [reflexivity |].
  cbn [split_comma]. rewrite IH. apply N.eqb_neq in Hc. by rewrite Hc.
Qed.

Lemma split_comma_app (a b : jsstring) :
  split_comma (a ++ 44%N :: b) = split_comma a ++ split_comma b.
Proof.
  induction a as [|c t IH]; cbn [app split_comma].
  - destruct (split_comma b) eqn:E; [by destruct (split_comma_not_nil b)|]. reflexivity.
  - rewrite IH. destruct (split_comma t) as [|l ls] eqn:E;
      [by destruct (split_comma_not_nil t)|].
    cbn [app]. by destruct (c =? 44)%N.
Qed.

Lemma take_while_app (p : N -> bool) (x y : jsstring) :
  Forall (fun c => p c = true) x ->
  take_while p (x ++ y) = x ++ take_while p y.
Proof.
  induction 1 as [|c t Hc _ IH]; [reflexivity |].
  cbn [app take_while]. by rewrite Hc, IH.
Qed.

Lemma take_while_all (p : N -> bool) (x : jsstring) :
  Forall (fun c => p c = true) x -> take_while p x = x.
Proof.
  intros H. rewrite <- (app_nil_r x) at 1. rewrite take_while_app by exact H.
  by rewrite app_nil_r.
Qed.

Lemma trim_stable (c : N) (x : jsstring) (d : N) :
  is_white_space c = false -> is_white_space d = false ->
  trim (32%N :: c :: x ++ [d]) = c :: x ++ [d].
Proof.
  intros Hc Hd. unfold trim. change (trimStart (32%N :: ?y)) with (trimStart y).
  cbn [trimStart]. rewrite Hc.
  change (c :: x ++ [d]) with ((c :: x) ++ [d]). rewrite rev_app_distr.
  cbn [rev app trimStart]. rewrite Hd.
  change (d :: rev x ++ [c]) with ([d] ++ (rev x ++ [c])).
  rewrite rev_app_distr, rev_app_distr, rev_involutive. reflexivity.
Qed.

Lemma word_not_space (c : N) : is_word c = true -> is_white_space c = false.
Proof.
  unfold is_word, is_white_space. intros H.
  destruct (N.le_gt_cases c 122) as [Hle | Hgt].
  - destruct (N.le_gt_cases 48 c) as [Hge | Hlt].
    + repeat match goal with
             | |- context [(?a =? ?b)%N] =>
               rewrite (proj2 (N.eqb_neq a b)) by lia
             | |- context [(?a <=? ?b)%N] =>
               first [ rewrite (proj2 (N.leb_gt a b)) by lia
                     | rewrite (proj2 (N.leb_le a b)) by lia ]
             end. reflexivity.
    + exfalso. revert H.
      repeat match goal with
             | |- context [(?a =? ?b)%N] =>
               rewrite (proj2 (N.eqb_neq a b)) by lia
             | |- context [(?a <=? ?b)%N] =>
               first [ rewrite (proj2 (N.leb_gt a b)) by lia
                     | rewrite (proj2 (N.leb_le a b)) by lia ]
             end. discriminate.
  - exfalso. revert H.
    repeat match goal with
           | |- context [(?a =? ?b)%N] =>
             rewrite (proj2 (N.eqb_neq a b)) by lia
           | |- context [(?a <=? ?b)%N] =>
             first [ rewrite (proj2 (N.leb_gt a b)) by lia
                   | rewrite (proj2 (N.leb_le a b)) by lia ]
           end. discriminate.
Qed.

Lemma getSubstitution_first m b a p :
  getSubstitution m b a [Some p] (js "$1") = p.
Proof.
  transitivity (p ++ []); [reflexivity | apply app_nil_r].
Qed.

Lemma replace_first_match rx template consumed s m caps :
  rx s = Some (m, caps) ->
  replace_first_from rx template consumed s
  = getSubstitution m (rev consumed) (drop (length m) s) caps template
      ++ drop (length m) s.
Proof. intros H. destruct s; cbn [replace_first_from]; by rewrite H. Qed.

Lemma word_comma_free (word : jsstring) :
  Forall (fun c => is_word c = true) word -> comma_free word.
Proof.
  intros H. eapply Forall_impl; [exact H |].
  intros c Hc ->. vm_compute in Hc. discriminate Hc.
Qed.

(** X21.  The key of an option declared as [short, --word hint] is [word]:
    the first part holds no long flag, the word is made of [\w] code
    units, and the hint is empty or starts outside [\w], on the same
    line. *)
Theorem getOptionKey_long (short word rest : jsstring) :
  comma_free short -> includes short (js "--") = false ->
  word <> [] -> Forall (fun c => is_word c = true) word ->
  flag_hint rest -> comma_free rest ->
  getOptionKey (short ++ js ", --" ++ word ++ rest) = word.
Proof.
  intros Hshort Hlong Hword Hw Hrest Hcomma.
  set (part := js " --" ++ word ++ rest).
  assert (Hpart : comma_free part).
  { unfold part. apply Forall_app. split; [units |].
    apply Forall_app. split; [by apply word_comma_free | exact Hcomma]. }
  unfold getOptionKey.
  change (short ++ js ", --" ++ word ++ rest) with (short ++ 44%N :: part).
  rewrite split_comma_app, !split_comma_part by assumption.
  cbn [app find]. rewrite Hlong.
  assert (Hin : includes part (js "--") = true)
    by (apply includes_spec; exists (js " "), (word ++ rest); reflexivity).
  rewrite Hin.
  assert (Htrim : trim part = js "--" ++ word ++ rest).
  { unfold part.
    assert (exists x d, word ++ rest = x ++ [d] /\ is_white_space d = false)
      as (x & d & Hx & Hd).
    { destruct Hrest as [-> | (_ & (t & c & -> & Hc) & _)].
      - rewrite app_nil_r.
        destruct (exists_last Hword) as (x & d & ->). exists x, d. split; [reflexivity |].
        apply word_not_space. apply Forall_app in Hw as (_ & Hd). by inversion Hd.
      - exists (word ++ t), c. by rewrite <- app_assoc. }
    change (js " --" ++ word ++ rest) with (32%N :: 45%N :: 45%N :: (word ++ rest)).
    rewrite Hx. change (45%N :: x ++ [d]) with ((45%N :: x) ++ [d]).
    rewrite trim_stable by (reflexivity || exact Hd). reflexivity. }
  rewrite Htrim. unfold replace_first.
  assert (Hrx : rx_long_flag (js "--" ++ word ++ rest)
                = Some (js "--" ++ word ++ rest, [Some word])).
  { unfold rx_long_flag.
    rewrite (proj2 (startsWith_true (js "--" ++ word ++ rest) (js "--")))
      by reflexivity.
    change (drop 2 (js "--" ++ word ++ rest)) with (word ++ rest).
    assert (Htake : take_while is_word (word ++ rest) = word).
    { rewrite take_while_app by exact Hw.
      destruct Hrest as [-> | ((c & t & -> & Hc) & _)]; cbn [take_while];
        rewrite ?Hc; apply app_nil_r. }
    rewrite Htake. apply truthy_spec in Hword. rewrite Hword.
    change (drop (2 + length word) (js "--" ++ word ++ rest))
      with (drop (length word) (word ++ rest)).
    rewrite drop_app_length. unfold dots.
    rewrite take_while_all; [reflexivity |].
    destruct Hrest as [-> | (_ & _ & Hline)]; [constructor |].
    eapply Forall_impl; [exact Hline |]. cbv beta. by intros c ->. }
  rewrite (replace_first_match _ _ _ _ _ _ Hrx).
  rewrite drop_all, getSubstitution_first. apply app_nil_r.
Qed.

(** The first option of [generate]. *)
Lemma getOptionKey_long_witness :
  getOptionKey (js "-p" ++ js ", --" ++ js "platform" ++ js " <platform>")
  = js "platform".
Proof.
  apply (getOptionKey_long (js "-p") (js "platform") (js " <platform>")).
  - units.
  - reflexivity.
  - discriminate.
  - vm_compute. repeat constructor.
  - right. split; [by exists 32%N, (js "<platform>") |].
    split; [by exists (js " <platform"), 62%N |]. vm_compute. repeat constructor.
  - units.
Defined.

(** ** Variadic options *)

Section Variadic.

Context {A : Type}.

Implicit Types (command : Command A).

Lemma parse_args_collect command opts key items values rest :
  opts !! key = Some (VArr items) ->
  Forall (fun v => startsWith v (js "-") = false) values ->
  next_is_flag rest ->
  parse_args command opts (Some key) (values ++ rest)
  = parse_args command (<[key := VArr (items ++ values)]> opts) None rest.
Proof.
  intros Hk Hv Hrest. revert opts items Hk.
  induction Hv as [| v values Hdash _ IH]; intros opts items Hk.
  - rewrite app_nil_r, insert_id by exact Hk. cbn [app].
    destruct Hrest as [-> | (arg & rest' & -> & Hdash)]; [reflexivity |].
    rewrite !parse_args_cons, Hdash. reflexivity.
  - cbn [app]. rewrite parse_args_cons, Hdash.
    unfold push at 1. rewrite Hk.
    rewrite (IH _ (items ++ [v])) by apply lookup_insert_eq.
    rewrite insert_insert_eq, <- app_assoc. reflexivity.
Qed.

(** X29.  An option with [...] in its flags takes the arguments up to the
    next one that starts with a dash and appends them to the array under
    its key; a truthy boolean or string under that key, or a key that is
    an inherited name, makes the call of [push] throw. *)
Theorem parse_args_variadic command opts flag opt values rest :
  flag <> js "-h" -> flag <> js "--help" ->
  findOption command flag = Some opt ->
  includes (flags opt) (js "<") || includes (flags opt) (js "[") = true ->
  includes (flags opt) (js "...") = true ->
  values <> [] -> Forall (fun v => is_value v = true) values ->
  next_is_flag rest ->
  let key := getOptionKey (flags opt) in
  parse_args command opts None (flag :: values ++ rest)
  = match opts !! key with
    | Some (VScalar x) =>
      if truthy_scalar x then NotAFunction
      else parse_args command (<[key := VArr values]> opts) None rest
    | Some (VArr items) =>
      parse_args command (<[key := VArr (items ++ values)]> opts) None rest
    | None =>
      if inherited key then NotAFunction
      else parse_args command (<[key := VArr values]> opts) None rest
    end.
Proof.
  intros Hh Hhelp Hopt Hangle Hdots Hvalues Hv Hrest key.
  destruct values as [| v values]; [congruence |].
  inversion Hv as [| ? ? Hv1 Hvs]; subst.
  assert (Hdash : Forall (fun v => startsWith v (js "-") = false) values).
  { eapply Forall_impl; [exact Hvs |]. intros x Hx. unfold is_value in Hx.
    apply andb_prop in Hx as (_ & Hx). by apply negb_true_iff in Hx. }
  destruct (findOption_Some command flag opt Hopt) as (_ & Hflag & _).
  cbn [app]. rewrite parse_args_cons, Hflag.
  unfold eqb. rewrite !bool_decide_eq_false_2 by assumption. cbn [orb].
  rewrite Hopt. cbv zeta. fold key.
  assert (Hbool : negb (includes (flags opt) (js "<"))
                  && negb (includes (flags opt) (js "[")) = false).
  { apply orb_true_iff in Hangle as [-> | ->]; [reflexivity | apply andb_false_r]. }
  rewrite Hbool. unfold is_value in Hv1. rewrite Hv1, Hdots.
  unfold start_array.
  destruct (opts !! key) as [[x | items] |] eqn:Hk.
  - destruct (truthy_scalar x); [reflexivity |].
    unfold push. rewrite lookup_insert_eq.
    rewrite (parse_args_collect _ _ key [v]) by (assumption || apply lookup_insert_eq).
    by rewrite !insert_insert_eq.
  - unfold push. rewrite Hk.
    rewrite (parse_args_collect _ _ key (items ++ [v]))
      by (assumption || apply lookup_insert_eq).
    by rewrite insert_insert_eq, <- app_assoc.
  - destruct (inherited key); [reflexivity |].
    unfold push. rewrite lookup_insert_eq.
    rewrite (parse_args_collect _ _ key [v]) by (assumption || apply lookup_insert_eq).
    by rewrite !insert_insert_eq.
Qed.

End Variadic.

(** ** Examples and the [=] form *)

(** A lone dash selects the first option of [generate]. *)
Lemma findOption_prefix_witness :
  findOption generate_command (js "-")
  = Some {| flags := js "-p, --platform <platform>"; description := js "AI platform";
            defaultValue := Some (SStr (js "universal")) |}.
Proof.
  destruct (findOption_prefix generate_command (js "-")) as (_ & _ & H).
  eapply (H _ _ (js "-p")); [reflexivity | | reflexivity | reflexivity].
  vm_compute. auto.
Defined.

(** The later [--platform] wins. *)
Lemma parse_args_assignments_witness :
  parse_args generate_command ∅ None
    [js "-p"; js "cursor"; js "--platform"; js "claude"]
  = Parsed {[ js "platform" := VScalar (SStr (js "claude")) ]}.
Proof.
  rewrite (parse_args_assignments generate_command
             [(js "-p", js "cursor"); (js "--platform", js "claude")] ∅).
  - vm_compute. reflexivity.
  - repeat constructor; cbn [fst snd]; try discriminate;
      try (eexists; split; vm_compute; reflexivity).
Defined.

(** Two values for [--rules], then a switch. *)
Lemma parse_args_variadic_witness :
  parse_args rules_command ∅ None [js "--rules"; js "a"; js "b"; js "-q"]
  = Parsed {[ js "rules" := VArr [js "a"; js "b"];
              js "quiet" := VScalar (SBool true) ]}.
Proof.
  rewrite (parse_args_variadic rules_command ∅ (js "--rules")
             {| flags := js "-r, --rules <rules...>";
                description := js "Custom rules"; defaultValue := None |}
             [js "a"; js "b"] [js "-q"]);
    try (vm_compute; reflexivity); try discriminate.
  - repeat constructor.
  - right. by exists (js "-q"), [].
Defined.

Section EqualsForm.

Context {A : Type}.

Lemma trimStart_In (c : N) (s : jsstring) : In c (trimStart s) -> In c s.
Proof.
  induction s as [|d t IH]; cbn [trimStart]; [tauto |].
  destruct (is_white_space d); [right; auto | tauto].
Qed.

Lemma trim_In (c : N) (s : jsstring) : In c (trim s) -> In c s.
Proof.
  unfold trim. intros H. apply in_rev in H. apply trimStart_In in H.
  apply in_rev in H. by apply trimStart_In.
Qed.

Lemma split_comma_In (c : N) (s part : jsstring) :
  In part (split_comma s) -> In c part -> In c s.
Proof.
  revert part. induction s as [|d t IH]; intros part; cbn [split_comma].
  - intros [<- | []] [].
  - destruct (split_comma t) as [|l ls] eqn:E; [by destruct (split_comma_not_nil t) |].
    destruct (d =? 44)%N.
    + intros [<- | H] Hc; [destruct Hc | right; eauto].
    + intros [<- | H] Hc.
      * destruct Hc as [-> | Hc]; [by left | right; apply (IH l); cbn; auto].
      * right. apply (IH part); cbn; auto.
Qed.

Lemma startsWith_In (c : N) (s pat : jsstring) :
  startsWith s pat = true -> In c pat -> In c s.
Proof.
  intros H Hc. apply startsWith_true in H. rewrite H. apply in_or_app. by left.
Qed.

(** X30.  When no declared flag contains [=], an argument of the form
    [--name=value] matches no option: the loop stops at it with
    [Unknown option]. *)
Theorem parse_args_equals_form (command : Command A) (opts : gmap jsstring value)
    (flag : jsstring) (rest : list jsstring) :
  (forall opt, In opt (options command) -> ~ In 61%N (flags opt)) ->
  startsWith flag (js "-") = true ->
  In 61%N flag ->
  findOption command flag = None
  /\ parse_args command opts None (flag :: rest) = UnknownOption flag.
Proof.
  intros Hflags Hdash Heq.
  assert (Hnone : findOption command flag = None).
  { apply findOption_None. right. intros opt f Hopt Hf.
    apply not_true_iff_false. intros Hs.
    apply (Hflags opt Hopt).
    unfold flag_parts in Hf. apply in_map_iff in Hf as (part & <- & Hpart).
    apply (split_comma_In _ _ part Hpart), trim_In.
    by apply (startsWith_In _ _ flag). }
  split; [exact Hnone |].
  rewrite parse_args_cons, Hdash, Hnone.
  unfold eqb. rewrite !bool_decide_eq_false_2; [reflexivity | |];
    intros ->; cbn [In] in Heq; vm_compute in Heq; intuition discriminate.
Qed.

End EqualsForm.

(** [--platform=cursor] is an unknown option. *)
Lemma parse_args_equals_form_witness :
  parse_args generate_command ∅ None [js "--platform=cursor"]
  = UnknownOption (js "--platform=cursor").
Proof.
  apply (parse_args_equals_form generate_command ∅ (js "--platform=cursor") []).
  - intros opt Hopt Hin. vm_compute in Hopt.
    repeat (destruct Hopt as [<- | Hopt]; [vm_compute in Hin; intuition discriminate |]).
    destruct Hopt.
  - reflexivity.
  - vm_compute. auto 20.
Defined.

(** [generate -p claude] calls the action of [generate] once. *)
Lemma parse_calls_witness :
  exists parsed_,
    parse_args generate_command ∅ None [js "-p"; js "claude"] = Parsed parsed_
    /\ parse program.2 program.1 [js "generate"; js "-p"; js "claude"]
       = Returns [Call generateAction (apply_defaults generate_command parsed_)].
Proof.
  assert (exists events opts,
             parse program.2 program.1 [js "generate"; js "-p"; js "claude"]
             = Returns events /\ In (Call generateAction opts) events)
    as (events & opts & Hp & Hin)
    by (eexists _, _; split; [vm_compute; reflexivity | left; reflexivity]).
  destruct (parse_calls _ _ _ _ _ _ Hp Hin)
    as (self & name & rest & r & command & parsed_ & Hs & [= <- <-] & Hr & Hc & _
        & Ha & -> & -> & _).
  exists parsed_. rewrite program_root in Hs. injection Hs as <-.
  vm_compute in Hr. injection Hr as <-.
  destruct program_generate as (_ & Hg). rewrite Hg in Hc. injection Hc as <-.
  split; [exact Ha | exact Hp].
Defined.
